(** * Feature engineering for the retail forecasting benchmark

    A shallow embedding of
    [contrib/tsperf/energy_utils/feature_engineering/feature_engineering.py]:
    the calendar helper [week_of_month], the two feature generators
    [lagged_features] and [moving_averages], and the per-round driver.

    Tables are pandas data frames.  Floating point numbers are modelled by
    the rationals they denote, the missing value (NaN) by [None]. *)

From Stdlib Require Import ZArith QArith Qround List String Lia DecimalString.
From Stdlib Require Import Lqa.
From Stdlib Require DecimalZ DecimalPos.
From stdpp Require Import gmap strings list.

Open Scope Z_scope.

(** ** Python exceptions and the error monad *)

Inductive pyerr :=
  | ValueError | KeyError | TypeError | OverflowError | NameError
  | IndexError | AttributeError.

Inductive result (A : Type) :=
  | Ok (a : A)
  | Err (e : pyerr).
Arguments Ok {A} a.
Arguments Err {A} e.

#[global] Instance result_ret : MRet result := fun A a => Ok a.
#[global] Instance result_bind : MBind result := fun A B f m =>
  match m with
  | Ok a => f a
  | Err e => Err e
  end.
#[global] Instance result_fmap : FMap result := fun A B f m =>
  match m with
  | Ok a => Ok (f a)
  | Err e => Err e
  end.

#[global] Instance pyerr_eq_dec : EqDecision pyerr.
Proof. solve_decision. Defined.

(** [str(n)] for a Python integer. *)
Definition str (n : Z) : string := NilZero.string_of_int (Z.to_int n).

(** ** The calendar: [datetime.date] *)

Module Calendar.

Record date := mkDate { year : Z; month : Z; day : Z }.

#[global] Instance date_eq_dec : EqDecision date.
Proof. solve_decision. Defined.

Definition is_leap (y : Z) : bool :=
  (y mod 4 =? 0) && (negb (y mod 100 =? 0) || (y mod 400 =? 0)).

Definition DAYS_IN_MONTH (m : Z) : Z :=
  match m with
  | 1 => 31 | 2 => 28 | 3 => 31 | 4 => 30 | 5 => 31 | 6 => 30
  | 7 => 31 | 8 => 31 | 9 => 30 | 10 => 31 | 11 => 30 | 12 => 31
  | _ => -1
  end.

Definition DAYS_BEFORE_MONTH (m : Z) : Z :=
  match m with
  | 1 => 0 | 2 => 31 | 3 => 59 | 4 => 90 | 5 => 120 | 6 => 151
  | 7 => 181 | 8 => 212 | 9 => 243 | 10 => 273 | 11 => 304 | 12 => 334
  | _ => -1
  end.

Definition days_before_year (y : Z) : Z :=
  let y := y - 1 in y * 365 + y / 4 - y / 100 + y / 400.

Definition days_in_month (y m : Z) : Z :=
  if (m =? 2) && is_leap y then 29 else DAYS_IN_MONTH m.

Definition days_before_month (y m : Z) : Z :=
  DAYS_BEFORE_MONTH m + (if (2 <? m) && is_leap y then 1 else 0).

Definition ymd2ord (y m d : Z) : Z :=
  days_before_year y + days_before_month y m + d.

Definition MINYEAR : Z := 1.
Definition MAXYEAR : Z := 9999.
Definition MAXORDINAL : Z := 3652059.

Definition DI400Y : Z := Eval cbv in days_before_year 401.
Definition DI100Y : Z := Eval cbv in days_before_year 101.
Definition DI4Y : Z := Eval cbv in days_before_year 5.

(** A date object exists only for fields that pass the constructor's check. *)
Definition valid_fields (y m d : Z) : bool :=
  (MINYEAR <=? y) && (y <=? MAXYEAR) && (1 <=? m) && (m <=? 12)
  && (1 <=? d) && (d <=? days_in_month y m).

Definition valid_date (dt : date) : Prop :=
  valid_fields (year dt) (month dt) (day dt) = true.

Definition new_date (y m d : Z) : result date :=
  if valid_fields y m d then Ok (mkDate y m d) else Err ValueError.

(** [dt.replace(day=d)] *)
Definition replace_day (dt : date) (d : Z) : result date :=
  new_date (year dt) (month dt) d.

Definition toordinal (dt : date) : Z := ymd2ord (year dt) (month dt) (day dt).

(** [dt.weekday()]: Monday is 0, Sunday is 6. *)
Definition weekday (dt : date) : Z := (toordinal dt + 6) mod 7.

Definition ord2ymd (n : Z) : date :=
  let n := n - 1 in
  let n400 := n / DI400Y in let n := n mod DI400Y in
  let y := n400 * 400 + 1 in
  let n100 := n / DI100Y in let n := n mod DI100Y in
  let n4 := n / DI4Y in let n := n mod DI4Y in
  let n1 := n / 365 in let n := n mod 365 in
  let y := y + n100 * 100 + n4 * 4 + n1 in
  if (n1 =? 4) || (n100 =? 4) then mkDate (y - 1) 12 31
  else
    let leapyear := (n1 =? 3) && (negb (n4 =? 24) || (n100 =? 3)) in
    let m := Z.shiftr (n + 50) 5 in
    let preceding := DAYS_BEFORE_MONTH m + (if (2 <? m) && leapyear then 1 else 0) in
    if n <? preceding then
      let m := m - 1 in
      let preceding :=
        preceding - (DAYS_IN_MONTH m + (if (m =? 2) && leapyear then 1 else 0)) in
      mkDate y m (n - preceding + 1)
    else mkDate y m (n - preceding + 1).

(** [dt + datetime.timedelta(days=n)] *)
Definition add_days (dt : date) (n : Z) : result date :=
  let o := toordinal dt + n in
  if (0 <? o) && (o <=? MAXORDINAL) then Ok (ord2ymd o) else Err OverflowError.

End Calendar.

Import Calendar.

(** ** Data frames

    A frame has a row count (the length of its index) and named columns.
    Every frame that meets another in this script was derived from it by
    row-preserving operations, so the two carry the same index and pandas
    aligns them by position; the model keeps positions only. *)

Record DataFrame (A : Type) := mkDF {
  nrows : nat;
  columns : list (string * list (option A))
}.
Arguments mkDF {A} nrows columns.
Arguments nrows {A} d.
Arguments columns {A} d.

(** [df.columns] *)
Definition names {A} (df : DataFrame A) : list string := (columns df).*1.

(** Every column is as long as the index. *)
Definition wf {A} (df : DataFrame A) : Prop :=
  Forall (fun c => length c.2 = nrows df) (columns df).

(** [Series.shift(periods)]: values move down by [periods] rows (up when
    negative); the vacated rows hold the missing value. *)
Definition shift_values {A} (periods : Z) (l : list (option A)) : list (option A) :=
  if 0 <=? periods
  then take (length l) (replicate (Z.to_nat periods) None ++ l)
  else
    let n := Z.to_nat (- periods) in
    drop n l ++ replicate (n `min` length l)%nat None.

(** The table that [df.shift(periods)] returns. *)
Definition df_shift {A} (periods : Z) (df : DataFrame A) : DataFrame A :=
  mkDF (nrows df) ((fun c => (c.1, shift_values periods c.2)) <$> columns df).

(** [df.shift] hands [periods] to [np.roll] as a machine integer ([np.intp],
    64 bits) as soon as the frame has a cell to move: a number of rows
    outside [-2^63 .. 2^63 - 1] is then an [OverflowError].  A frame without
    rows or without columns is copied as it is. *)
Definition fits_intp (n : Z) : bool := (- 2 ^ 63 <=? n) && (n <? 2 ^ 63).

Definition has_cells {A} (df : DataFrame A) : bool :=
  match nrows df, columns df with
  | S _, _ :: _ => true
  | _, _ => false
  end.

Definition shift_overflows {A} (periods : Z) (df : DataFrame A) : bool :=
  has_cells df && negb (fits_intp periods).

(** [df.columns = new]: the labels are replaced in place; a list of the
    wrong length is rejected. *)
Definition df_set_columns {A} (new : list string) (df : DataFrame A)
  : result (DataFrame A) :=
  if decide (length new = length (columns df))
  then Ok (mkDF (nrows df) (zip new (columns df).*2))
  else Err ValueError.

Definition pad_values {A} (n : nat) (l : list (option A)) : list (option A) :=
  l ++ replicate (n - length l) None.

(** [pd.concat(dfs, axis=1)]: no objects to concatenate is a [ValueError];
    otherwise the columns follow one another in list order. *)
Definition df_concat_columns {A} (dfs : list (DataFrame A)) : result (DataFrame A) :=
  match dfs with
  | [] => Err ValueError
  | _ =>
      let n := max_list (nrows <$> dfs) in
      Ok (mkDF n (dfs ≫= fun df => (fun c => (c.1, pad_values n c.2)) <$> columns df))
  end.

(** The trailing window of (at most) [w] rows that ends at row [i]. *)
Definition window_at {A} (w i : nat) (l : list A) : list A :=
  drop (S i - w) (take (S i) l).

Definition Qsum (l : list Q) : Q := foldr Qplus 0%Q l.

(** Mean of the observations of a window; missing values are skipped and
    fewer than [min_periods] observations give the missing value. *)
Definition mean_obs (min_periods : nat) (xs : list (option Q)) : option Q :=
  let obs := omap id xs in
  if decide (min_periods <= length obs /\ 0 < length obs)%nat
  then Some (Qsum obs / inject_Z (Z.of_nat (length obs)))%Q
  else None.

Definition rolling_mean_values (window min_periods : nat) (l : list (option Q))
  : list (option Q) :=
  (fun i => mean_obs min_periods (window_at window i l)) <$> seq 0 (length l).

(** [df.rolling(min_periods=.., center=False, window=..).mean()]; the
    window is a machine integer (the statements take it below [2^63]). *)
Definition df_rolling_mean (min_periods window : Z) (df : DataFrame Q)
  : result (DataFrame Q) :=
  if window <? 0 then Err ValueError
  else if min_periods <? 0 then Err ValueError
  else if window <? min_periods then Err ValueError
  else Ok (mkDF (nrows df)
             ((fun c => (c.1, rolling_mean_values (Z.to_nat window)
                                (Z.to_nat min_periods) c.2)) <$> columns df)).

(** ** Frames as objects

    A Python variable holds a reference to a frame object.  [df.shift],
    [rolling(..).mean()] and [pd.concat] build new objects; assigning to
    [df.columns] changes the object it is applied to. *)

Definition ref := nat.
Abbreviation heap := (gmap nat (DataFrame Q)).

Definition M (A : Type) : Type := heap -> result (A * heap).

#[global] Instance M_ret : MRet M := fun A a h => Ok (a, h).
#[global] Instance M_bind : MBind M := fun A B f m h =>
  match m h with
  | Ok (a, h') => f a h'
  | Err e => Err e
  end.

Definition lift {A} (r : result A) : M A := fun h =>
  match r with
  | Ok a => Ok (a, h)
  | Err e => Err e
  end.

Definition new_frame (d : DataFrame Q) : M ref := fun h =>
  let r := fresh (dom h) in Ok (r, <[r:=d]> h).

Definition read_frame (r : ref) : M (DataFrame Q) := fun h =>
  match h !! r with
  | Some d => Ok (d, h)
  | None => Err NameError
  end.

Definition write_frame (r : ref) (d : DataFrame Q) : M unit := fun h =>
  Ok (tt, <[r:=d]> h).

(** A [for] loop that threads its local variables. *)
Fixpoint for_each {X S} (xs : list X) (body : S -> X -> M S) (s : S) : M S :=
  match xs with
  | [] => mret s
  | x :: xs' => s' ← body s x; for_each xs' body s'
  end.

Fixpoint read_frames (rs : list ref) : M (list (DataFrame Q)) :=
  match rs with
  | [] => mret []
  | r :: rs' => d ← read_frame r; ds ← read_frames rs'; mret (d :: ds)
  end.

Definition pd_shift (df : ref) (periods : Z) : M ref :=
  d ← read_frame df;
  if shift_overflows periods d then lift (Err OverflowError)
  else new_frame (df_shift periods d).

Definition get_columns (df : ref) : M (list string) :=
  d ← read_frame df; mret (names d).

Definition set_columns (df : ref) (new : list string) : M unit :=
  d ← read_frame df; d' ← lift (df_set_columns new d); write_frame df d'.

Definition shape0 (df : ref) : M Z :=
  d ← read_frame df; mret (Z.of_nat (nrows d)).

Definition pd_concat_axis1 (dfs : list ref) : M ref :=
  ds ← read_frames dfs; d ← lift (df_concat_columns ds); new_frame d.

Definition pd_rolling_mean (df : ref) (min_periods window : Z) : M ref :=
  d ← read_frame df; d' ← lift (df_rolling_mean min_periods window d); new_frame d'.

(** ** Utility functions of the script *)

(** [week_of_month(dt)], lines 14-29.  [adjusted_dom / 7.0] is a quotient of
    small integers, [ceil] its ceiling. *)
Definition week_of_month (dt : date) : result Z :=
  first_day ← replace_day dt 1;
  let dom := day dt in
  let adjusted_dom := dom + weekday first_day in
  let wom := Qceiling (inject_Z adjusted_dom / 7) in
  Ok wom.


(** [lagged_features(df, lags)], lines 32-48. *)
Definition lagged_features (df : ref) (lags : list Z) : M ref :=
  df_list ← for_each lags (fun df_list lag =>
    df_shifted ← pd_shift df lag;
    cols ← get_columns df_shifted;
    _ ← set_columns df_shifted ((fun x => x +:+ "_lag" +:+ str lag) <$> cols);
    mret (df_list ++ [df_shifted])) [];
  fea ← pd_concat_axis1 df_list;
  mret fea.

(** [moving_averages(df, start_step, window_size=None)], lines 51-65. *)
Definition moving_averages (df : ref) (start_step : Z) (window_size : option Z)
  : M ref :=
  window_size ← match window_size with
                | None => shape0 df
                | Some w => mret w
                end;
  shifted ← pd_shift df start_step;
  fea ← pd_rolling_mean shifted 1 window_size;
  cols ← get_columns fea;
  _ ← set_columns fea ((fun x => x +:+ "_mean" +:+ str window_size) <$> cols);
  mret fea.

(** Running a function of the script on one frame: the frame is the only
    object, the result is read back from the final store. *)
Definition the_df : ref := 0%nat.

Definition call (f : ref -> M ref) (d : DataFrame Q) : result (DataFrame Q) :=
  match f the_df {[the_df := d]} with
  | Ok (r, h) =>
      match h !! r with
      | Some d' => Ok d'
      | None => Err NameError
      end
  | Err e => Err e
  end.

(** Derived forms used in the statements below: relabelling every column
    with [f], and the frame contributed by one lag. *)
Definition df_rename {A} (f : string -> string) (df : DataFrame A) : DataFrame A :=
  mkDF (nrows df) ((fun c => (f c.1, c.2)) <$> columns df).

Definition lag_frame (lag : Z) (d : DataFrame Q) : DataFrame Q :=
  df_rename (fun x => x +:+ "_lag" +:+ str lag) (df_shift lag d).

(** [m] run in store [h] yields the frame [fea] as a new object and leaves
    every object of [h] as it was. *)
Definition yields (m : M ref) (h : heap) (fea : DataFrame Q) : Prop :=
  exists r h', m h = Ok (r, h') /\ h !! r = None /\ h' !! r = Some fea /\
    forall r0, is_Some (h !! r0) -> h' !! r0 = h !! r0.

(** ** Tables of the driver

    The tables of the driver hold integers (store, brand, week, move),
    floats (prices, profit, logmove) and dates (week_start). *)

Inductive value :=
  | VInt (n : Z)
  | VFloat (q : Q)
  | VDate (dt : date).

#[global] Instance Q_eq_dec : EqDecision Q.
Proof. solve_decision. Defined.
#[global] Instance value_eq_dec : EqDecision value.
Proof. solve_decision. Defined.

Abbreviation cell := (option value).
Abbreviation Table := (DataFrame value).

Definition to_float (v : value) : result Q :=
  match v with
  | VInt n => Ok (inject_Z n)
  | VFloat q => Ok q
  | VDate _ => Err TypeError
  end.

(** [int(x)] on a cell: NaN cannot be converted, a float is truncated. *)
Definition py_int (c : cell) : result Z :=
  match c with
  | None => Err ValueError
  | Some (VInt n) => Ok n
  | Some (VFloat q) => Ok (Z.quot (Qnum q) (Z.pos (Qden q)))
  | Some (VDate _) => Err TypeError
  end.

Definition cell_float (x : cell) : result (option Q) :=
  match x with
  | None => Ok None
  | Some v => Some <$> to_float v
  end.

(** The float64 view of a table and back. *)
Definition as_float (df : Table) : result (DataFrame Q) :=
  cols ← mapM (fun c : string * list cell =>
            v ← mapM cell_float c.2; Ok (c.1, v)) (columns df);
  Ok (mkDF (nrows df) cols).

Definition of_float (df : DataFrame Q) : Table :=
  mkDF (nrows df)
    ((fun c : string * list (option Q) => (c.1, option_map VFloat <$> c.2))
       <$> columns df).

(** *** Columns by label *)

Fixpoint assoc {V} (c : string) (l : list (string * V)) : option V :=
  match l with
  | [] => None
  | (c', v) :: l' => if decide (c' = c) then Some v else assoc c l'
  end.

Fixpoint assoc_set {V} (c : string) (v : V) (l : list (string * V))
  : list (string * V) :=
  match l with
  | [] => [(c, v)]
  | (c', v') :: l' =>
      if decide (c' = c) then (c, v) :: l' else (c', v') :: assoc_set c v l'
  end.

(** [df[c]] *)
Definition getitem {A} (df : DataFrame A) (c : string) : result (list (option A)) :=
  match assoc c (columns df) with
  | Some v => Ok v
  | None => Err KeyError
  end.

(** [df[c] = series], the series being one computed from [df] itself: an
    existing column is overwritten in place, a new one is appended. *)
Definition setitem {A} (df : DataFrame A) (c : string) (v : list (option A))
  : DataFrame A :=
  mkDF (nrows df) (assoc_set c v (columns df)).

(** [df[[c1, ..., cn]]] *)
Definition select {A} (df : DataFrame A) (cs : list string) : result (DataFrame A) :=
  vs ← mapM (getitem df) cs;
  Ok (mkDF (nrows df) (zip cs vs)).

Definition at_row {A} (v : list (option A)) (i : nat) : option A :=
  default None (v !! i).

(** [df.iloc[ix]]: the rows at the given positions. *)
Definition take_rows {A} (ix : list nat) (v : list (option A)) : list (option A) :=
  at_row v <$> ix.

Definition df_take {A} (ix : list nat) (df : DataFrame A) : DataFrame A :=
  mkDF (length ix) ((fun c => (c.1, take_rows ix c.2)) <$> columns df).

(** Rows picked through an indexer in which a missing position stands for
    a row of missing values. *)
Definition take_opt {A} (ix : list (option nat)) (v : list (option A))
  : list (option A) :=
  (fun o => match o with Some i => at_row v i | None => None end) <$> ix.

(** [series.unique()]: the distinct values in order of first appearance. *)
Fixpoint unique `{EqDecision K} (l : list K) : list K :=
  match l with
  | [] => []
  | x :: l' => x :: filter (fun y => y <> x) (unique l')
  end.

(** [series.apply(f)] *)
Definition series_apply {A B} (f : option A -> result (option B))
  (v : list (option A)) : result (list (option B)) := mapM f v.

(** *** Merging on key columns *)

Inductive how := how_left | how_right.

(** The key of row [i]: its cells in the key columns. *)
Definition row_key {A} (kcols : list (list (option A))) (i : nat) : list (option A) :=
  (fun v => at_row v i) <$> kcols.

Definition row_keys {A} (kcols : list (list (option A))) (n : nat)
  : list (list (option A)) := row_key kcols <$> seq 0 n.

(** Positions of the rows whose key is [k]. *)
Definition matches `{EqDecision K} (k : K) (ks : list K) : list nat :=
  filter (fun j => ks !! j = Some k) (seq 0 (length ks)).

(** The pairs of row positions of the joined table, in the key order of the
    side that is kept. *)
Definition merge_index `{EqDecision K} (h : how) (kl kr : list K)
  : list (option nat * option nat) :=
  match h with
  | how_left =>
      '(i, k) ← zip (seq 0 (length kl)) kl;
      match matches k kr with
      | [] => [(Some i, None)]
      | js => (fun j => (Some i, Some j)) <$> js
      end
  | how_right =>
      '(j, k) ← zip (seq 0 (length kr)) kr;
      match matches k kl with
      | [] => [(None, Some j)]
      | ms => (fun i => (Some i, Some j)) <$> ms
      end
  end.

(** A key cell of the joined table comes from the left row if there is
    one, otherwise from the right row. *)
Definition key_values {A} (ix : list (option nat * option nat))
  (vl vr : list (option A)) : list (option A) :=
  (fun p => match p with
            | (Some i, _) => at_row vl i
            | (None, Some j) => at_row vr j
            | (None, None) => None
            end) <$> ix.

(** [pd.merge(l, r, how=h, on=on)]: the key columns once, in their place
    among the columns of [l], then the other columns of [r]; a label that
    both sides carry outside the keys gets the suffix [_x] resp. [_y]. *)
Definition merge `{EqDecision A} (l r : DataFrame A) (h : how) (on : list string)
  : result (DataFrame A) :=
  kl ← mapM (getitem l) on;
  kr ← mapM (getitem r) on;
  let ix := merge_index h (row_keys kl (nrows l)) (row_keys kr (nrows r)) in
  let shared c := bool_decide ((c ∉ on) /\ (c ∈ names l) /\ (c ∈ names r)) in
  let lcols :=
    (fun c =>
       if bool_decide (c.1 ∈ on)
       then (c.1, key_values ix c.2 (default [] (assoc c.1 (columns r))))
       else (if shared c.1 then c.1 +:+ "_x" else c.1, take_opt ix.*1 c.2))
      <$> columns l in
  let rcols :=
    (fun c => (if shared c.1 then c.1 +:+ "_y" else c.1, take_opt ix.*2 c.2))
      <$> filter (fun c => c.1 ∉ on) (columns r) in
  Ok (mkDF (length ix) (lcols ++ rcols)).

(** *** Sorting *)

Definition value_rank (v : value) : Q :=
  match v with
  | VInt n => inject_Z n
  | VFloat q => q
  | VDate dt => inject_Z (toordinal dt)
  end.

(** Missing values sort last. *)
Definition cell_compare (a b : cell) : comparison :=
  match a, b with
  | None, None => Eq
  | None, Some _ => Gt
  | Some _, None => Lt
  | Some x, Some y => Qcompare (value_rank x) (value_rank y)
  end.

Fixpoint key_compare (a b : list cell) : comparison :=
  match a, b with
  | x :: a', y :: b' =>
      match cell_compare x y with
      | Eq => key_compare a' b'
      | c => c
      end
  | [], [] => Eq
  | [], _ :: _ => Lt
  | _ :: _, [] => Gt
  end.

Definition key_leb (a b : list cell) : bool :=
  match key_compare a b with Gt => false | _ => true end.

Fixpoint insert_sorted {X} (key : X -> list cell) (x : X) (l : list X) : list X :=
  match l with
  | [] => [x]
  | y :: l' =>
      if key_leb (key x) (key y) then x :: y :: l'
      else y :: insert_sorted key x l'
  end.

(** A stable sort by key. *)
Definition sort_by {X} (key : X -> list cell) (l : list X) : list X :=
  foldr (insert_sorted key) [] l.

(** [df.sort_values(by=by)] *)
Definition sort_values (df : Table) (by_ : list string) : result Table :=
  kcols ← mapM (getitem df) by_;
  Ok (df_take (sort_by (row_key kcols) (seq 0 (nrows df))) df).

(** *** Filling gaps *)

Fixpoint ffill_from {A} (last : option A) (l : list (option A)) : list (option A) :=
  match l with
  | [] => []
  | Some x :: l' => Some x :: ffill_from (Some x) l'
  | None :: l' => last :: ffill_from last l'
  end.

(** [series.fillna(method="ffill")] *)
Definition ffill {A} (l : list (option A)) : list (option A) := ffill_from None l.

(** [series.fillna(method="bfill")] *)
Fixpoint bfill {A} (l : list (option A)) : list (option A) :=
  match l with
  | [] => []
  | Some x :: l' => Some x :: bfill l'
  | None :: l' => let r := bfill l' in default None (head r) :: r
  end.

(** [df.apply(f)], column by column. *)
Definition apply_columns {A} (f : list (option A) -> list (option A))
  (df : DataFrame A) : DataFrame A :=
  mkDF (nrows df) ((fun c => (c.1, f c.2)) <$> columns df).

(** [df.apply(f, axis=1)], row by row.  On a frame without rows pandas
    hands back a copy of the frame instead of a series, and storing a frame
    of several columns under one label is a [ValueError]. *)
Definition apply_rows {A B} (f : nat -> result (option B)) (df : DataFrame A)
  : result (list (option B)) :=
  if decide (nrows df = 0%nat) then Err ValueError
  else mapM f (seq 0 (nrows df)).

(** [x.loc[c]] for the row [x] at position [i]. *)
Definition loc {A} (df : DataFrame A) (i : nat) (c : string) : result (option A) :=
  v ← getitem df c; Ok (at_row v i).

(** *** Grouping *)

Fixpoint lookup_pos {V} (p : nat) (l : list (nat * V)) : option V :=
  match l with
  | [] => None
  | (q, v) :: l' => if decide (q = p) then Some v else lookup_pos p l'
  end.

(** [df.groupby(by).apply(f)] for an [f] that returns a frame with the rows
    of its group: rows with a missing key belong to no group; the groups are
    taken in key order; the results are put back at the positions of their
    rows.  Without any group the result has no columns. *)
Definition groupby_apply {B} (df : Table) (by_ : list string)
  (f : Table -> result (DataFrame B)) : result (DataFrame B) :=
  kcols ← mapM (getitem df) by_;
  let keys := row_keys kcols (nrows df) in
  let gkeys := sort_by id (unique (filter (Forall is_Some) keys)) in
  parts ← mapM (fun g =>
             let ix := matches g keys in
             r ← f (df_take ix df);
             Ok (ix, r)) gkeys;
  match parts with
  | [] => Ok (mkDF 0 [])
  | (_, r0) :: _ =>
      Ok (mkDF (nrows df)
            ((fun c =>
                let placed := '(ix, r) ← parts;
                              zip ix (default [] (assoc c (columns r))) in
                (c, (fun p => default None (lookup_pos p placed))
                      <$> seq 0 (nrows df)))
               <$> names r0))
  end.

(** ** The driver, lines 68-148 *)

(** [fclib.dataset.retail.benchmark_settings] *)
Record settings := {
  NUM_ROUNDS : Z;
  TRAIN_START_WEEK : Z;
  TEST_END_WEEK_LIST : list Z;
  FIRST_WEEK_START : date
}.

Definition key_cols : list string := ["store"; "brand"; "week"].

Definition price_cols : list string :=
  ["price1"; "price2"; "price3"; "price4"; "price5"; "price6"; "price7";
   "price8"; "price9"; "price10"; "price11"].

Definition lags : list Z := [2; 3; 4].

(** The columns of the aux file of a round, as the specification gives
    them (the file itself is data). *)
Definition aux_cols : list string := key_cols ++ price_cols ++ ["deal"; "feat"].

(** [l[i]] for a position [i >= 0]. *)
Definition list_index {X} (l : list X) (i : Z) : result X :=
  if i <? 0 then Err IndexError
  else match l !! Z.to_nat i with
       | Some x => Ok x
       | None => Err IndexError
       end.

(** [df.sum(axis=1)]: the sum of the values present in each row. *)
Definition sum_rows (df : Table) : result (list cell) :=
  mapM (fun i =>
          xs ← mapM (fun c : string * list cell => cell_float (at_row c.2 i))
                  (columns df);
          Ok (Some (VFloat (Qsum (omap id xs)))))
       (seq 0 (nrows df)).

(** [a / b] on floats.  A missing operand gives the missing value, and so
    does 0 / 0, as in float64.  A non-zero number over zero is an infinity
    in float64, which the numbers of the model do not include: the model
    records it as missing as well, and the statements on [price_ratio] leave
    that case out. *)
Definition truediv (a b : cell) : result cell :=
  match a, b with
  | Some x, Some y =>
      p ← to_float x; q ← to_float y;
      Ok (if Qeq_bool q 0 then None else Some (VFloat (p / q)%Q))
  | _, _ => Ok None
  end.

Definition series_div (a b : list cell) : result (list cell) :=
  mapM (fun p : cell * cell => truediv p.1 p.2) (zip a b).

(** An attribute or method of the date in a cell. *)
Definition on_date (f : date -> result value) (x : cell) : result cell :=
  match x with
  | Some (VDate dt) => Some <$> f dt
  | _ => Err AttributeError
  end.

(** The largest float whose exponential is a float, 0x1.62e42fefa39efp+9
    (about 709.78): above it [math.exp] raises an [OverflowError]. *)
Definition exp_max : Q := 6243314768165359 # 8796093022208.

Section driver.

(** [round(math.exp(x))] on the floats up to [exp_max] is taken as given. *)
Variable round_exp : Q -> Z.
Variable bs : settings.

(** Lines 78-79.  [math.exp] overflows above [exp_max]; [round] rejects the
    missing value. *)
Definition calculate_move (train_df : Table) : result Table :=
  logmove ← getitem train_df "logmove";
  move ← series_apply (fun x : cell =>
            match x with
            | None => Err ValueError
            | Some v =>
                q ← to_float v;
                if Qle_bool q exp_max then Ok (Some (VInt (round_exp q)))
                else Err OverflowError
            end) logmove;
  let train_df := setitem train_df "move" move in
  select train_df ["store"; "brand"; "week"; "profit"; "move"; "logmove"].

(** Lines 85-91: fill missing datetime gaps. *)
Definition fill_gaps (all_df : Table) (first_week last_week : Z) : result Table :=
  stores ← getitem all_df "store";
  let store_list := unique stores in
  brands ← getitem all_df "brand";
  let brand_list := unique brands in
  let week_list := seqZ first_week (last_week + 1 - first_week) in
  let item_list : list (cell * cell * Z) :=
    s ← store_list; b ← brand_list; w ← week_list; [(s, b, w)] in
  let item_df :=
    mkDF (length item_list)
      [("store", (fun x => x.1.1) <$> item_list);
       ("brand", (fun x => x.1.2) <$> item_list);
       ("week", (fun x => Some (VInt x.2)) <$> item_list)] in
  merge item_df all_df how_left key_cols.

(** Lines 96-111: price and price ratio. *)
Definition price_features (all_df : Table) : result Table :=
  price ← apply_rows (fun i =>
             brand ← loc all_df i "brand";
             b ← py_int brand;
             loc all_df i ("price" +:+ str b)) all_df;
  let all_df := setitem all_df "price" price in
  prices ← select all_df price_cols;
  sums ← sum_rows prices;
  avg_price ← series_apply (fun x : cell =>
                 truediv x (Some (VInt (Z.of_nat (length price_cols))))) sums;
  let all_df := setitem all_df "avg_price" avg_price in
  p ← getitem all_df "price";
  a ← getitem all_df "avg_price";
  price_ratio ← series_div p a;
  Ok (setitem all_df "price_ratio" price_ratio).

(** Lines 114-121: date time related features. *)
Definition calendar_features (all_df : Table) : result Table :=
  week ← getitem all_df "week";
  week_start ← series_apply (fun x : cell =>
                  match x with
                  | Some (VInt w) =>
                      dt ← add_days (FIRST_WEEK_START bs) ((w - 1) * 7);
                      Ok (Some (VDate dt))
                  | None => Err ValueError
                  | Some _ => Err TypeError
                  end) week;
  let all_df := setitem all_df "week_start" week_start in
  ws ← getitem all_df "week_start";
  wom ← series_apply (on_date (fun x => VInt <$> week_of_month x)) ws;
  let all_df := setitem all_df "week_of_month" wom in
  ws ← getitem all_df "week_start";
  y ← series_apply (on_date (fun x => Ok (VInt (year x)))) ws;
  let all_df := setitem all_df "year" y in
  ws ← getitem all_df "week_start";
  m ← series_apply (on_date (fun x => Ok (VInt (month x)))) ws;
  let all_df := setitem all_df "month" m in
  ws ← getitem all_df "week_start";
  d ← series_apply (on_date (fun x => Ok (VInt (day x)))) ws;
  Ok (setitem all_df "day" d).

(** Lines 129-131: fill the NA sales. *)
Definition fill_sales (all_df : Table) : result Table :=
  sel ← select all_df ["store"; "brand"; "move"];
  Ok (apply_columns (fun x => bfill (ffill x)) sel).

(** A feature generator of the script applied to the [move] column of a
    group. *)
Definition on_move (f : ref -> M ref) (x : Table) : result (DataFrame Q) :=
  m ← select x ["move"];
  q ← as_float m;
  call f q.

(** Lines 126-134: lag features and moving average features. *)
Definition lag_features (all_df : Table) : result Table :=
  all_df ← sort_values all_df ["store"; "brand"; "week"];
  filled_sales ← fill_sales all_df;
  lagged_fea ← groupby_apply filled_sales ["store"; "brand"]
                  (on_move (fun df => lagged_features df lags));
  moving_avg ← groupby_apply filled_sales ["store"; "brand"]
                  (on_move (fun df => moving_averages df 2 (Some 10)));
  df_concat_columns [all_df; of_float lagged_fea; of_float moving_avg].

(** One pass of the loop: the table written for [submission_round]. *)
Definition feature_round (train_df aux_df : Table) (submission_round : Z)
  : result Table :=
  train_df ← calculate_move train_df;
  all_df ← merge train_df aux_df how_right key_cols;
  last_week ← list_index (TEST_END_WEEK_LIST bs) (submission_round - 1);
  all_df ← fill_gaps all_df (TRAIN_START_WEEK bs) last_week;
  all_df ← price_features all_df;
  all_df ← calendar_features all_df;
  lag_features all_df.

(** The loop over the rounds: the files read are given by [read_csv], the
    result lists the files written. *)
Definition main (read_csv : string -> result Table) : result (list (string * Table)) :=
  mapM (fun submission_round =>
          train_df ← read_csv ("train/train_round_" +:+ str submission_round +:+ ".csv");
          aux_df ← read_csv ("train/aux_round_" +:+ str submission_round +:+ ".csv");
          all_df ← feature_round train_df aux_df submission_round;
          Ok ("feature_engineering/feature_engineering_round_"
                +:+ str submission_round +:+ ".csv", all_df))
       (seqZ 1 (NUM_ROUNDS bs)).

End driver.

(** The grid of a round, [itertools.product(store_list, brand_list,
    week_list)], as the statements below name it. *)
Definition grid_cells (stores brands : list cell) (first_week last_week : Z)
  : list (cell * cell * Z) :=
  s ← unique stores; b ← unique brands;
  w ← seqZ first_week (last_week + 1 - first_week); [(s, b, w)].

Definition cell_key (x : cell * cell * Z) : list cell :=
  [x.1.1; x.1.2; Some (VInt x.2)].

(** ** Small tables used in the examples *)

Definition ex_sales : DataFrame Q :=
  mkDF 4 [("move", [Some 10%Q; None; Some 30%Q; Some 50%Q]);
          ("price", [Some (1 # 2)%Q; Some 2%Q; Some 3%Q; None])].

Definition ex_heap : heap := {[the_df := ex_sales]}.

Definition ex_one : DataFrame Q := mkDF 1 [("move", [Some 1%Q])].

(** A table with a column and no row. *)
Definition ex_no_rows : DataFrame Q := mkDF 0 [("move", [])].

Definition table_of_rows (cols : list string) (rows : list (list cell)) : Table :=
  mkDF (length rows) (imap (fun j c => (c, (fun r => at_row r j) <$> rows)) cols).

Definition int_cell (n : Z) : cell := Some (VInt n).
Definition float_cell (q : Q) : cell := Some (VFloat q).

(** Two stores, one brand, data at week 2 only. *)
Definition ex_week2 : Table :=
  table_of_rows ["store"; "brand"; "week"; "profit"; "move"; "logmove"; "price1"]
    [[int_cell 1; int_cell 1; int_cell 2; float_cell (1 # 2); int_cell 20;
      float_cell 3; float_cell (3 # 2)];
     [int_cell 2; int_cell 1; int_cell 2; float_cell (1 # 4); int_cell 7;
      float_cell 2; float_cell (5 # 2)]].

(** [round(math.exp(x))] at the logmoves of the examples. *)
Definition ex_round_exp (x : Q) : Z :=
  if Qeq_bool x 0 then 1
  else if Qeq_bool x 1 then 3
  else if Qeq_bool x 2 then 7
  else if Qeq_bool x 3 then 20
  else 0.

(** An aux record with the prices 1, 2, ..., 11. *)
Definition aux_row (s b w : Z) : list cell :=
  [int_cell s; int_cell b; int_cell w]
  ++ ((fun k => float_cell (inject_Z k)) <$> seqZ 1 11)
  ++ [int_cell 0; int_cell 0].

(** Stores 1 and 2, brand 1: the aux file lacks (store 2, week 3), the
    sales file has week 2 only. *)
Definition ex_aux : Table :=
  table_of_rows aux_cols
    [aux_row 2 1 1; aux_row 2 1 2; aux_row 1 1 1; aux_row 1 1 2; aux_row 1 1 3].

Definition ex_train : Table :=
  table_of_rows ["store"; "brand"; "week"; "logmove"; "constant"; "profit"]
    [[int_cell 1; int_cell 1; int_cell 2; float_cell 3; int_cell 1; float_cell (1 # 2)];
     [int_cell 2; int_cell 1; int_cell 2; float_cell 2; int_cell 1; float_cell (1 # 4)]].

Definition ex_bs : settings :=
  {| NUM_ROUNDS := 1; TRAIN_START_WEEK := 1; TEST_END_WEEK_LIST := [3];
     FIRST_WEEK_START := mkDate 1989 9 14 |}.

(** The expanded table of the example round. *)
Definition ex_grid : result Table :=
  train_df ← calculate_move ex_round_exp ex_train;
  all_df ← merge train_df ex_aux how_right key_cols;
  fill_gaps all_df 1 3.

Definition table_of (r : result Table) : Table :=
  match r with
  | Ok t => t
  | Err _ => mkDF 0 []
  end.

Definition ex_grid_table : Table := Eval vm_compute in table_of ex_grid.

Definition ex_priced : Table :=
  Eval vm_compute in table_of (price_features ex_grid_table).

(** The table written for the example round. *)
Definition ex_output : Table :=
  Eval vm_compute in table_of (feature_round ex_round_exp ex_bs ex_train ex_aux 1).

(** The example grid after line 126, sorted by store, brand and week. *)
Definition ex_sorted : Table :=
  Eval vm_compute in
    table_of (g ← price_features ex_grid_table;
              c ← calendar_features ex_bs g;
              sort_values c ["store"; "brand"; "week"]).

(** ** Notions used in the statements about the driver *)

(** The labels of [pd.merge(l, r, on=on)], from the labels of [l] and [r]. *)
Definition merge_names (on ln rn : list string) : list string :=
  let shared c := bool_decide ((c ∉ on) /\ (c ∈ ln) /\ (c ∈ rn)) in
  ((fun c => if bool_decide (c ∈ on) then c
             else if shared c then c +:+ "_x" else c) <$> ln)
  ++ ((fun c => if shared c then c +:+ "_y" else c)
        <$> filter (fun c => c ∉ on) rn).

(** The store and brand columns hold a value in every row. *)
Definition keyed (t : Table) : Prop :=
  exists s b,
    getitem t "store" = Ok s /\ getitem t "brand" = Ok b /\
    length s = nrows t /\ length b = nrows t /\
    Forall is_Some s /\ Forall is_Some b.

(** The columns of the sales table after line 79. *)
Definition sales_cols : list string :=
  ["store"; "brand"; "week"; "profit"; "move"; "logmove"].

(** The columns of the table written for a round. *)
Definition output_cols : list string :=
  sales_cols ++ price_cols
  ++ ["deal"; "feat"; "price"; "avg_price"; "price_ratio"; "week_start";
      "week_of_month"; "year"; "month"; "day";
      "move_lag2"; "move_lag3"; "move_lag4"; "move_mean10"].

(** The columns that the specification lists for the output. *)
Definition listed_cols : list string :=
  sales_cols ++ price_cols
  ++ ["deal"; "feat"; "price"; "avg_price"; "price_ratio"; "week_start";
      "week_of_month"; "move_lag2"; "move_lag3"; "move_lag4"; "move_mean10"].

(** Each element's key is at most the key of the next element. *)
Definition ordered_by {X} (key : X -> list cell) (l : list X) : Prop :=
  forall i a b, l !! i = Some a -> l !! S i = Some b ->
    key_leb (key a) (key b) = true.


(** The files of the one round of the example. *)
Definition ex_read_csv (path : string) : result Table :=
  if decide (path = "train/train_round_1.csv") then Ok ex_train
  else if decide (path = "train/aux_round_1.csv") then Ok ex_aux
  else Err NameError.

(** * Properties *)

Section week_of_month_props.

Lemma Qceiling_div7 (a : Z) : Qceiling (inject_Z a / 7) = (a + 6) / 7.
Proof.
  unfold Qceiling, Qfloor, Qdiv, Qinv, Qmult, Qopp, inject_Z. simpl.
  Z.div_mod_to_equations. lia.
Qed.

Lemma weekday_range (dt : date) : 0 <= weekday dt <= 6.
Proof. unfold weekday. pose proof (Z.mod_pos_bound (toordinal dt + 6) 7). lia. Qed.

Lemma days_in_month_le_31 (y m : Z) : days_in_month y m <= 31.
Proof.
  unfold days_in_month. destruct ((m =? 2) && is_leap y); [lia|].
  unfold DAYS_IN_MONTH.
  destruct m as [|p|p]; try lia.
  do 4 (destruct p as [p|p|]; try lia).
Qed.

Lemma valid_date_fields (dt : date) :
  valid_date dt ->
  1 <= year dt <= 9999 /\ 1 <= month dt <= 12 /\ 1 <= day dt <= 31.
Proof.
  unfold valid_date, valid_fields, MINYEAR, MAXYEAR. intros H.
  pose proof (days_in_month_le_31 (year dt) (month dt)).
  repeat (apply andb_prop in H; destruct H as [H ?]). lia.
Qed.

Lemma first_day_valid (dt : date) :
  valid_date dt -> replace_day dt 1 = Ok (mkDate (year dt) (month dt) 1).
Proof.
  intros H. unfold replace_day, new_date.
  assert (valid_fields (year dt) (month dt) 1 = true) as ->; [|done].
  unfold valid_date, valid_fields in *.
  repeat (apply andb_prop in H; destruct H as [H ?]).
  repeat (apply andb_true_intro; split); try done.
  unfold days_in_month. destruct ((month dt =? 2) && is_leap (year dt)); [lia|].
  unfold DAYS_IN_MONTH.
  assert (1 <= month dt <= 12) as Hm by lia.
  destruct (month dt) as [|p|p]; try lia.
  do 4 (destruct p as [p|p|]; try lia).
Qed.

Lemma week_of_month_eq (dt : date) :
  valid_date dt ->
  week_of_month dt =
    Ok ((day dt + weekday (mkDate (year dt) (month dt) 1) + 6) / 7).
Proof.
  intros H. unfold week_of_month. rewrite first_day_valid by done. simpl.
  by rewrite Qceiling_div7.
Qed.

(** C5: on every valid date [week_of_month] returns a value, that value lies
    between 1 and 6, and within one month it does not decrease as the day
    advances. *)
Theorem week_of_month_range_mono :
  (forall dt, valid_date dt ->
     exists w, week_of_month dt = Ok w /\ 1 <= w <= 6) /\
  (forall d1 d2 w1 w2,
     valid_date d1 -> valid_date d2 ->
     year d1 = year d2 -> month d1 = month d2 -> day d1 <= day d2 ->
     week_of_month d1 = Ok w1 -> week_of_month d2 = Ok w2 ->
     w1 <= w2).
Proof.
  split.
  - intros dt H. eexists. split; [by apply week_of_month_eq|].
    pose proof (valid_date_fields dt H) as (_ & _ & Hd).
    pose proof (weekday_range (mkDate (year dt) (month dt) 1)).
    Z.div_mod_to_equations. lia.
  - intros d1 d2 w1 w2 H1 H2 Hy Hm Hd E1 E2.
    rewrite week_of_month_eq in E1 by done.
    rewrite week_of_month_eq in E2 by done.
    injection E1 as <-. injection E2 as <-. rewrite Hy, Hm.
    apply Z.div_le_mono; lia.
Qed.

Lemma week_of_month_range_mono_witness :
  valid_date (mkDate 2023 1 2) /\ valid_date (mkDate 2023 1 30) /\
  week_of_month (mkDate 2023 1 2) = Ok 2 /\
  week_of_month (mkDate 2023 1 30) = Ok 6 /\ 2 <= 6.
Proof.
  assert (valid_date (mkDate 2023 1 2)) as V1 by reflexivity.
  assert (valid_date (mkDate 2023 1 30)) as V2 by reflexivity.
  assert (week_of_month (mkDate 2023 1 2) = Ok 2) as E1 by reflexivity.
  assert (week_of_month (mkDate 2023 1 30) = Ok 6) as E2 by reflexivity.
  split; [exact V1|]. split; [exact V2|].
  split; [exact E1|]. split; [exact E2|].
  exact (proj2 week_of_month_range_mono _ _ 2 6 V1 V2 eq_refl eq_refl
           ltac:(simpl; lia) E1 E2).
Defined.

End week_of_month_props.

Section utility_props.

Implicit Types (h : heap) (d : DataFrame Q) (df r : ref).

Lemma bind_run {A B} (m : M A) (f : A -> M B) h :
  (m ≫= f) h = match m h with Ok (a, h') => f a h' | Err e => Err e end.
Proof. reflexivity. Qed.

Lemma fresh_lookup h : h !! fresh (dom h) = None.
Proof. apply not_elem_of_dom, is_fresh. Qed.

Lemma fresh_ne h r d : h !! r = Some d -> fresh (dom h) <> r.
Proof. intros H E. rewrite <- E, fresh_lookup in H. done. Qed.

Lemma read_frame_run h r d : h !! r = Some d -> read_frame r h = Ok (d, h).
Proof. intros H. unfold read_frame. by rewrite H. Qed.

Lemma fits_intp_spec k : fits_intp k = true <-> - 2 ^ 63 <= k < 2 ^ 63.
Proof. unfold fits_intp. rewrite andb_true_iff, Z.leb_le, Z.ltb_lt. tauto. Qed.

Lemma shift_fits {A} k (d : DataFrame A) :
  - 2 ^ 63 <= k < 2 ^ 63 -> shift_overflows k d = false.
Proof.
  intros H. unfold shift_overflows. apply fits_intp_spec in H. rewrite H.
  apply andb_false_r.
Qed.

Lemma has_cells_spec {A} (d : DataFrame A) :
  has_cells d = true <-> nrows d <> 0%nat /\ columns d <> [].
Proof.
  unfold has_cells. destruct (nrows d), (columns d); split; try done; intros [??]; done.
Qed.

Lemma shift_overflows_spec {A} k (d : DataFrame A) :
  shift_overflows k d = true
  <-> (nrows d <> 0%nat /\ columns d <> []) /\ ~ (- 2 ^ 63 <= k < 2 ^ 63).
Proof.
  unfold shift_overflows. rewrite andb_true_iff, has_cells_spec, negb_true_iff.
  rewrite <- fits_intp_spec. destruct (fits_intp k); split; intros [? ?]; split; try done.
Qed.

Lemma shift_all_fit {A} (lags : list Z) (d : DataFrame A) :
  Forall (fun k => - 2 ^ 63 <= k < 2 ^ 63) lags ->
  Forall (fun k => shift_overflows k d = false) lags.
Proof. intros H. eapply Forall_impl; [exact H|]. intros k. apply shift_fits. Qed.

Lemma shift_no_cells {A} (lags : list Z) (d : DataFrame A) :
  has_cells d = false -> Forall (fun k => shift_overflows k d = false) lags.
Proof.
  intros H. apply Forall_forall. intros k _. unfold shift_overflows. by rewrite H.
Qed.

Lemma pd_shift_run h df d k :
  h !! df = Some d -> shift_overflows k d = false ->
  pd_shift df k h = Ok (fresh (dom h), <[fresh (dom h) := df_shift k d]> h).
Proof.
  intros H O. unfold pd_shift. rewrite bind_run, (read_frame_run _ _ _ H).
  cbv beta iota. by rewrite O.
Qed.

Lemma pd_shift_overflow h df d k :
  h !! df = Some d -> shift_overflows k d = true ->
  pd_shift df k h = Err OverflowError.
Proof.
  intros H O. unfold pd_shift. rewrite bind_run, (read_frame_run _ _ _ H).
  cbv beta iota. by rewrite O.
Qed.

Lemma zip_relabel {A} (f : string -> string) (l : list (string * list (option A))) :
  zip (f <$> l.*1) l.*2 = (fun c => (f c.1, c.2)) <$> l.
Proof. induction l as [|[c v] l IH]; [done|]. simpl. f_equal. exact IH. Qed.

Lemma df_set_columns_relabel {A} (f : string -> string) (d : DataFrame A) :
  df_set_columns (f <$> names d) d = Ok (df_rename f d).
Proof.
  unfold df_set_columns, names. rewrite !length_fmap.
  rewrite decide_True by done. by rewrite zip_relabel.
Qed.

Lemma relabel_then {B} h r d (f : string -> string) (k : unit -> M B) :
  h !! r = Some d ->
  (cols ← get_columns r; x ← set_columns r (f <$> cols); k x) h
  = k tt (<[r := df_rename f d]> h).
Proof.
  intros H. unfold get_columns, set_columns.
  rewrite !bind_run, (read_frame_run _ _ _ H). simpl.
  rewrite !bind_run, (read_frame_run _ _ _ H). simpl.
  rewrite bind_run. unfold lift. by rewrite df_set_columns_relabel.
Qed.

Lemma lag_loop_run df d lags : forall h (acc : list ref),
  h !! df = Some d -> Forall (fun k => shift_overflows k d = false) lags ->
  exists rs h',
    for_each lags (fun df_list lag =>
      df_shifted ← pd_shift df lag;
      cols ← get_columns df_shifted;
      _ ← set_columns df_shifted ((fun x => x +:+ "_lag" +:+ str lag) <$> cols);
      mret (df_list ++ [df_shifted])) acc h = Ok (acc ++ rs, h') /\
    Forall2 (fun r k => h !! r = None /\ h' !! r = Some (lag_frame k d)) rs lags /\
    (forall r0, is_Some (h !! r0) -> h' !! r0 = h !! r0).
Proof.
  induction lags as [|k lags IH]; intros h acc Hdf Hfit.
  - exists [], h. rewrite app_nil_r. by repeat split.
  - apply Forall_cons in Hfit as [Hk Hfit].
    cbn [for_each]. rewrite bind_run, bind_run, (pd_shift_run _ _ _ _ Hdf Hk).
    set (r := fresh (dom h)).
    rewrite (relabel_then _ r (df_shift k d)) by apply lookup_insert_eq.
    rewrite insert_insert_eq. fold (lag_frame k d).
    unfold mret at 1, M_ret; cbv beta iota.
    assert (r <> df) as Hne by (by apply (fresh_ne _ _ d)).
    destruct (IH (<[r:=lag_frame k d]> h) (acc ++ [r])) as (rs & h' & E & F & P).
    { by rewrite lookup_insert_ne. }
    { exact Hfit. }
    exists (r :: rs), h'. split; [rewrite <- app_assoc in E; exact E|]. split.
    + constructor.
      * split; [apply fresh_lookup|].
        rewrite P by (rewrite lookup_insert_eq; eauto). apply lookup_insert_eq.
      * eapply Forall2_impl; [exact F|]. intros r1 k1 [N S]. split; [|done].
        apply lookup_insert_None in N. tauto.
    + intros r0 [x Hx]. assert (r <> r0) by (by apply (fresh_ne _ _ x)).
      rewrite P by (rewrite lookup_insert_ne by done; eauto).
      by rewrite lookup_insert_ne.
Qed.

Lemma read_frames_run h rs ds :
  Forall2 (fun r x => h !! r = Some x) rs ds -> read_frames rs h = Ok (ds, h).
Proof.
  induction 1 as [|r x rs ds Hr _ IH]; [done|].
  cbn [read_frames]. rewrite bind_run, (read_frame_run _ _ _ Hr).
  rewrite bind_run, IH. done.
Qed.

(** The loop stops at the first lag that does not fit. *)
Lemma lag_loop_overflow df d lags : forall h (acc : list ref),
  h !! df = Some d -> Exists (fun k => shift_overflows k d = true) lags ->
  for_each lags (fun df_list lag =>
    df_shifted ← pd_shift df lag;
    cols ← get_columns df_shifted;
    _ ← set_columns df_shifted ((fun x => x +:+ "_lag" +:+ str lag) <$> cols);
    mret (df_list ++ [df_shifted])) acc h = Err OverflowError.
Proof.
  induction lags as [|k lags IH]; intros h acc Hdf Hex.
  - by apply Exists_nil in Hex.
  - cbn [for_each]. rewrite bind_run, bind_run.
    destruct (shift_overflows k d) eqn:Hk.
    + by rewrite (pd_shift_overflow _ _ _ _ Hdf Hk).
    + apply Exists_cons in Hex as [Hex|Hex]; [congruence|].
      rewrite (pd_shift_run _ _ _ _ Hdf Hk).
      set (r := fresh (dom h)).
      rewrite (relabel_then _ r (df_shift k d)) by apply lookup_insert_eq.
      unfold mret at 1, M_ret; cbv beta iota.
      assert (r <> df) as Hne by (by apply (fresh_ne _ _ d)).
      apply IH; [|exact Hex]. by rewrite insert_insert_eq, lookup_insert_ne.
Qed.

Lemma lagged_features_overflow h df d lags :
  h !! df = Some d -> Exists (fun k => shift_overflows k d = true) lags ->
  lagged_features df lags h = Err OverflowError.
Proof.
  intros Hdf Hex. unfold lagged_features.
  by rewrite bind_run, (lag_loop_overflow df d lags h [] Hdf Hex).
Qed.

(** What [lagged_features] does in any store that holds its argument. *)
Lemma lagged_features_run h df d lags :
  h !! df = Some d -> Forall (fun k => shift_overflows k d = false) lags ->
  match df_concat_columns ((fun k => lag_frame k d) <$> lags) with
  | Ok fea => yields (lagged_features df lags) h fea
  | Err e => lagged_features df lags h = Err e
  end.
Proof.
  intros Hdf Hfit. unfold lagged_features.
  destruct (lag_loop_run df d lags h [] Hdf Hfit) as (rs & h' & E & F & P).
  assert (read_frames rs h' = Ok ((fun k => lag_frame k d) <$> lags, h')) as R.
  { apply read_frames_run. apply Forall2_fmap_r.
    eapply Forall2_impl; [exact F|]. by intros ?? [_ ?]. }
  destruct (df_concat_columns _) as [fea|e] eqn:C.
  - exists (fresh (dom h')), (<[fresh (dom h'):=fea]> h').
    split; [|split; [|split]].
    + rewrite bind_run, E. cbn [app]. cbv beta iota. unfold pd_concat_axis1.
      rewrite !bind_run, R. cbv beta iota. unfold lift. rewrite C. done.
    + destruct (h !! fresh (dom h')) eqn:X; [|done].
      rewrite <- P in X by eauto. by rewrite fresh_lookup in X.
    + apply lookup_insert_eq.
    + intros r0 Hr0. rewrite lookup_insert_ne; [by apply P|].
      destruct Hr0 as [x Hx]. rewrite <- P in Hx by eauto.
      by apply (fresh_ne _ _ x).
  - rewrite bind_run, E. cbn [app]. cbv beta iota. unfold pd_concat_axis1.
    rewrite !bind_run, R. cbv beta iota. unfold lift. rewrite C. done.
Qed.

Lemma moving_averages_eval h df d s w :
  h !! df = Some d -> shift_overflows s d = false ->
  let ws := default (Z.of_nat (nrows d)) w in
  let h1 := <[fresh (dom h) := df_shift s d]> h in
  moving_averages df s w h =
    match df_rolling_mean 1 ws (df_shift s d) with
    | Ok m =>
        Ok (fresh (dom h1),
            <[fresh (dom h1) := df_rename (fun x => x +:+ "_mean" +:+ str ws) m]> h1)
    | Err e => Err e
    end.
Proof.
  intros Hdf Hfit ws h1. unfold moving_averages. rewrite bind_run.
  assert (match w with None => shape0 df | Some w0 => mret w0 end h
          = Ok (ws, h)) as ->.
  { destruct w; [done|]. unfold shape0.
    by rewrite bind_run, (read_frame_run _ _ _ Hdf). }
  cbv beta iota.
  rewrite bind_run, (pd_shift_run _ _ _ _ Hdf Hfit). cbv beta iota. fold h1.
  rewrite bind_run. unfold pd_rolling_mean.
  rewrite !bind_run, (read_frame_run h1 _ (df_shift s d)) by apply lookup_insert_eq.
  cbv beta iota. rewrite bind_run. unfold lift.
  destruct (df_rolling_mean 1 ws (df_shift s d)) as [m|e]; [|done].
  unfold new_frame. cbv beta iota zeta.
  rewrite (relabel_then _ _ m) by apply lookup_insert_eq.
  by rewrite insert_insert_eq.
Qed.

Lemma moving_averages_overflow h df d s w :
  h !! df = Some d -> shift_overflows s d = true ->
  moving_averages df s w h = Err OverflowError.
Proof.
  intros Hdf Hov. unfold moving_averages. rewrite bind_run.
  assert (match w with None => shape0 df | Some w0 => mret w0 end h
          = Ok (default (Z.of_nat (nrows d)) w, h)) as ->.
  { destruct w; [done|]. unfold shape0.
    by rewrite bind_run, (read_frame_run _ _ _ Hdf). }
  cbv beta iota. by rewrite bind_run, (pd_shift_overflow _ _ _ _ Hdf Hov).
Qed.

(** What [moving_averages] does in any store that holds its argument. *)
Lemma moving_averages_run h df d s w :
  h !! df = Some d -> shift_overflows s d = false ->
  match df_rolling_mean 1 (default (Z.of_nat (nrows d)) w) (df_shift s d) with
  | Ok m =>
      yields (moving_averages df s w) h
        (df_rename (fun x => x +:+ "_mean" +:+ str (default (Z.of_nat (nrows d)) w)) m)
  | Err e => moving_averages df s w h = Err e
  end.
Proof.
  intros Hdf Hfit. pose proof (moving_averages_eval h df d s w Hdf Hfit) as E.
  cbv zeta in E.
  destruct (df_rolling_mean _ _ _) as [m|e]; [|done].
  set (r1 := fresh (dom h)) in *. set (h1 := <[r1:=df_shift s d]> h) in *.
  set (r2 := fresh (dom h1)) in *.
  assert (h1 !! r2 = None) as N2 by apply fresh_lookup.
  apply lookup_insert_None in N2 as [N2 Hne2].
  eexists r2, _. split; [exact E|]. split; [done|].
  split; [apply lookup_insert_eq|].
  intros r0 [x Hx].
  assert (r2 <> r0).
  { intros E2. assert (h !! r0 = None) by (rewrite <- E2; exact N2). congruence. }
  assert (r1 <> r0) by (by apply (fresh_ne _ _ x)).
  unfold h1. by rewrite !lookup_insert_ne.
Qed.

(** *** Shifting and rolling on one column *)

Lemma shift_values_length {A} k (l : list (option A)) :
  length (shift_values k l) = length l.
Proof.
  unfold shift_values. destruct (0 <=? k).
  - rewrite length_take, length_app, length_replicate. lia.
  - rewrite length_app, length_drop, length_replicate. lia.
Qed.

Lemma shift_values_0 {A} (l : list (option A)) : shift_values 0 l = l.
Proof. unfold shift_values. simpl. apply firstn_all. Qed.

Lemma shift_values_lookup {A} k (l : list (option A)) i :
  0 <= k -> (i < length l)%nat ->
  shift_values k l !! i
  = if decide (i < Z.to_nat k)%nat then Some None else l !! (i - Z.to_nat k)%nat.
Proof.
  intros Hk Hi. unfold shift_values.
  destruct (0 <=? k) eqn:E; [|lia].
  rewrite lookup_take_lt by done.
  case_decide.
  - rewrite lookup_app_l by (rewrite length_replicate; lia).
    by apply lookup_replicate_2.
  - rewrite lookup_app_r by (rewrite length_replicate; lia).
    by rewrite length_replicate.
Qed.

Lemma Qmean_one (q : Q) : (Qsum [q] / inject_Z (Z.of_nat 1))%Q = q.
Proof.
  destruct q as [n p]. unfold Qsum, Qdiv, Qmult, Qplus, Qinv, inject_Z. simpl.
  f_equal; [lia|]. by rewrite !Pos.mul_1_r.
Qed.

Lemma mean_obs_one (x : option Q) : mean_obs 1 [x] = x.
Proof.
  destruct x as [q|]; [|done].
  unfold mean_obs. simpl omap. rewrite decide_True by (simpl; lia).
  simpl length. by rewrite Qmean_one.
Qed.

Lemma mean_obs_None (xs : list (option Q)) :
  mean_obs 1 xs = None <-> Forall (fun x => x = None) xs.
Proof.
  unfold mean_obs. split.
  - case_decide as H; [done|]. intros _.
    induction xs as [|[q|] xs IH]; [done| |].
    + simpl in H. lia.
    + constructor; [done|]. by apply IH.
  - intros F. assert (omap id xs = []) as ->.
    { induction F as [|x xs -> _ IH]; [done|]. simpl. exact IH. }
    by rewrite decide_False by (simpl; lia).
Qed.

Lemma window_at_one {A} (l : list A) i x :
  l !! i = Some x -> window_at 1 i l = [x].
Proof.
  intros H. unfold window_at. replace (S i - 1)%nat with i by lia.
  rewrite (take_S_r _ _ _ H), drop_app_length'; [done|].
  rewrite length_take. apply lookup_lt_Some in H. lia.
Qed.

Lemma window_at_all {A} (l : list A) w i :
  (i < w)%nat -> window_at w i l = take (S i) l.
Proof. intros H. unfold window_at. by replace (S i - w)%nat with 0%nat by lia. Qed.

Lemma rolling_mean_values_one (l : list (option Q)) :
  rolling_mean_values 1 1 l = l.
Proof.
  unfold rolling_mean_values. apply list_eq. intros i.
  rewrite list_lookup_fmap. destruct (l !! i) as [x|] eqn:E.
  - rewrite lookup_seq_lt by (by eapply lookup_lt_Some). simpl.
    by rewrite (window_at_one _ _ _ E), mean_obs_one.
  - rewrite lookup_seq_ge; [done|]. by apply lookup_ge_None.
Qed.

Lemma rolling_mean_values_cumulative (l : list (option Q)) w :
  (length l <= w)%nat ->
  rolling_mean_values w 1 l = (fun i => mean_obs 1 (take (S i) l)) <$> seq 0 (length l).
Proof.
  intros H. unfold rolling_mean_values. apply list_fmap_ext.
  intros i j Hj. apply lookup_seq in Hj as [-> ?].
  rewrite window_at_all; [done|lia].
Qed.

(** *** Concatenating the frames of the lags *)

Lemma max_list_const (n : nat) (l : list nat) :
  l <> [] -> Forall (fun x => x = n) l -> max_list l = n.
Proof.
  intros Hl F. destruct F as [|x l -> F]; [done|]. clear Hl.
  induction F as [|y l -> _ IH]; simpl in *; lia.
Qed.

Lemma pad_values_full {A} n (l : list (option A)) :
  length l = n -> pad_values n l = l.
Proof. intros <-. unfold pad_values. by rewrite Nat.sub_diag, app_nil_r. Qed.

Lemma lag_frame_wf k d : wf d -> wf (lag_frame k d).
Proof.
  unfold wf, lag_frame, df_rename, df_shift. simpl. intros F.
  rewrite !Forall_fmap. eapply Forall_impl; [exact F|].
  intros [c v] Hc. simpl in *. by rewrite shift_values_length.
Qed.

Lemma concat_wf_same {A} n (ds : list (DataFrame A)) :
  ds <> [] -> Forall (fun x => nrows x = n /\ wf x) ds ->
  df_concat_columns ds = Ok (mkDF n (ds ≫= columns)).
Proof.
  intros Hne F. unfold df_concat_columns. destruct ds as [|d0 ds0]; [done|].
  set (ds := d0 :: ds0) in *.
  rewrite (max_list_const n).
  - do 2 f_equal. clear Hne. induction F as [|x l [Hn Hw] _ IH]; [done|].
    cbn [mbind list_bind]. f_equal; [|exact IH].
    clear IH. unfold wf in Hw. rewrite Hn in Hw.
    induction Hw as [|[c v] cs Hc _ IHc]; [done|].
    cbn [fmap list_fmap]. f_equal; [|exact IHc].
    simpl in *. by rewrite pad_values_full.
  - done.
  - rewrite Forall_fmap. eapply Forall_impl; [exact F|]. by intros ? [? _].
Qed.

Lemma concat_nrows {A} n (ds : list (DataFrame A)) fea :
  ds <> [] -> Forall (fun x => nrows x = n) ds ->
  df_concat_columns ds = Ok fea -> nrows fea = n.
Proof.
  intros Hne F. unfold df_concat_columns. destruct ds as [|d0 ds0]; [done|].
  intros [= <-]. simpl. apply (max_list_const n (nrows d0 :: (nrows <$> ds0))); [done|].
  change (Forall (fun x => x = n) (nrows <$> d0 :: ds0)). by rewrite Forall_fmap.
Qed.

Lemma lag_frames_concat d lags :
  wf d -> lags <> [] ->
  df_concat_columns ((fun k => lag_frame k d) <$> lags)
  = Ok (mkDF (nrows d) (lags ≫= fun k => columns (lag_frame k d))).
Proof.
  intros Hw Hne. rewrite (concat_wf_same (nrows d)).
  - do 2 f_equal. clear Hne. induction lags as [|k lags IH]; [done|].
    cbn [fmap list_fmap mbind list_bind]. f_equal. exact IH.
  - by destruct lags.
  - rewrite Forall_fmap. apply Forall_forall. intros k _. simpl.
    split; [done|]. by apply lag_frame_wf.
Qed.

Lemma lagged_features_yields h df d lags :
  h !! df = Some d -> wf d -> lags <> [] ->
  Forall (fun k => shift_overflows k d = false) lags ->
  yields (lagged_features df lags) h
    (mkDF (nrows d) (lags ≫= fun k => columns (lag_frame k d))).
Proof.
  intros Hdf Hw Hne Hfit.
  pose proof (lagged_features_run h df d lags Hdf Hfit) as R.
  by rewrite lag_frames_concat in R.
Qed.

Lemma rolling_mean_ok (mp w : Z) d :
  0 <= mp <= w ->
  df_rolling_mean mp w d =
    Ok (mkDF (nrows d)
          ((fun c => (c.1, rolling_mean_values (Z.to_nat w) (Z.to_nat mp) c.2))
             <$> columns d)).
Proof.
  intros H. unfold df_rolling_mean.
  destruct (w <? 0) eqn:E1; [lia|].
  destruct (mp <? 0) eqn:E2; [lia|].
  destruct (w <? mp) eqn:E3; [lia|]. done.
Qed.

(** *** The observations of a window, written out *)

Lemma omap_id_nulls {A} n (l : list (option A)) :
  omap id (replicate n None ++ l) = omap id l.
Proof. induction n as [|n IH]; [done|]. exact IH. Qed.

Lemma omap_id_nulls_r {A} n (l : list (option A)) :
  omap id (l ++ replicate n None) = omap id l.
Proof.
  rewrite omap_app. rewrite <- (app_nil_r (replicate n None)), omap_id_nulls.
  simpl. apply app_nil_r.
Qed.

Lemma mean_obs_explicit (xs : list (option Q)) :
  mean_obs 1 xs
  = match omap id xs with
    | [] => None
    | obs => Some (foldr Qplus 0%Q obs / inject_Z (Z.of_nat (length obs)))%Q
    end.
Proof.
  unfold mean_obs, Qsum. destruct (omap id xs) as [|q obs].
  - by rewrite decide_False by (simpl; lia).
  - by rewrite decide_True by (simpl; lia).
Qed.

(** The rows [0..i] of a column shifted down by [s] hold the input's rows
    [0..i-s]. *)
Lemma omap_take_shift_down (s i : nat) (l : list (option Q)) :
  (i < length l)%nat ->
  omap id (take (S i) (shift_values (Z.of_nat s) l)) = omap id (take (S i - s) l).
Proof.
  intros Hi. unfold shift_values.
  destruct (0 <=? Z.of_nat s) eqn:E; [|apply Z.leb_gt in E; lia]. rewrite Nat2Z.id.
  rewrite take_take, Nat.min_l by lia.
  destruct (decide (S i <= s)%nat).
  - rewrite take_app_le by (rewrite length_replicate; lia).
    rewrite take_replicate. replace (S i - s)%nat with 0%nat by lia.
    rewrite <- (app_nil_r (replicate _ _)). by rewrite omap_id_nulls.
  - rewrite take_app_ge by (rewrite length_replicate; lia).
    by rewrite length_replicate, omap_id_nulls.
Qed.

(** The rows [0..i] of a column shifted up by [n] hold the input's rows
    [n..n+i]. *)
Lemma omap_take_shift_up (n i : nat) (l : list (option Q)) :
  (0 < n)%nat ->
  omap id (take (S i) (shift_values (- Z.of_nat n) l)) = omap id (take (S i) (drop n l)).
Proof.
  intros Hn. unfold shift_values.
  destruct (0 <=? - Z.of_nat n) eqn:E; [apply Z.leb_le in E; lia|].
  rewrite Z.opp_involutive, Nat2Z.id.
  destruct (decide (S i <= length (drop n l))%nat).
  - by rewrite take_app_le.
  - rewrite take_app_ge by lia. rewrite take_replicate, omap_id_nulls_r.
    by rewrite (take_ge (drop n l)) by lia.
Qed.

Lemma rolling_mean_values_lookup w mp (l : list (option Q)) i :
  (i < length l)%nat ->
  rolling_mean_values w mp l !! i = Some (mean_obs mp (window_at w i l)).
Proof.
  intros Hi. unfold rolling_mean_values.
  by rewrite list_lookup_fmap, lookup_seq_lt.
Qed.

Lemma rolling_mean_values_length w mp (l : list (option Q)) :
  length (rolling_mean_values w mp l) = length l.
Proof. unfold rolling_mean_values. by rewrite length_fmap, length_seq. Qed.

(** The frame that [moving_averages] returns for a window [w >= 1]. *)
Lemma moving_averages_frame h df d s w :
  h !! df = Some d -> shift_overflows s d = false -> 0 < w ->
  yields (moving_averages df s (Some w)) h
    (mkDF (nrows d)
       ((fun c => (c.1 +:+ "_mean" +:+ str w,
                   rolling_mean_values (Z.to_nat w) 1 (shift_values s c.2)))
          <$> columns d)).
Proof.
  intros Hdf Hfit Hw. pose proof (moving_averages_run h df d s (Some w) Hdf Hfit) as R.
  rewrite rolling_mean_ok in R by (simpl; lia).
  unfold df_rename, df_shift in R. cbn [columns nrows default] in R.
  rewrite <- !list_fmap_compose in R. exact R.
Qed.

Lemma yields_det (m : M ref) h fea fea' :
  yields m h fea -> yields m h fea' -> fea = fea'.
Proof.
  intros (r1 & h1 & E1 & _ & L1 & _) (r2 & h2 & E2 & _ & L2 & _).
  rewrite E1 in E2. injection E2 as -> ->. rewrite L1 in L2. by injection L2.
Qed.

End utility_props.

Section table_props.

Context {A : Type}.
Implicit Types (v : list (option A)) (df : DataFrame A).

Lemma bind_Ok {X Y} (m : result X) (f : X -> result Y) y :
  m ≫= f = Ok y -> exists x, m = Ok x /\ f x = Ok y.
Proof. destruct m as [x|e]; intros H; [eauto|discriminate H]. Qed.

Lemma mapM_Ok {X Y} (f : X -> result Y) l k :
  mapM f l = Ok k <-> Forall2 (fun x y => f x = Ok y) l k.
Proof.
  revert k. induction l as [|x l IH]; intros k.
  - split; [intros [= <-]; constructor|]. by inversion 1.
  - cbn [mapM]. split.
    + intros H. apply bind_Ok in H as (y & Hy & H).
      apply bind_Ok in H as (ys & Hys & [= <-]).
      constructor; [done|]. by apply IH.
    + inversion 1 as [|? y ? ys Hy Hys]; subst.
      apply IH in Hys. by rewrite Hy, Hys.
Qed.

Lemma at_row_lookup v i x : v !! i = Some x -> at_row v i = x.
Proof. unfold at_row. by intros ->. Qed.

Lemma at_row_seq v : at_row v <$> seq 0 (length v) = v.
Proof.
  apply list_eq. intros i. rewrite list_lookup_fmap.
  destruct (v !! i) as [x|] eqn:E.
  - rewrite lookup_seq_lt by (by eapply lookup_lt_Some). simpl.
    by rewrite (at_row_lookup _ _ _ E).
  - rewrite lookup_seq_ge; [done|]. by apply lookup_ge_None.
Qed.

Lemma bind_singleton {X Y} (f : X -> list Y) (g : X -> Y) (l : list X) :
  (forall x, x ∈ l -> f x = [g x]) -> l ≫= f = g <$> l.
Proof.
  induction l as [|x l IH]; intros H; [done|].
  cbn [mbind list_bind fmap list_fmap]. rewrite (H x) by left.
  simpl. f_equal. apply IH. intros y Hy. apply H. by right.
Qed.

(** *** Matching rows by key *)

Lemma matches_spec `{EqDecision K} (k : K) (ks : list K) j :
  j ∈ matches k ks <-> ks !! j = Some k.
Proof.
  unfold matches. rewrite list_elem_of_filter, elem_of_seq. split; [tauto|].
  intros H. split; [done|]. apply lookup_lt_Some in H. lia.
Qed.

Lemma matches_nil `{EqDecision K} (k : K) (ks : list K) :
  matches k ks = [] <-> k ∉ ks.
Proof.
  split.
  - intros E Hin. apply list_elem_of_lookup in Hin as [j Hj].
    apply matches_spec in Hj. rewrite E in Hj. by apply not_elem_of_nil in Hj.
  - intros Hn. destruct (matches k ks) as [|j l] eqn:E; [done|].
    exfalso. apply Hn. assert (j ∈ matches k ks) as Hj by (rewrite E; left).
    apply matches_spec in Hj. by eapply list_elem_of_lookup_2.
Qed.

Lemma matches_NoDup `{EqDecision K} (k : K) (ks : list K) :
  NoDup ks -> matches k ks = [] \/ exists j, matches k ks = [j] /\ ks !! j = Some k.
Proof.
  intros Hnd. destruct (matches k ks) as [|j l] eqn:E; [by left|right].
  assert (NoDup (matches k ks)) as Hm.
  { unfold matches. apply NoDup_filter, NoDup_seq. }
  assert (ks !! j = Some k) as Hj by (apply matches_spec; rewrite E; left).
  exists j. split; [|done]. destruct l as [|j' l]; [done|]. exfalso.
  assert (ks !! j' = Some k) as Hj'.
  { apply matches_spec. rewrite E. right. left. }
  assert (j = j') as -> by (by apply (NoDup_lookup ks j j' k)).
  rewrite E in Hm. apply NoDup_cons in Hm as [Hm _]. apply Hm. left.
Qed.

(** With distinct keys on the right a left join keeps the rows of the left
    table, one each. *)
Lemma merge_index_left_unique `{EqDecision K} (kl kr : list K) :
  NoDup kr ->
  merge_index how_left kl kr
  = (fun p => (Some p.1, head (matches p.2 kr))) <$> zip (seq 0 (length kl)) kl.
Proof.
  intros Hnd. unfold merge_index. apply bind_singleton.
  intros [i k] _. simpl.
  destruct (matches_NoDup k kr Hnd) as [->|(j & -> & _)]; done.
Qed.

Lemma key_values_left (ix : list (option nat * option nat)) v vr :
  ix.*1 = Some <$> seq 0 (length v) -> key_values ix v vr = v.
Proof.
  intros H. rewrite <- (at_row_seq v) at 2. unfold key_values.
  assert ((fun p : option nat * option nat =>
             match p with
             | (Some i, _) => at_row v i
             | (None, Some j) => at_row vr j
             | (None, None) => None
             end) <$> ix
          = (fun o => match o with Some i => at_row v i | None => None end)
              <$> ix.*1) as E.
  { rewrite <- list_fmap_compose. apply list_fmap_ext.
    intros i [[a|] [b|]] Hi; simpl; try done.
    exfalso. apply (f_equal (fun l => l !! i)) in H.
    rewrite !list_lookup_fmap, Hi in H. simpl in H.
    by destruct (seq 0 (length v) !! i). }
  rewrite E, H, <- list_fmap_compose. done.
Qed.

End table_props.

Section grid_props.

Lemma bind_Ok_l {X Y} (x : X) (f : X -> result Y) : Ok x ≫= f = f x.
Proof. reflexivity. Qed.

Lemma zip_seq_fst {X Y} (F : X -> Y) (l : list X) s :
  ((fun p : nat * X => (Some p.1, F p.2)) <$> zip (seq s (length l)) l).*1
  = Some <$> seq s (length l).
Proof.
  revert s. induction l as [|x l IH]; intros s; [done|].
  simpl. f_equal. apply IH.
Qed.

Lemma zip_seq_snd {X Y} (F : X -> Y) (l : list X) s :
  ((fun p : nat * X => (Some p.1, F p.2)) <$> zip (seq s (length l)) l).*2
  = F <$> l.
Proof.
  revert s. induction l as [|x l IH]; intros s; [done|].
  simpl. f_equal. apply IH.
Qed.

Lemma merge_index_left_fst `{EqDecision K} (kl kr : list K) :
  NoDup kr ->
  (merge_index how_left kl kr).*1 = Some <$> seq 0 (length kl).
Proof.
  intros Hnd. rewrite merge_index_left_unique by done.
  apply (zip_seq_fst (fun k => head (matches k kr))).
Qed.

Lemma merge_index_left_snd `{EqDecision K} (kl kr : list K) :
  NoDup kr ->
  (merge_index how_left kl kr).*2 = (fun k => head (matches k kr)) <$> kl.
Proof.
  intros Hnd. rewrite merge_index_left_unique by done.
  apply (zip_seq_snd (fun k => head (matches k kr))).
Qed.

Lemma merge_index_left_length `{EqDecision K} (kl kr : list K) :
  NoDup kr -> length (merge_index how_left kl kr) = length kl.
Proof.
  intros Hnd. rewrite <- (length_fmap fst), merge_index_left_fst by done.
  by rewrite length_fmap, length_seq.
Qed.

Lemma row_keys_length {A} (kcols : list (list (option A))) n :
  length (row_keys kcols n) = n.
Proof. unfold row_keys. by rewrite length_fmap, length_seq. Qed.

Lemma mapM_getitem_keys (all_df : Table) stores brands weeks :
  getitem all_df "store" = Ok stores -> getitem all_df "brand" = Ok brands ->
  getitem all_df "week" = Ok weeks ->
  mapM (getitem all_df) key_cols = Ok [stores; brands; weeks].
Proof. intros Hs Hb Hw. apply mapM_Ok. unfold key_cols. by repeat constructor. Qed.

(** The left join of the grid with a table whose keys are distinct. *)
Lemma merge_grid (all_df : Table) stores brands weeks (S B W : list cell) n :
  getitem all_df "store" = Ok stores -> getitem all_df "brand" = Ok brands ->
  getitem all_df "week" = Ok weeks ->
  NoDup (row_keys [stores; brands; weeks] (nrows all_df)) ->
  length S = n -> length B = n -> length W = n ->
  merge (mkDF n [("store", S); ("brand", B); ("week", W)]) all_df how_left key_cols
  = Ok (mkDF n
          ([("store", S); ("brand", B); ("week", W)] ++
           ((fun c : string * list cell =>
               (c.1, take_opt ((fun k => head (matches k
                        (row_keys [stores; brands; weeks] (nrows all_df))))
                       <$> row_keys [S; B; W] n) c.2))
              <$> filter (fun c => c.1 ∉ key_cols) (columns all_df)))).
Proof.
  intros Hs Hb Hw Hnd HS HB HW. unfold merge.
  rewrite (mapM_getitem_keys all_df stores brands weeks) by done.
  assert (mapM (getitem (mkDF n [("store", S); ("brand", B); ("week", W)])) key_cols
          = Ok [S; B; W]) as -> by reflexivity.
  rewrite !bind_Ok_l. cbv zeta. cbn [nrows columns].
  set (kr := row_keys [stores; brands; weeks] (nrows all_df)) in *.
  set (kl := row_keys [S; B; W] n).
  set (ix := merge_index how_left kl kr).
  assert (length ix = n) as Hlen.
  { unfold ix. rewrite merge_index_left_length by done. apply row_keys_length. }
  assert (ix.*1 = Some <$> seq 0 n) as H1.
  { unfold ix. rewrite merge_index_left_fst by done.
    unfold kl. by rewrite row_keys_length. }
  assert (ix.*2 = (fun k => head (matches k kr)) <$> kl) as H2.
  { unfold ix. by rewrite merge_index_left_snd. }
  rewrite Hlen. f_equal. f_equal. f_equal.
  - cbn [fmap list_fmap]. rewrite !bool_decide_eq_true_2 by (unfold key_cols; set_solver).
    cbn [fst snd]. rewrite !key_values_left by congruence. done.
  - rewrite H2. apply list_fmap_ext. intros i [c v] Hi. cbn [fst snd].
    rewrite bool_decide_eq_false_2; [done|].
    intros (Hn & Hin & _). apply Hn. exact Hin.
Qed.

Lemma unique_elem_of `{EqDecision K} (l : list K) x : x ∈ unique l <-> x ∈ l.
Proof.
  induction l as [|y l IH]; [done|]. cbn [unique].
  rewrite !elem_of_cons, list_elem_of_filter, IH.
  destruct (decide (x = y)); tauto.
Qed.

Lemma unique_NoDup `{EqDecision K} (l : list K) : NoDup (unique l).
Proof.
  induction l as [|y l IH]; [constructor|]. cbn [unique].
  apply NoDup_cons. split; [|by apply NoDup_filter].
  rewrite list_elem_of_filter. tauto.
Qed.

Lemma length_bind_const {X Y} (f : X -> list Y) (l : list X) m :
  (forall x, length (f x) = m) -> length (l ≫= f) = (length l * m)%nat.
Proof.
  intros H. induction l as [|x l IH]; [done|].
  cbn [mbind list_bind]. rewrite length_app, H. simpl. lia.
Qed.

Lemma grid_cells_length stores brands first_week last_week :
  length (grid_cells stores brands first_week last_week)
  = (length (unique stores) * length (unique brands)
     * Z.to_nat (last_week + 1 - first_week))%nat.
Proof.
  unfold grid_cells.
  rewrite (length_bind_const _ _
             (length (unique brands) * Z.to_nat (last_week + 1 - first_week))); [lia|].
  intros s.
  rewrite (length_bind_const _ _ (Z.to_nat (last_week + 1 - first_week))); [lia|].
  intros b. rewrite (length_bind_const _ _ 1%nat); [|done].
  rewrite length_seqZ. lia.
Qed.

Lemma grid_cells_NoDup stores brands first_week last_week :
  NoDup (grid_cells stores brands first_week last_week).
Proof.
  unfold grid_cells. apply NoDup_bind; [| |apply unique_NoDup].
  - intros s1 s2 y _ _ H1 H2.
    apply list_elem_of_bind in H1 as (b1 & H1 & _).
    apply list_elem_of_bind in H1 as (w1 & H1 & _).
    apply list_elem_of_bind in H2 as (b2 & H2 & _).
    apply list_elem_of_bind in H2 as (w2 & H2 & _).
    apply list_elem_of_singleton in H1, H2. congruence.
  - intros s _. apply NoDup_bind; [| |apply unique_NoDup].
    + intros b1 b2 y _ _ H1 H2.
      apply list_elem_of_bind in H1 as (w1 & H1 & _).
      apply list_elem_of_bind in H2 as (w2 & H2 & _).
      apply list_elem_of_singleton in H1, H2. congruence.
    + intros b _. apply NoDup_bind; [| |apply NoDup_seqZ].
      * intros w1 w2 y _ _ H1 H2.
        apply list_elem_of_singleton in H1, H2. congruence.
      * intros w _. apply NoDup_singleton.
Qed.

Lemma at_row_fmap {X} (f : X -> cell) (l : list X) i x :
  l !! i = Some x -> at_row (f <$> l) i = f x.
Proof. intros H. unfold at_row. by rewrite list_lookup_fmap, H. Qed.

Lemma row_keys_grid (l : list (cell * cell * Z)) :
  row_keys [(fun x => x.1.1) <$> l; (fun x => x.1.2) <$> l;
            (fun x => Some (VInt x.2)) <$> l] (length l)
  = cell_key <$> l.
Proof.
  unfold row_keys. apply list_eq. intros i. rewrite !list_lookup_fmap.
  destruct (l !! i) as [x|] eqn:E.
  - rewrite lookup_seq_lt by (by eapply lookup_lt_Some). simpl.
    unfold row_key. cbn [fmap list_fmap].
    by rewrite !(at_row_fmap _ _ _ _ E).
  - rewrite lookup_seq_ge; [done|]. by apply lookup_ge_None.
Qed.

End grid_props.

Section column_props.

Context {A : Type}.
Implicit Types (df : DataFrame A) (v : list (option A)) (c : string).

Lemma assoc_set_eq {V} c (x : V) (l : list (string * V)) :
  assoc c (assoc_set c x l) = Some x.
Proof.
  induction l as [|[c' y] l IH]; simpl.
  - by rewrite decide_True.
  - destruct (decide (c' = c)) as [->|Hne]; simpl.
    + by rewrite decide_True.
    + by rewrite decide_False.
Qed.

Lemma assoc_set_ne {V} c c' (x : V) (l : list (string * V)) :
  c <> c' -> assoc c' (assoc_set c x l) = assoc c' l.
Proof.
  intros Hne. induction l as [|[c0 y] l IH]; simpl.
  - by rewrite decide_False.
  - destruct (decide (c0 = c)) as [->|Hne0]; simpl.
    + by rewrite !decide_False.
    + by rewrite IH.
Qed.

Lemma getitem_setitem_eq df c v : getitem (setitem df c v) c = Ok v.
Proof. unfold getitem, setitem. simpl. by rewrite assoc_set_eq. Qed.

Lemma getitem_setitem_ne df c c' v :
  c <> c' -> getitem (setitem df c v) c' = getitem df c'.
Proof. intros H. unfold getitem, setitem. simpl. by rewrite assoc_set_ne. Qed.

Lemma Forall2_zip_chain {X Y Z} (P : X -> Y -> Prop) (Q : X * Y -> Z -> Prop)
  (l : list X) (k : list Y) (m : list Z) :
  Forall2 P l k -> Forall2 Q (zip l k) m ->
  Forall2 (fun x z => exists y, P x y /\ Q (x, y) z) l m.
Proof.
  intros H. revert m. induction H as [|x y l k Hxy _ IH]; intros m Hm.
  - inversion Hm. constructor.
  - inversion Hm as [|? z ? m' Hz Hm']; subst. constructor; [eauto|]. by apply IH.
Qed.

Lemma Forall2_seq_at {Y} (P : nat -> Y -> Prop) n (k : list Y) i :
  Forall2 P (seq 0 n) k -> (i < n)%nat -> exists y, k !! i = Some y /\ P i y.
Proof.
  intros H Hi. eapply Forall2_lookup_l in H as (y & Hy & HP); [eauto|].
  by apply lookup_seq_lt.
Qed.

End column_props.

Section price_props.

Lemma avg_of_sum (s : Q) y :
  truediv (Some (VFloat s)) (Some (VInt (Z.of_nat (length price_cols)))) = Ok y ->
  y = Some (VFloat (s / 11)).
Proof. by intros [= <-]. Qed.

(** What [price_features] computes, row by row. *)
Lemma price_features_inv (all_df out : Table) :
  price_features all_df = Ok out ->
  exists price avg_price price_ratio,
    getitem out "price" = Ok price /\
    getitem out "avg_price" = Ok avg_price /\
    getitem out "price_ratio" = Ok price_ratio /\
    forall i, (i < nrows all_df)%nat ->
      (exists brand b col,
         getitem all_df "brand" = Ok brand /\
         py_int (at_row brand i) = Ok b /\
         getitem all_df ("price" +:+ str b) = Ok col /\
         at_row price i = at_row col i) /\
      (exists ps,
         Forall2 (fun c x => exists col, getitem all_df c = Ok col /\
                                cell_float (at_row col i) = Ok x) price_cols ps /\
         at_row avg_price i = Some (VFloat (Qsum (omap id ps) / 11))) /\
      truediv (at_row price i) (at_row avg_price i) = Ok (at_row price_ratio i).
Proof.
  unfold price_features. intros H.
  apply bind_Ok in H as (price & Hprice & H). cbv zeta in H.
  apply bind_Ok in H as (prices & Hprices & H).
  apply bind_Ok in H as (sums & Hsums & H).
  apply bind_Ok in H as (avg & Havg & H). cbv zeta in H.
  rewrite (getitem_setitem_ne _ "avg_price" "price") in H by discriminate.
  rewrite !getitem_setitem_eq, !bind_Ok_l in H.
  apply bind_Ok in H as (ratio & Hratio & [= <-]).
  exists price, avg, ratio.
  split.
  { rewrite !getitem_setitem_ne by discriminate. apply getitem_setitem_eq. }
  split.
  { rewrite getitem_setitem_ne by discriminate. apply getitem_setitem_eq. }
  split; [by rewrite getitem_setitem_eq|].
  unfold apply_rows in Hprice. case_decide as Hn; [done|].
  apply mapM_Ok in Hprice.
  unfold select in Hprices.
  apply bind_Ok in Hprices as (vs & Hvs & [= <-]).
  assert (mapM (getitem (setitem all_df "price" price)) price_cols
          = mapM (getitem all_df) price_cols) as Hsame.
  { unfold price_cols. cbn [mapM]. by rewrite !getitem_setitem_ne by discriminate. }
  rewrite Hsame in Hvs. apply mapM_Ok in Hvs.
  unfold sum_rows in Hsums. cbn [nrows columns setitem] in Hsums.
  apply mapM_Ok in Hsums.
  unfold series_apply in Havg. apply mapM_Ok in Havg.
  unfold series_div in Hratio. apply mapM_Ok in Hratio.
  pose proof (Forall2_length _ _ _ Hprice) as Lp. rewrite length_seq in Lp.
  pose proof (Forall2_length _ _ _ Hsums) as Ls. rewrite length_seq in Ls.
  pose proof (Forall2_length _ _ _ Havg) as La.
  intros i Hi.
  destruct (Forall2_seq_at _ _ _ i Hprice Hi) as (pi & Hpi & Fp).
  destruct (Forall2_seq_at _ _ _ i Hsums Hi) as (si & Hsi & Fs).
  destruct (Forall2_lookup_l _ _ _ _ _ Havg Hsi) as (ai & Hai & Fa).
  assert (zip price avg !! i = Some (pi, ai)) as Hz by (by apply lookup_zip_Some).
  destruct (Forall2_lookup_l _ _ _ _ _ Hratio Hz) as (ri & Hri & Fr).
  rewrite (at_row_lookup _ _ _ Hpi), (at_row_lookup _ _ _ Hai),
    (at_row_lookup _ _ _ Hri).
  split; [|split].
  - apply bind_Ok in Fp as (bc & Hbc & Fp).
    apply bind_Ok in Fp as (b & Hb & Fp).
    unfold loc in Hbc, Fp.
    apply bind_Ok in Hbc as (brand & Hbrand & [= <-]).
    apply bind_Ok in Fp as (col & Hcol & [= <-]).
    by exists brand, b, col.
  - apply bind_Ok in Fs as (xs & Hxs & [= <-]).
    apply mapM_Ok in Hxs.
    exists xs. split; [|by apply avg_of_sum].
    pose proof (Forall2_zip_chain _ _ _ _ _ Hvs Hxs) as Hc.
    eapply Forall2_impl; [exact Hc|].
    intros c x (col & Hcol & Hx). by exists col.
  - exact Fr.
Qed.

End price_props.

Section names_props.

Context {A : Type}.
Implicit Types (t : DataFrame A) (v : list (option A)) (c : string).

Lemma assoc_set_names {V} c (x : V) (l : list (string * V)) :
  (assoc_set c x l).*1 = if decide (c ∈ l.*1) then l.*1 else l.*1 ++ [c].
Proof.
  induction l as [|[c' y] l IH]; [done|]. csimpl.
  destruct (decide (c' = c)) as [->|Hne]; csimpl.
  - by rewrite decide_True by left.
  - rewrite IH. destruct (decide (c ∈ l.*1)) as [Hin|Hnin].
    + by rewrite decide_True by (by right).
    + rewrite decide_False; [done|].
      intros [?|?]%elem_of_cons; congruence.
Qed.

Lemma names_setitem t c v :
  names (setitem t c v) = if decide (c ∈ names t) then names t else names t ++ [c].
Proof. apply assoc_set_names. Qed.

Lemma names_setitem_new t c v ns :
  names t = ns -> c ∉ ns -> names (setitem t c v) = ns ++ [c].
Proof. intros <- H. rewrite names_setitem. by rewrite decide_False. Qed.

Lemma zip_names {V} (cs : list string) (vs : list V) :
  length vs = length cs -> (zip cs vs).*1 = cs.
Proof. intros H. apply fst_zip. lia. Qed.

Lemma select_inv t cs t' :
  select t cs = Ok t' ->
  exists vs, Forall2 (fun c x => getitem t c = Ok x) cs vs /\
             t' = mkDF (nrows t) (zip cs vs).
Proof.
  unfold select. intros H. apply bind_Ok in H as (vs & Hvs & [= <-]).
  apply mapM_Ok in Hvs. eauto.
Qed.

Lemma names_select t cs t' : select t cs = Ok t' -> names t' = cs.
Proof.
  intros H. apply select_inv in H as (vs & Hvs & ->).
  unfold names. simpl. apply zip_names. symmetry. by eapply Forall2_length.
Qed.

Lemma assoc_fmap {V W} (f : V -> W) c (l : list (string * V)) :
  assoc c ((fun x => (x.1, f x.2)) <$> l) = f <$> assoc c l.
Proof.
  induction l as [|[c' y] l IH]; [done|]. simpl.
  by destruct (decide (c' = c)).
Qed.

Lemma getitem_fmap_columns {B} (f : list (option A) -> list (option B)) t c n :
  getitem (mkDF n ((fun x => (x.1, f x.2)) <$> columns t)) c = f <$> getitem t c.
Proof.
  unfold getitem. simpl. rewrite assoc_fmap. by destruct (assoc c (columns t)).
Qed.

Lemma names_fmap_columns {B} (f : list (option A) -> list (option B)) t n :
  names (mkDF n ((fun x => (x.1, f x.2)) <$> columns t)) = names t.
Proof.
  unfold names. simpl. rewrite <- list_fmap_compose. by apply list_fmap_ext.
Qed.

Lemma names_bind_pad n (l : list (DataFrame A)) :
  (l ≫= fun df : DataFrame A =>
           (fun x : string * list (option A) => (x.1, pad_values n x.2))
             <$> columns df).*1
  = l ≫= names.
Proof.
  induction l as [|x l IH]; [done|].
  cbn [mbind list_bind]. rewrite fmap_app, IH. f_equal.
  unfold names. rewrite <- list_fmap_compose. by apply list_fmap_ext.
Qed.

Lemma names_concat (ds : list (DataFrame A)) t :
  df_concat_columns ds = Ok t -> names t = ds ≫= names.
Proof.
  unfold df_concat_columns. destruct ds as [|d ds0] eqn:E; [intros [=]|].
  rewrite <- E. clear E. intros H.
  assert (t = mkDF (max_list (nrows <$> ds))
                (ds ≫= fun df : DataFrame A =>
                   (fun x : string * list (option A) =>
                      (x.1, pad_values (max_list (nrows <$> ds)) x.2))
                     <$> columns df)) as ->
    by congruence.
  apply names_bind_pad.
Qed.

End names_props.

Section merge_props.

Lemma filter_fst {V} (P : string -> Prop) `{forall c, Decision (P c)}
  (l : list (string * V)) :
  (filter (fun x => P x.1) l).*1 = filter P l.*1.
Proof.
  induction l as [|[c v] l IH]; [done|].
  rewrite fmap_cons, !filter_cons. cbn [fst].
  destruct (decide (P c)); csimpl; by rewrite IH.
Qed.

Lemma merge_inv `{EqDecision A} (l r : DataFrame A) h on out :
  merge l r h on = Ok out ->
  exists kl kr,
    Forall2 (fun c x => getitem l c = Ok x) on kl /\
    Forall2 (fun c x => getitem r c = Ok x) on kr /\
    let ix := merge_index h (row_keys kl (nrows l)) (row_keys kr (nrows r)) in
    let shared c := bool_decide ((c ∉ on) /\ (c ∈ names l) /\ (c ∈ names r)) in
    out = mkDF (length ix)
      (((fun c : string * list (option A) =>
           if bool_decide (c.1 ∈ on)
           then (c.1, key_values ix c.2 (default [] (assoc c.1 (columns r))))
           else (if shared c.1 then c.1 +:+ "_x" else c.1, take_opt ix.*1 c.2))
          <$> columns l) ++
       ((fun c : string * list (option A) =>
           (if shared c.1 then c.1 +:+ "_y" else c.1, take_opt ix.*2 c.2))
          <$> filter (fun c => c.1 ∉ on) (columns r))).
Proof.
  unfold merge. intros H.
  apply bind_Ok in H as (kl & Hkl & H). apply bind_Ok in H as (kr & Hkr & H).
  apply mapM_Ok in Hkl, Hkr. exists kl, kr. do 2 (split; [done|]).
  cbv zeta in *. congruence.
Qed.

Lemma merge_names_spec `{EqDecision A} (l r : DataFrame A) h on out :
  merge l r h on = Ok out -> names out = merge_names on (names l) (names r).
Proof.
  intros H. apply merge_inv in H as (kl & kr & _ & _ & ->). cbv zeta.
  unfold merge_names, names. cbn [columns]. rewrite fmap_app.
  f_equal.
  - rewrite <- !list_fmap_compose. apply list_fmap_ext.
    intros i [c v] _. simpl. by destruct (bool_decide (c ∈ on)).
  - rewrite <- (filter_fst (fun c => c ∉ on) (columns r)).
    rewrite <- !list_fmap_compose. by apply list_fmap_ext.
Qed.

(** Every pair of a right join names a right row, and a left row only if
    the two rows have the same key. *)
Lemma merge_index_right_spec `{EqDecision K} (kl kr : list K) p o j' :
  merge_index how_right kl kr !! p = Some (o, j') ->
  exists j k, j' = Some j /\ kr !! j = Some k /\
    forall i, o = Some i -> kl !! i = Some k.
Proof.
  intros H. apply list_elem_of_lookup_2 in H. unfold merge_index in H.
  apply list_elem_of_bind in H as ([j k] & H & Hz).
  apply list_elem_of_lookup in Hz as [q Hq].
  apply lookup_zip_Some in Hq as [Hs Hk].
  apply lookup_seq in Hs as [Hs _]. simpl in Hs. subst q.
  exists j, k. destruct (matches k kl) as [|i0 ms] eqn:E.
  - apply list_elem_of_singleton in H as [= -> ->]. by repeat split.
  - apply list_elem_of_fmap in H as (i & [= -> ->] & Hi).
    split; [done|]. split; [done|]. intros ? [= <-].
    rewrite <- E in Hi. by apply matches_spec in Hi.
Qed.

(** Every pair of a left join names a left row. *)
Lemma merge_index_left_spec `{EqDecision K} (kl kr : list K) p o j' :
  merge_index how_left kl kr !! p = Some (o, j') ->
  exists i, o = Some i /\ (i < length kl)%nat.
Proof.
  intros H. apply list_elem_of_lookup_2 in H. unfold merge_index in H.
  apply list_elem_of_bind in H as ([i k] & H & Hz).
  apply list_elem_of_lookup in Hz as [q Hq].
  apply lookup_zip_Some in Hq as [Hs Hk].
  apply lookup_seq in Hs as [Hs Hlt]. simpl in Hs. subst q.
  exists i. split; [|done]. destruct (matches k kr) as [|j0 ms].
  - by apply list_elem_of_singleton in H as [= -> ->].
  - by apply list_elem_of_fmap in H as (j & [= -> ->] & _).
Qed.

End merge_props.

Section keyed_props.

Ltac inv_Forall2 H :=
  repeat match type of H with
         | Forall2 _ (_ :: _) _ =>
             let x := fresh "v" in let Hx := fresh "Hv" in
             apply Forall2_cons_inv_l in H as (x & ? & Hx & H & ->)
         | Forall2 _ [] _ => apply Forall2_nil_inv_l in H as ->
         end.

Lemma is_Some_at_row {A} (v : list (option A)) i :
  Forall is_Some v -> (i < length v)%nat -> is_Some (at_row v i).
Proof.
  intros F Hi. apply lookup_lt_is_Some in Hi as [x Hx].
  rewrite (at_row_lookup _ _ _ Hx). by eapply Forall_lookup_1 in F.
Qed.

Lemma row_keys_lookup {A} (kcols : list (list (option A))) n j k :
  row_keys kcols n !! j = Some k -> (j < n)%nat /\ k = row_key kcols j.
Proof.
  unfold row_keys. rewrite list_lookup_fmap. intros H.
  destruct (seq 0 n !! j) as [j0|] eqn:E; [|done].
  apply lookup_seq in E as [-> ?]. injection H as <-. done.
Qed.

Lemma calculate_move_inv round_exp (train_df t : Table) :
  calculate_move round_exp train_df = Ok t ->
  exists v1 v2 v3 v4 v5 v6,
    t = mkDF (nrows train_df)
          [("store", v1); ("brand", v2); ("week", v3); ("profit", v4);
           ("move", v5); ("logmove", v6)].
Proof.
  unfold calculate_move. intros H.
  apply bind_Ok in H as (lm & _ & H). apply bind_Ok in H as (mv & _ & H).
  cbv zeta in H. apply select_inv in H as (vs & Hvs & ->).
  inv_Forall2 Hvs. by eexists _, _, _, _, _, _.
Qed.

Lemma key_values_length {A} ix (vl vr : list (option A)) :
  length (key_values ix vl vr) = length ix.
Proof. unfold key_values. apply length_fmap. Qed.

(** A key column of a right join holds a value wherever the right table
    does. *)
Lemma key_values_right_is_Some `{EqDecision A} (kl kr : list (list (option A)))
  nl nr q lq rq :
  kl !! q = Some lq -> kr !! q = Some rq ->
  length rq = nr -> Forall is_Some rq ->
  Forall is_Some
    (key_values (merge_index how_right (row_keys kl nl) (row_keys kr nr)) lq rq).
Proof.
  intros Hl Hr Hlen F. apply Forall_lookup. intros p x Hp.
  unfold key_values in Hp. rewrite list_lookup_fmap in Hp.
  destruct (merge_index _ _ _ !! p) as [[o j']|] eqn:E; [|done].
  injection Hp as <-.
  apply merge_index_right_spec in E as (j & k & -> & Hj & Hi).
  apply row_keys_lookup in Hj as [Hj ->].
  assert (is_Some (at_row rq j)) as S.
  { apply is_Some_at_row; [done|lia]. }
  destruct o as [i|]; [|done].
  specialize (Hi i eq_refl). apply row_keys_lookup in Hi as [_ Hi].
  apply (f_equal (fun l => l !! q)) in Hi. unfold row_key in Hi.
  rewrite !list_lookup_fmap, Hl, Hr in Hi. simpl in Hi.
  injection Hi as Hi. by rewrite <- Hi.
Qed.

(** A key column of a left join holds a value wherever the left table
    does. *)
Lemma key_values_left_is_Some `{EqDecision K} {A} (kl kr : list K)
  (vl vr : list (option A)) :
  length vl = length kl -> Forall is_Some vl ->
  Forall is_Some (key_values (merge_index how_left kl kr) vl vr).
Proof.
  intros Hlen F. apply Forall_lookup. intros p x Hp.
  unfold key_values in Hp. rewrite list_lookup_fmap in Hp.
  destruct (merge_index _ _ _ !! p) as [[o j']|] eqn:E; [|done].
  injection Hp as <-.
  apply merge_index_left_spec in E as (i & -> & Hi).
  apply is_Some_at_row; [done|lia].
Qed.

Lemma getitem_assoc {A} (t : DataFrame A) c v :
  getitem t c = Ok v -> assoc c (columns t) = Some v.
Proof. unfold getitem. destruct (assoc c (columns t)); by intros [= ->]. Qed.

Lemma merge_right_keyed round_exp (train_df t aux_df all_df : Table) :
  calculate_move round_exp train_df = Ok t ->
  merge t aux_df how_right key_cols = Ok all_df ->
  keyed aux_df -> keyed all_df.
Proof.
  intros Ht Hm (s & b & Hs & Hb & Ls & Lb & Fs & Fb).
  apply calculate_move_inv in Ht as (v1 & v2 & v3 & v4 & v5 & v6 & ->).
  apply merge_inv in Hm as (kl & kr & Hkl & Hkr & ->). cbv zeta.
  unfold key_cols in Hkl, Hkr. inv_Forall2 Hkl. inv_Forall2 Hkr.
  match goal with H : getitem aux_df "store" = Ok _ |- _ =>
    rewrite Hs in H; injection H as <- end.
  match goal with H : getitem aux_df "brand" = Ok _ |- _ =>
    rewrite Hb in H; injection H as <- end.
  repeat match goal with
         | H : getitem (mkDF _ _) _ = Ok _ |- _ => injection H as <-
         end.
  cbn [nrows columns].
  set (ix := merge_index how_right _ _).
  exists (key_values ix v1 s), (key_values ix v2 b).
  split.
  { unfold getitem. cbn [columns fmap list_fmap fst snd app].
    rewrite bool_decide_eq_true_2 by (unfold key_cols; set_solver).
    cbn [assoc fst]. rewrite decide_True by done.
    by rewrite (getitem_assoc _ _ _ Hs). }
  split.
  { unfold getitem. cbn [columns fmap list_fmap fst snd app].
    rewrite !bool_decide_eq_true_2 by (unfold key_cols; set_solver).
    cbn [assoc fst]. rewrite decide_False by done. rewrite decide_True by done.
    by rewrite (getitem_assoc _ _ _ Hb). }
  rewrite !key_values_length. do 2 (split; [done|]).
  split.
  - by apply (key_values_right_is_Some _ _ _ _ 0%nat).
  - by apply (key_values_right_is_Some _ _ _ _ 1%nat).
Qed.

Lemma fill_gaps_keyed (all_df g : Table) first_week last_week :
  fill_gaps all_df first_week last_week = Ok g ->
  keyed all_df ->
  keyed g /\ names g = merge_names key_cols key_cols (names all_df).
Proof.
  intros H (s & b & Hs & Hb & Ls & Lb & Fs & Fb).
  unfold fill_gaps in H. rewrite Hs, Hb, !bind_Ok_l in H. cbv zeta in H.
  fold (grid_cells s b first_week last_week) in H.
  set (items := grid_cells s b first_week last_week) in *.
  split; [|by rewrite (merge_names_spec _ _ _ _ _ H)].
  apply merge_inv in H as (kl & kr & Hkl & Hkr & ->). cbv zeta.
  unfold key_cols in Hkl. inv_Forall2 Hkl.
  repeat match goal with
         | H : getitem (mkDF _ _) _ = Ok _ |- _ => injection H as <-
         end.
  cbn [nrows columns].
  set (ix := merge_index how_left _ _).
  eexists (key_values ix _ _), (key_values ix _ _).
  split.
  { unfold getitem. cbn [columns fmap list_fmap fst snd app].
    rewrite bool_decide_eq_true_2 by (unfold key_cols; set_solver).
    cbn [assoc fst]. by rewrite decide_True by done. }
  split.
  { unfold getitem. cbn [columns fmap list_fmap fst snd app].
    rewrite !bool_decide_eq_true_2 by (unfold key_cols; set_solver).
    cbn [assoc fst]. rewrite decide_False by done. by rewrite decide_True by done. }
  rewrite !key_values_length. do 2 (split; [done|]).
  assert (forall x, x ∈ items -> is_Some x.1.1 /\ is_Some x.1.2) as Hitems.
  { intros [[s0 b0] w0] Hx. unfold items, grid_cells in Hx.
    apply list_elem_of_bind in Hx as (s1 & Hx & Hs1).
    apply list_elem_of_bind in Hx as (b1 & Hx & Hb1).
    apply list_elem_of_bind in Hx as (w1 & Hx & _).
    apply list_elem_of_singleton in Hx as [= -> -> ->].
    apply (proj1 (unique_elem_of _ _)) in Hs1.
    apply (proj1 (unique_elem_of _ _)) in Hb1. simpl.
    rewrite Forall_forall in Fs, Fb. split; [by apply Fs|by apply Fb]. }
  split.
  - apply key_values_left_is_Some.
    + by rewrite row_keys_length, length_fmap.
    + apply Forall_fmap, Forall_forall. intros x Hx. by apply Hitems.
  - apply key_values_left_is_Some.
    + by rewrite row_keys_length, length_fmap.
    + apply Forall_fmap, Forall_forall. intros x Hx. by apply Hitems.
Qed.

Lemma keyed_setitem (t : Table) c v :
  c <> "store" -> c <> "brand" -> keyed t -> keyed (setitem t c v).
Proof.
  intros H1 H2 (s & b & Hs & Hb & R). exists s, b.
  by rewrite !getitem_setitem_ne.
Qed.

Lemma price_features_shape (all_df out : Table) :
  price_features all_df = Ok out ->
  nrows all_df <> 0%nat /\
  exists price avg ratio,
    out = setitem (setitem (setitem all_df "price" price) "avg_price" avg)
            "price_ratio" ratio.
Proof.
  unfold price_features. intros H.
  apply bind_Ok in H as (price & Hprice & H). cbv zeta in H.
  apply bind_Ok in H as (prices & _ & H).
  apply bind_Ok in H as (sums & _ & H).
  apply bind_Ok in H as (avg & _ & H). cbv zeta in H.
  apply bind_Ok in H as (p & _ & H). apply bind_Ok in H as (a & _ & H).
  apply bind_Ok in H as (ratio & _ & [= <-]).
  split; [|by eexists _, _, _].
  unfold apply_rows in Hprice. by case_decide.
Qed.

Lemma calendar_features_shape bs (all_df out : Table) :
  calendar_features bs all_df = Ok out ->
  exists ws wom y m d,
    out = setitem (setitem (setitem (setitem (setitem all_df
            "week_start" ws) "week_of_month" wom) "year" y) "month" m) "day" d.
Proof.
  unfold calendar_features. intros H.
  apply bind_Ok in H as (week & _ & H).
  apply bind_Ok in H as (ws & _ & H). cbv zeta in H.
  apply bind_Ok in H as (? & _ & H).
  apply bind_Ok in H as (wom & _ & H). cbv zeta in H.
  apply bind_Ok in H as (? & _ & H).
  apply bind_Ok in H as (y & _ & H). cbv zeta in H.
  apply bind_Ok in H as (? & _ & H).
  apply bind_Ok in H as (m & _ & H). cbv zeta in H.
  apply bind_Ok in H as (? & _ & H).
  apply bind_Ok in H as (d & _ & [= <-]).
  by eexists _, _, _, _, _.
Qed.

End keyed_props.

Section lag_props.

Lemma insert_sorted_Permutation {X} (key : X -> list cell) x (l : list X) :
  insert_sorted key x l ≡ₚ x :: l.
Proof.
  induction l as [|y l IH]; [done|]. simpl.
  destruct (key_leb (key x) (key y)); [done|].
  rewrite IH. apply Permutation_swap.
Qed.

Lemma sort_by_Permutation {X} (key : X -> list cell) (l : list X) :
  sort_by key l ≡ₚ l.
Proof.
  induction l as [|x l IH]; [done|]. unfold sort_by in *. simpl.
  by rewrite insert_sorted_Permutation, IH.
Qed.

Lemma sort_values_inv (t t' : Table) by_ :
  sort_values t by_ = Ok t' ->
  exists perm, perm ≡ₚ seq 0 (nrows t) /\ t' = df_take perm t.
Proof.
  unfold sort_values. intros H. apply bind_Ok in H as (kcols & _ & [= <-]).
  eexists. split; [apply sort_by_Permutation|done].
Qed.

Lemma getitem_df_take {A} (t : DataFrame A) ix c :
  getitem (df_take ix t) c = take_rows ix <$> getitem t c.
Proof. apply getitem_fmap_columns. Qed.

Lemma keyed_df_take (t : Table) perm :
  perm ≡ₚ seq 0 (nrows t) -> keyed t -> keyed (df_take perm t).
Proof.
  intros Hp (s & b & Hs & Hb & Ls & Lb & Fs & Fb).
  exists (take_rows perm s), (take_rows perm b).
  rewrite !getitem_df_take, Hs, Hb. do 2 (split; [done|]).
  unfold take_rows. rewrite !length_fmap. do 2 (split; [done|]).
  assert (forall i, i ∈ perm -> (i < nrows t)%nat) as Hlt.
  { intros i Hi. rewrite Hp in Hi. apply elem_of_seq in Hi. lia. }
  split; apply Forall_fmap, Forall_forall; intros i Hi; simpl;
    apply is_Some_at_row; try done; specialize (Hlt i Hi); lia.
Qed.

Lemma ffill_from_id {A} (last : option A) (l : list (option A)) :
  Forall is_Some l -> ffill_from last l = l.
Proof.
  intros F. revert last. induction F as [|x l [y ->] _ IH]; intros last; [done|].
  simpl. by rewrite IH.
Qed.

Lemma bfill_id {A} (l : list (option A)) : Forall is_Some l -> bfill l = l.
Proof.
  induction 1 as [|x l [y ->] _ IH]; [done|]. simpl. by rewrite IH.
Qed.

Lemma fill_id {A} (l : list (option A)) :
  Forall is_Some l -> bfill (ffill l) = l.
Proof. intros F. unfold ffill. rewrite ffill_from_id by done. by apply bfill_id. Qed.

Lemma fill_sales_inv (t fs : Table) :
  fill_sales t = Ok fs -> keyed t ->
  exists s b m,
    fs = mkDF (nrows t) [("store", s); ("brand", b); ("move", m)] /\
    length s = nrows t /\ length b = nrows t /\
    Forall is_Some s /\ Forall is_Some b.
Proof.
  unfold fill_sales. intros H (s & b & Hs & Hb & Ls & Lb & Fs & Fb).
  apply bind_Ok in H as (sel & Hsel & [= <-]).
  apply select_inv in Hsel as (vs & Hvs & ->).
  apply Forall2_cons_inv_l in Hvs as (s' & vs1 & Hs' & Hvs & ->).
  apply Forall2_cons_inv_l in Hvs as (b' & vs2 & Hb' & Hvs & ->).
  apply Forall2_cons_inv_l in Hvs as (m & vs3 & Hm & Hvs & ->).
  apply Forall2_nil_inv_l in Hvs as ->.
  rewrite Hs in Hs'. rewrite Hb in Hb'. injection Hs' as <-. injection Hb' as <-.
  exists s, b, (bfill (ffill m)). split; [|done].
  unfold apply_columns. cbn [nrows columns zip zip_with fmap list_fmap fst snd].
  by rewrite !fill_id by done.
Qed.

(** The labels of a grouped application are those that the function gives
    to a group, as soon as there is a group. *)
Lemma groupby_apply_names {B} (s b m : list cell) n
  (f : Table -> result (DataFrame B)) r ns :
  groupby_apply (mkDF n [("store", s); ("brand", b); ("move", m)])
    ["store"; "brand"] f = Ok r ->
  n <> 0%nat -> length s = n -> length b = n ->
  Forall is_Some s -> Forall is_Some b ->
  (forall x y, f x = Ok y -> names y = ns) ->
  names r = ns.
Proof.
  intros H Hn Ls Lb Fs Fb Hf. unfold groupby_apply in H.
  assert (mapM (getitem (mkDF n [("store", s); ("brand", b); ("move", m)]))
            ["store"; "brand"] = Ok [s; b]) as E by reflexivity.
  rewrite E, bind_Ok_l in H. clear E. cbv zeta in H. cbn [nrows] in H.
  set (keys := row_keys [s; b] n) in *.
  set (gkeys := sort_by id (unique (filter (Forall is_Some) keys))) in *.
  apply bind_Ok in H as (parts & Hparts & H).
  apply mapM_Ok in Hparts.
  assert (gkeys <> []) as Hg.
  { assert (row_key [s; b] 0 ∈ gkeys) as Hin; [|by destruct gkeys; inversion Hin].
    unfold gkeys. rewrite sort_by_Permutation.
    apply unique_elem_of, list_elem_of_filter. split.
    - unfold row_key. cbn [fmap list_fmap].
      repeat constructor; apply is_Some_at_row; try done; lia.
    - unfold keys, row_keys. apply list_elem_of_fmap. exists 0%nat.
      split; [done|]. apply elem_of_seq. lia. }
  destruct Hparts as [|g [ix0 r0] gs parts Hg0 _]; [done|].
  apply bind_Ok in Hg0 as (r0' & Hr0 & [= _ <-]).
  injection H as <-. apply Hf in Hr0. rewrite <- Hr0.
  unfold names at 1. cbn [columns]. rewrite <- list_fmap_compose.
  apply list_fmap_id.
Qed.

Lemma as_float_names (t : Table) q : as_float t = Ok q -> names q = names t.
Proof.
  unfold as_float. intros H. apply bind_Ok in H as (cols & Hcols & [= <-]).
  apply mapM_Ok in Hcols. unfold names. cbn [columns].
  induction Hcols as [|c c' l l' Hc _ IH]; [done|].
  apply bind_Ok in Hc as (v & _ & [= <-]). csimpl. by rewrite IH.
Qed.

Lemma call_yields (f : ref -> M ref) d fea :
  yields (f the_df) {[the_df := d]} fea -> call f d = Ok fea.
Proof.
  intros (r & h' & E & _ & L & _). unfold call. by rewrite E, L.
Qed.

Lemma names_lag_frame k d :
  names (lag_frame k d) = (fun x => x +:+ "_lag" +:+ str k) <$> names d.
Proof.
  unfold lag_frame, df_rename, df_shift, names. cbn [columns].
  rewrite <- !list_fmap_compose. by apply list_fmap_ext.
Qed.

Lemma on_move_lagged_names (x : Table) y :
  on_move (fun df => lagged_features df lags) x = Ok y ->
  names y = ["move_lag2"; "move_lag3"; "move_lag4"].
Proof.
  unfold on_move. intros H.
  apply bind_Ok in H as (m & Hm & H). apply bind_Ok in H as (q & Hq & H).
  apply names_select in Hm. apply as_float_names in Hq. rewrite Hm in Hq.
  pose proof (lagged_features_run {[the_df := q]} the_df q lags
                (lookup_singleton_eq _ _)
                (shift_all_fit lags q ltac:(repeat constructor; lia))) as R.
  destruct (df_concat_columns _) as [fea|e] eqn:C.
  - apply (call_yields (fun df => lagged_features df lags)) in R.
    rewrite R in H. injection H as <-.
    apply names_concat in C. rewrite C. unfold lags.
    cbn [fmap list_fmap mbind list_bind]. rewrite !names_lag_frame, Hq. done.
  - unfold call in H. by rewrite R in H.
Qed.

Lemma on_move_mean_names (x : Table) y :
  on_move (fun df => moving_averages df 2 (Some 10)) x = Ok y ->
  names y = ["move_mean10"].
Proof.
  unfold on_move. intros H.
  apply bind_Ok in H as (m & Hm & H). apply bind_Ok in H as (q & Hq & H).
  apply names_select in Hm. apply as_float_names in Hq. rewrite Hm in Hq.
  pose proof (moving_averages_run {[the_df := q]} the_df q 2 (Some 10)
                (lookup_singleton_eq _ _) (shift_fits 2 q ltac:(lia))) as R.
  rewrite rolling_mean_ok in R by (simpl; lia).
  apply (call_yields (fun df => moving_averages df 2 (Some 10))) in R.
  rewrite R in H. injection H as <-.
  unfold df_rename, df_shift, names in *. cbn [columns default] in *.
  rewrite <- !list_fmap_compose.
  transitivity ((fun x => x +:+ "_mean10") <$> (columns q).*1).
  - rewrite <- list_fmap_compose. by apply list_fmap_ext.
  - by rewrite Hq.
Qed.

Lemma names_df_take {A} (t : DataFrame A) ix : names (df_take ix t) = names t.
Proof. apply names_fmap_columns. Qed.

Lemma names_of_float (d : DataFrame Q) : names (of_float d) = names d.
Proof.
  unfold of_float, names. cbn [columns]. rewrite <- list_fmap_compose.
  by apply list_fmap_ext.
Qed.

Lemma lag_features_names (t out : Table) :
  lag_features t = Ok out -> keyed t -> nrows t <> 0%nat ->
  names out
  = names t ++ ["move_lag2"; "move_lag3"; "move_lag4"; "move_mean10"].
Proof.
  unfold lag_features. intros H Hk Hn.
  apply bind_Ok in H as (sorted & Hsort & H).
  apply bind_Ok in H as (fs & Hfs & H).
  apply bind_Ok in H as (lf & Hlf & H).
  apply bind_Ok in H as (ma & Hma & H).
  apply sort_values_inv in Hsort as (perm & Hperm & ->).
  assert (nrows (df_take perm t) = nrows t) as Hrows.
  { cbn [nrows df_take]. by rewrite Hperm, length_seq. }
  apply (keyed_df_take _ _ Hperm) in Hk.
  destruct (fill_sales_inv _ _ Hfs Hk) as (s & b & m & -> & Ls & Lb & Fs & Fb).
  rewrite Hrows in *.
  apply (groupby_apply_names _ _ _ _ _ _ ["move_lag2"; "move_lag3"; "move_lag4"])
    in Hlf; [|done..|apply on_move_lagged_names].
  apply (groupby_apply_names _ _ _ _ _ _ ["move_mean10"])
    in Hma; [|done..|apply on_move_mean_names].
  apply names_concat in H. rewrite H. cbn [mbind list_bind].
  by rewrite !names_of_float, names_df_take, Hlf, Hma, app_nil_r.
Qed.

End lag_props.
Section utility_claims.

Implicit Types (h : heap) (d : DataFrame Q) (df r : ref).

Lemma ex_heap_lookup : ex_heap !! the_df = Some ex_sales.
Proof. reflexivity. Qed.

Lemma ex_sales_wf : wf ex_sales.
Proof. repeat constructor. Qed.

(** C4, the claim fails for a lag that is no machine integer: [df.shift]
    hands the lag to [np.roll] as an [np.intp], and on the example table the
    lag [2^63] is an [OverflowError]. *)
Lemma lagged_features_shift_overflow :
  0 <= 2 ^ 63 /\ lagged_features the_df [2 ^ 63] ex_heap = Err OverflowError.
Proof.
  split; [lia|].
  apply (lagged_features_overflow _ _ ex_sales); [exact ex_heap_lookup|].
  by constructor.
Qed.

(** C4 as amended: with a single lag [0 <= k < 2^63] the result has the rows
    of the input, every column keeps its place and is renamed by appending
    [_lag<k>], its first [k] rows are null and row [i >= k] holds the input's
    row [i - k]; with several lags that fit a machine integer the frames of
    the single lags stand side by side in the order of the list. *)
Theorem lagged_features_shift h df d :
  h !! df = Some d -> wf d ->
  (forall k, 0 <= k < 2 ^ 63 ->
     exists fea, yields (lagged_features df [k]) h fea /\
       nrows fea = nrows d /\
       names fea = (fun x => x +:+ "_lag" +:+ str k) <$> names d /\
       forall j c v, columns d !! j = Some (c, v) ->
         exists v', columns fea !! j = Some (c +:+ "_lag" +:+ str k, v') /\
           length v' = length v /\
           forall i, (i < length v)%nat ->
             v' !! i = if decide (i < Z.to_nat k)%nat then Some None
                       else v !! (i - Z.to_nat k)%nat) /\
  (forall lags, lags <> [] -> Forall (fun k => - 2 ^ 63 <= k < 2 ^ 63) lags ->
     exists fea parts, yields (lagged_features df lags) h fea /\
       Forall2 (fun k part => yields (lagged_features df [k]) h part) lags parts /\
       columns fea = parts ≫= columns).
Proof.
  intros Hdf Hw. split.
  - intros k Hk. eexists. split.
    { apply lagged_features_yields; [done..|]. apply shift_all_fit.
      constructor; [lia|constructor]. }
    cbn [mbind list_bind nrows columns]. rewrite app_nil_r.
    split; [done|]. split.
    + unfold names, lag_frame, df_rename, df_shift. simpl.
      rewrite <- !list_fmap_compose. done.
    + intros j c v Hj. exists (shift_values k v). split.
      * unfold lag_frame, df_rename, df_shift. simpl.
        rewrite !list_lookup_fmap, Hj. done.
      * split; [apply shift_values_length|].
        intros i Hi. apply shift_values_lookup; [lia|done].
  - intros lags Hne Hfit.
    exists (mkDF (nrows d) (lags ≫= fun k => columns (lag_frame k d))),
           ((fun k => lag_frame k d) <$> lags).
    split; [apply lagged_features_yields; [done..|by apply shift_all_fit]|]. split.
    + apply Forall2_fmap_r, Forall_Forall2_diag.
      eapply Forall_impl; [exact Hfit|]. intros k Hk.
      pose proof (lagged_features_yields h df d [k] Hdf Hw ltac:(done)
                    (shift_all_fit [k] d ltac:(by constructor))) as Y.
      cbn [mbind list_bind] in Y. rewrite app_nil_r in Y.
      assert (mkDF (nrows d) (columns (lag_frame k d)) = lag_frame k d) as E by done.
      by rewrite E in Y.
    + simpl. clear Hne Hfit. induction lags as [|k lags IH]; [done|].
      cbn [fmap list_fmap mbind list_bind]. f_equal. exact IH.
Qed.

Lemma lagged_features_shift_witness :
  ex_heap !! the_df = Some ex_sales /\ wf ex_sales /\ 0 <= 2 < 2 ^ 63 /\
  exists fea, yields (lagged_features the_df [2]) ex_heap fea /\
    nrows fea = 4%nat /\
    names fea = ["move_lag2"; "price_lag2"].
Proof.
  split; [exact ex_heap_lookup|]. split; [exact ex_sales_wf|].
  split; [lia|].
  destruct (proj1 (lagged_features_shift ex_heap the_df ex_sales
                     ex_heap_lookup ex_sales_wf) 2 ltac:(lia))
    as (fea & Y & N & C & _).
  exists fea. split; [exact Y|]. split; [exact N|exact C].
Defined.

(** C9, the claim fails for a list with a lag that is no machine integer:
    on the one-row table the list [[2; 2^63]] is not empty and the call
    raises an [OverflowError]. *)
Lemma lagged_features_nonempty_lags_overflow :
  [2; 2 ^ 63] <> [] /\
  lagged_features the_df [2; 2 ^ 63] {[the_df := ex_one]} = Err OverflowError.
Proof.
  split; [discriminate|].
  apply (lagged_features_overflow _ _ ex_one); [apply lookup_singleton_eq|].
  right. by left.
Qed.

(** C9 as amended: with no lags the column-wise concatenation has nothing
    to concatenate and the call fails with a [ValueError]; with at least one
    lag, all of them machine integers, it returns a table; on a table with at
    least one cell a lag that is no machine integer is an [OverflowError]. *)
Theorem lagged_features_empty_lags h df d :
  h !! df = Some d ->
  lagged_features df [] h = Err ValueError /\
  (forall lags, lags <> [] -> Forall (fun k => - 2 ^ 63 <= k < 2 ^ 63) lags ->
     exists fea, yields (lagged_features df lags) h fea) /\
  (forall lags, Exists (fun k => ~ (- 2 ^ 63 <= k < 2 ^ 63)) lags ->
     nrows d <> 0%nat -> columns d <> [] ->
     lagged_features df lags h = Err OverflowError).
Proof.
  intros Hdf. split; [|split].
  - exact (lagged_features_run h df d [] Hdf ltac:(constructor)).
  - intros lags Hne Hfit.
    pose proof (lagged_features_run h df d lags Hdf (shift_all_fit _ _ Hfit)) as R.
    destruct lags as [|k lags]; [done|]. simpl in R. eauto.
  - intros lags Hex Hn Hc. apply (lagged_features_overflow _ _ d _ Hdf).
    eapply Exists_impl; [exact Hex|]. intros k Hk.
    by apply shift_overflows_spec.
Qed.

Lemma lagged_features_empty_lags_witness :
  ex_heap !! the_df = Some ex_sales /\
  lagged_features the_df [] ex_heap = Err ValueError /\
  (exists fea, yields (lagged_features the_df [2; 3; 4]) ex_heap fea) /\
  lagged_features the_df [2; - 2 ^ 63 - 1] ex_heap = Err OverflowError.
Proof.
  split; [exact ex_heap_lookup|].
  destruct (lagged_features_empty_lags ex_heap the_df ex_sales ex_heap_lookup)
    as (E & S & O).
  split; [exact E|]. split.
  - apply S; [discriminate|]. repeat constructor; lia.
  - apply O; [|discriminate|discriminate]. right. left. lia.
Defined.

(** C6, the claimed identity fails: on a one-row table with the column
    [move] the result carries the column [move_mean1], so it is not the
    input table. *)
Lemma moving_averages_window1_not_identity :
  call (fun df => moving_averages df 0 (Some 1)) ex_one
    = Ok (mkDF 1 [("move_mean1", [Some 1%Q])]) /\
  call (fun df => moving_averages df 0 (Some 1)) ex_one <> Ok ex_one.
Proof. split; [reflexivity|]. vm_compute. discriminate. Qed.

(** C6 as amended: a shift of zero followed by a rolling mean of window 1
    with [min_periods=1] leaves the row count and every value of every
    column unchanged; each column is renamed by appending [_mean1]. *)
Theorem moving_averages_window1_values h df d :
  h !! df = Some d ->
  exists fea, yields (moving_averages df 0 (Some 1)) h fea /\
    nrows fea = nrows d /\
    columns fea = (fun c => (c.1 +:+ "_mean1", c.2)) <$> columns d.
Proof.
  intros Hdf.
  pose proof (moving_averages_run h df d 0 (Some 1) Hdf (shift_fits 0 d ltac:(lia))) as R.
  rewrite rolling_mean_ok in R by (simpl; lia).
  eexists. split; [exact R|]. split; [done|].
  unfold df_rename, df_shift. cbn [columns nrows default].
  rewrite <- !list_fmap_compose. apply list_fmap_ext.
  intros i [c v] _. simpl.
  by rewrite shift_values_0, rolling_mean_values_one.
Qed.

Lemma moving_averages_window1_values_witness :
  ex_heap !! the_df = Some ex_sales /\
  exists fea, yields (moving_averages the_df 0 (Some 1)) ex_heap fea /\
    columns fea = [("move_mean1", [Some 10%Q; None; Some 30%Q; Some 50%Q]);
                   ("price_mean1", [Some (1 # 2)%Q; Some 2%Q; Some 3%Q; None])].
Proof.
  split; [exact ex_heap_lookup|].
  destruct (moving_averages_window1_values ex_heap the_df ex_sales ex_heap_lookup)
    as (fea & Y & _ & C).
  exists fea. split; [exact Y|exact C].
Defined.

(** C8, the claim fails on a table without rows: the default window is the
    row count 0, and a rolling window of 0 with [min_periods=1] is rejected
    with a [ValueError]. *)
Lemma moving_averages_default_window_no_rows :
  nrows ex_no_rows = 0%nat /\
  moving_averages the_df 2 None {[the_df := ex_no_rows]} = Err ValueError.
Proof.
  split; [reflexivity|].
  pose proof (moving_averages_run {[the_df := ex_no_rows]} the_df ex_no_rows 2 None
                (lookup_singleton_eq _ _) eq_refl) as R.
  exact R.
Qed.

(** C8 as amended: on a table with at least one row and for a start step
    that is a machine integer, the call without [window_size] is the call
    with the row count as window; every column is renamed by appending
    [_mean<row count>], and row [i] holds the mean of the values present
    among the rows [0..i] of the shifted column, that is among the input's
    rows [0..i-start_step] for a start step [>= 0] and among its rows
    [-start_step..i-start_step] for a negative one (a cumulative average);
    it is null when there is no such value. *)
Theorem moving_averages_default_window h df d s :
  h !! df = Some d -> wf d -> (0 < nrows d)%nat -> - 2 ^ 63 <= s < 2 ^ 63 ->
  moving_averages df s None h
    = moving_averages df s (Some (Z.of_nat (nrows d))) h /\
  exists fea, yields (moving_averages df s None) h fea /\
    nrows fea = nrows d /\
    names fea = (fun x => x +:+ "_mean" +:+ str (Z.of_nat (nrows d))) <$> names d /\
    forall j c v, columns d !! j = Some (c, v) ->
      exists v',
        columns fea !! j = Some (c +:+ "_mean" +:+ str (Z.of_nat (nrows d)), v') /\
        length v' = nrows d /\
        forall i, (i < nrows d)%nat ->
          v' !! i
          = Some match omap id (if decide (0 <= s)
                                then take (S i - Z.to_nat s) v
                                else take (S i) (drop (Z.to_nat (- s)) v)) with
                 | [] => None
                 | obs => Some (foldr Qplus 0%Q obs
                                / inject_Z (Z.of_nat (length obs)))%Q
                 end.
Proof.
  intros Hdf Hw Hn Hs. pose proof (shift_fits s d Hs) as Hfit. split.
  { by rewrite !(moving_averages_eval h df d s _ Hdf Hfit). }
  pose proof (moving_averages_run h df d s None Hdf Hfit) as R.
  rewrite rolling_mean_ok in R by (simpl; lia).
  eexists. split; [exact R|]. split; [done|]. split.
  { unfold names, df_rename, df_shift. cbn [columns nrows default].
    rewrite <- !list_fmap_compose. by apply list_fmap_ext. }
  intros j c v Hj.
  assert (length v = nrows d) as Lv.
  { unfold wf in Hw. rewrite Forall_forall in Hw.
    apply (Hw (c, v)). by eapply list_elem_of_lookup_2. }
  eexists. split.
  { unfold df_rename, df_shift. cbn [columns nrows default].
    rewrite !list_lookup_fmap, Hj. reflexivity. }
  cbn [fst snd]. split.
  { by rewrite rolling_mean_values_length, shift_values_length. }
  intros i Hi.
  rewrite rolling_mean_values_lookup by (rewrite shift_values_length; lia).
  rewrite window_at_all by lia. rewrite mean_obs_explicit.
  case_decide as Hsgn.
  - rewrite <- (Z2Nat.id s) at 1 by done.
    by rewrite omap_take_shift_down by lia.
  - replace s with (- Z.of_nat (Z.to_nat (- s))) at 1 by lia.
    by rewrite omap_take_shift_up by lia.
Qed.

Lemma moving_averages_default_window_witness :
  ex_heap !! the_df = Some ex_sales /\ wf ex_sales /\ (0 < nrows ex_sales)%nat /\
  - 2 ^ 63 <= 1 < 2 ^ 63 /\
  exists fea, yields (moving_averages the_df 1 None) ex_heap fea /\
    nrows fea = 4%nat /\
    names fea = ["move_mean4"; "price_mean4"] /\
    exists v', columns fea !! 0%nat = Some ("move_mean4", v') /\
      v' !! 0%nat = Some None /\ v' !! 1%nat = Some (Some (10 # 1)%Q) /\
      v' !! 2%nat = Some (Some (10 # 1)%Q) /\ v' !! 3%nat = Some (Some (40 # 2)%Q).
Proof.
  split; [exact ex_heap_lookup|]. split; [exact ex_sales_wf|].
  split; [simpl; lia|]. split; [lia|].
  destruct (moving_averages_default_window ex_heap the_df ex_sales 1
              ex_heap_lookup ex_sales_wf ltac:(simpl; lia) ltac:(lia))
    as (_ & fea & Y & N & C & V).
  exists fea. split; [exact Y|]. split; [exact N|]. split; [exact C|].
  destruct (V 0%nat "move" _ eq_refl) as (v' & Hv' & _ & Hrow).
  exists v'. split; [exact Hv'|].
  split; [exact (Hrow 0%nat ltac:(simpl; lia))|].
  split; [exact (Hrow 1%nat ltac:(simpl; lia))|].
  split; [exact (Hrow 2%nat ltac:(simpl; lia))|exact (Hrow 3%nat ltac:(simpl; lia))].
Defined.

(** C10, the claim fails for a start step that is no machine integer: the
    window 10 is positive, and on the example table the start step [2^63]
    makes [df.shift] raise an [OverflowError], so no table is returned. *)
Lemma moving_averages_start_step_overflow :
  0 < 10 /\ moving_averages the_df (2 ^ 63) (Some 10) ex_heap = Err OverflowError.
Proof.
  split; [lia|].
  by apply (moving_averages_overflow _ _ ex_sales); [exact ex_heap_lookup|].
Qed.

(** C10 as amended: with at least one lag, all lags machine integers,
    respectively with a start step that is a machine integer and a window
    from 1 to [2^63 - 1], each function returns a new object with the row
    count of its input, and the input object is afterwards what it was
    before the call. *)
Theorem features_leave_input_unchanged h df d :
  h !! df = Some d ->
  (forall lags, lags <> [] -> Forall (fun k => - 2 ^ 63 <= k < 2 ^ 63) lags ->
     exists r h' fea, lagged_features df lags h = Ok (r, h') /\
       h !! r = None /\ r <> df /\ h' !! r = Some fea /\
       nrows fea = nrows d /\ h' !! df = Some d) /\
  (forall s w, - 2 ^ 63 <= s < 2 ^ 63 -> 0 < w < 2 ^ 63 ->
     exists r h' fea, moving_averages df s (Some w) h = Ok (r, h') /\
       h !! r = None /\ r <> df /\ h' !! r = Some fea /\
       nrows fea = nrows d /\ h' !! df = Some d).
Proof.
  intros Hdf. split.
  - intros lags Hne Hfit.
    pose proof (lagged_features_run h df d lags Hdf (shift_all_fit _ _ Hfit)) as R.
    destruct (df_concat_columns _) as [fea|e] eqn:C.
    + destruct R as (r & h' & E & N & L & P).
      exists r, h', fea. split; [done|]. split; [done|].
      split; [congruence|]. split; [done|].
      split; [|by rewrite P by eauto].
      eapply (concat_nrows (nrows d)); [| |exact C].
      * by destruct lags.
      * rewrite Forall_fmap. by apply Forall_forall.
    + by destruct lags.
  - intros s w Hs Hw.
    pose proof (moving_averages_run h df d s (Some w) Hdf (shift_fits _ _ Hs)) as R.
    rewrite rolling_mean_ok in R by (simpl; lia).
    destruct R as (r & h' & E & N & L & P).
    eexists r, h', _. split; [done|]. split; [done|].
    split; [congruence|]. split; [done|].
    split; [done|]. by rewrite P by eauto.
Qed.

Lemma features_leave_input_unchanged_witness :
  ex_heap !! the_df = Some ex_sales /\ - 2 ^ 63 <= 2 < 2 ^ 63 /\ 0 < 10 < 2 ^ 63 /\
  (exists r h' fea, lagged_features the_df [2; 3; 4] ex_heap = Ok (r, h') /\
     ex_heap !! r = None /\ r <> the_df /\ h' !! r = Some fea /\
     nrows fea = nrows ex_sales /\ h' !! the_df = Some ex_sales) /\
  (exists r h' fea, moving_averages the_df 2 (Some 10) ex_heap = Ok (r, h') /\
     ex_heap !! r = None /\ r <> the_df /\ h' !! r = Some fea /\
     nrows fea = nrows ex_sales /\ h' !! the_df = Some ex_sales).
Proof.
  split; [exact ex_heap_lookup|]. split; [lia|]. split; [lia|].
  destruct (features_leave_input_unchanged ex_heap the_df ex_sales ex_heap_lookup)
    as [L A].
  split; [apply L; [discriminate|repeat constructor; lia]|apply A; lia].
Defined.

End utility_claims.

Section grid_claims.

(** C1: when the (store, brand, week) keys of the merged table are
    distinct, grid expansion yields one row for each cell of
    stores x brands x weeks and no other row, whatever the number of rows it
    started from; a row whose cell is not a key of the merged table holds
    nulls in every other column, a row whose cell is the key of a row of the
    merged table holds that row.  With two stores, one brand, weeks 1..3 and
    data at week 2 only there are 6 rows, 4 of them with a null [move]. *)
Theorem fill_gaps_one_row_per_cell :
  (forall (all_df : Table) (first_week last_week : Z) stores brands weeks,
     getitem all_df "store" = Ok stores ->
     getitem all_df "brand" = Ok brands ->
     getitem all_df "week" = Ok weeks ->
     NoDup (row_keys [stores; brands; weeks] (nrows all_df)) ->
     exists out S B W,
       fill_gaps all_df first_week last_week = Ok out /\
       nrows out = (length (unique stores) * length (unique brands)
                    * Z.to_nat (last_week + 1 - first_week))%nat /\
       getitem out "store" = Ok S /\ getitem out "brand" = Ok B /\
       getitem out "week" = Ok W /\
       row_keys [S; B; W] (nrows out)
         = cell_key <$> grid_cells stores brands first_week last_week /\
       NoDup (grid_cells stores brands first_week last_week) /\
       forall p k c v,
         row_keys [S; B; W] (nrows out) !! p = Some k ->
         (c, v) ∈ columns out -> c ∉ key_cols ->
         (k ∉ row_keys [stores; brands; weeks] (nrows all_df) -> v !! p = Some None) /\
         (forall j, row_keys [stores; brands; weeks] (nrows all_df) !! j = Some k ->
            exists v0, (c, v0) ∈ columns all_df /\ v !! p = Some (at_row v0 j))) /\
  (exists out move,
     fill_gaps ex_week2 1 3 = Ok out /\ nrows ex_week2 = 2%nat /\
     nrows out = 6%nat /\ getitem out "move" = Ok move /\
     length move = 6%nat /\ length (filter (fun x => x = None) move) = 4%nat).
Proof.
  split.
  - intros all_df first_week last_week stores brands weeks Hs Hb Hw Hnd.
    unfold fill_gaps. rewrite Hs, Hb, !bind_Ok_l. cbv zeta.
    fold (grid_cells stores brands first_week last_week).
    set (items := grid_cells stores brands first_week last_week).
    set (kr := row_keys [stores; brands; weeks] (nrows all_df)) in *.
    rewrite (merge_grid all_df stores brands weeks) by (by rewrite ?length_fmap).
    fold kr.
    eexists _, _, _, _. split; [reflexivity|].
    split; [apply grid_cells_length|].
    do 3 (split; [reflexivity|]).
    split; [apply row_keys_grid|]. split; [apply grid_cells_NoDup|].
    cbn [nrows columns]. rewrite row_keys_grid.
    intros p k c v Hp Hin Hc.
    apply elem_of_app in Hin as [Hin|Hin].
    { exfalso. apply Hc. unfold key_cols.
      repeat (apply elem_of_cons in Hin as [[= -> _]|Hin]; [set_solver|]).
      by apply not_elem_of_nil in Hin. }
    apply list_elem_of_fmap in Hin as ([c0 v0] & [= -> ->] & Hin0).
    apply list_elem_of_filter in Hin0 as [_ Hin0]. cbn [fst snd].
    assert (forall o, head (matches k kr) = o ->
              take_opt ((fun k0 => head (matches k0 kr)) <$> (cell_key <$> items)) v0 !! p
              = Some (match o with Some i => at_row v0 i | None => None end)) as T.
    { intros o Ho. unfold take_opt. rewrite 2!list_lookup_fmap, Hp. simpl.
      by rewrite Ho. }
    split.
    + intros Hk. apply matches_nil in Hk. apply (T None). by rewrite Hk.
    + intros j Hj. exists v0. split; [done|].
      destruct (matches_NoDup k kr Hnd) as [E|(j' & E & Hj')].
      * apply matches_nil in E. exfalso. apply E.
        by eapply list_elem_of_lookup_2.
      * assert (j' = j) as -> by (by apply (NoDup_lookup kr j' j k)).
        apply (T (Some j)). by rewrite E.
  - eexists _, _. split; [vm_compute; reflexivity|]. by vm_compute.
Qed.

Lemma fill_gaps_one_row_per_cell_witness :
  getitem ex_week2 "store" = Ok [int_cell 1; int_cell 2] /\
  getitem ex_week2 "brand" = Ok [int_cell 1; int_cell 1] /\
  getitem ex_week2 "week" = Ok [int_cell 2; int_cell 2] /\
  NoDup (row_keys [[int_cell 1; int_cell 2]; [int_cell 1; int_cell 1];
                   [int_cell 2; int_cell 2]] (nrows ex_week2)) /\
  exists out, fill_gaps ex_week2 1 3 = Ok out /\ nrows out = 6%nat.
Proof.
  assert (getitem ex_week2 "store" = Ok [int_cell 1; int_cell 2]) as Hs
    by reflexivity.
  assert (getitem ex_week2 "brand" = Ok [int_cell 1; int_cell 1]) as Hb
    by reflexivity.
  assert (getitem ex_week2 "week" = Ok [int_cell 2; int_cell 2]) as Hw
    by reflexivity.
  assert (NoDup (row_keys [[int_cell 1; int_cell 2]; [int_cell 1; int_cell 1];
                           [int_cell 2; int_cell 2]] (nrows ex_week2))) as Hnd.
  { apply (bool_decide_unpack _). vm_compute. exact Logic.I. }
  split; [exact Hs|]. split; [exact Hb|]. split; [exact Hw|].
  split; [exact Hnd|].
  destruct (proj1 fill_gaps_one_row_per_cell ex_week2 1 3 _ _ _ Hs Hb Hw Hnd)
    as (out & S & B & W & E & N & _).
  exists out. split; [exact E|exact N].
Defined.

End grid_claims.
Section price_claims.

Lemma omap_id_Some {X} (qs : list X) : omap id (Some <$> qs) = qs.
Proof. induction qs as [|q qs IH]; [done|]. simpl. f_equal. exact IH. Qed.

(** C7, the claim fails on a row without aux data: row 2 of the example
    grid is the cell (store 2, brand 1, week 3), its eleven prices are null,
    and [avg_price] is 0 there, not null. *)
Lemma avg_price_of_missing_prices :
  ex_grid = Ok ex_grid_table /\
  price_features ex_grid_table = Ok ex_priced /\
  row_key (columns ex_grid_table).*2 2
    = [int_cell 2; int_cell 1; int_cell 3] ++ replicate 16 None /\
  Forall (fun c => exists col, getitem ex_grid_table c = Ok col /\ at_row col 2 = None)
    price_cols /\
  (exists avg, getitem ex_priced "avg_price" = Ok avg /\
     at_row avg 2 = Some (VFloat (0 # 11))).
Proof.
  split; [by vm_compute|]. split; [by vm_compute|]. split; [by vm_compute|].
  split.
  - unfold price_cols. repeat constructor; eexists; split; by vm_compute.
  - eexists. split; by vm_compute.
Qed.

(** C7 as amended: in every row of the expanded table [price] is the value
    of the price column selected by the row's brand number and [avg_price]
    is the sum [a] of the values present among price1..price11 divided by 11
    (the average of the eleven prices when all are present).  [price_ratio]
    is null where [price] is null; where [price] is a number [p] it is
    [p / avg_price] when [avg_price] is not 0, and null when [avg_price] and
    [p] are both 0. *)
Theorem price_features_rows (all_df out : Table) :
  price_features all_df = Ok out ->
  exists price avg_price price_ratio,
    getitem out "price" = Ok price /\
    getitem out "avg_price" = Ok avg_price /\
    getitem out "price_ratio" = Ok price_ratio /\
    forall i, (i < nrows all_df)%nat ->
      (exists brand b col,
         getitem all_df "brand" = Ok brand /\
         py_int (at_row brand i) = Ok b /\
         getitem all_df ("price" +:+ str b) = Ok col /\
         at_row price i = at_row col i) /\
      exists ps,
        Forall2 (fun c x => exists col, getitem all_df c = Ok col /\
                               cell_float (at_row col i) = Ok x) price_cols ps /\
        at_row avg_price i = Some (VFloat (foldr Qplus 0%Q (omap id ps) / 11)) /\
        (forall qs, ps = Some <$> qs ->
           at_row avg_price i = Some (VFloat (foldr Qplus 0%Q qs / 11))) /\
        match at_row price i with
        | None => at_row price_ratio i = None
        | Some x =>
            exists p, to_float x = Ok p /\
              (~ (foldr Qplus 0%Q (omap id ps) / 11 == 0)%Q ->
               at_row price_ratio i
               = Some (VFloat (p / (foldr Qplus 0%Q (omap id ps) / 11)))) /\
              ((foldr Qplus 0%Q (omap id ps) / 11 == 0)%Q -> (p == 0)%Q ->
               at_row price_ratio i = None)
        end.
Proof.
  intros H. destruct (price_features_inv all_df out H)
    as (price & avg & ratio & Hp & Ha & Hr & Hrows).
  exists price, avg, ratio. do 3 (split; [done|]).
  intros i Hi. destruct (Hrows i Hi) as (Hb & (ps & Hps & Hav) & Hd).
  split; [done|].
  exists ps. split; [done|]. change (Qsum (omap id ps)) with
    (foldr Qplus 0%Q (omap id ps)) in Hav.
  split; [done|]. split.
  { intros qs ->. by rewrite omap_id_Some in Hav. }
  rewrite Hav in Hd. unfold truediv in Hd.
  destruct (at_row price i) as [x|]; [|by injection Hd].
  destruct (to_float x) as [p|e] eqn:Hx; [|done].
  exists p. split; [done|]. cbn in Hd.
  destruct (Qeq_bool _ 0) eqn:Hz.
  - apply Qeq_bool_iff in Hz. injection Hd as <-. split; [intros Hnz; by destruct Hnz|done].
  - apply Qeq_bool_neq in Hz. injection Hd as <-. split; [done|intros Hz'; by destruct Hz].
Qed.

Lemma price_features_rows_witness :
  price_features ex_grid_table = Ok ex_priced /\
  exists price avg_price price_ratio,
    getitem ex_priced "price" = Ok price /\
    getitem ex_priced "avg_price" = Ok avg_price /\
    getitem ex_priced "price_ratio" = Ok price_ratio /\
    at_row price 0 = Some (VFloat 1) /\
    at_row avg_price 0 = Some (VFloat (66 # 11)) /\
    at_row price_ratio 0 = Some (VFloat (11 # 66)).
Proof.
  assert (price_features ex_grid_table = Ok ex_priced) as H by (by vm_compute).
  split; [exact H|].
  destruct (price_features_rows ex_grid_table ex_priced H)
    as (price & avg & ratio & Hp & Ha & Hr & _).
  exists price, avg, ratio. do 3 (split; [done|]).
  assert (getitem ex_priced "price" = Ok (default [] (assoc "price" (columns ex_priced))))
    as Hp' by reflexivity.
  assert (getitem ex_priced "avg_price"
          = Ok (default [] (assoc "avg_price" (columns ex_priced)))) as Ha' by reflexivity.
  assert (getitem ex_priced "price_ratio"
          = Ok (default [] (assoc "price_ratio" (columns ex_priced)))) as Hr' by reflexivity.
  rewrite Hp in Hp'. rewrite Ha in Ha'. rewrite Hr in Hr'.
  injection Hp' as ->. injection Ha' as ->. injection Hr' as ->.
  split; [|split]; by vm_compute.
Defined.

End price_claims.

Section round_claims.

(** C3, the listed columns are not all of the output: the table written for
    the example round also has the columns [year], [month] and [day]. *)
Lemma feature_round_writes_year_month_day :
  feature_round ex_round_exp ex_bs ex_train ex_aux 1 = Ok ex_output /\
  names ex_output <> listed_cols /\
  Forall (fun c => c ∈ names ex_output /\ c ∉ listed_cols) ["year"; "month"; "day"].
Proof.
  split; [by vm_compute|]. split; [by vm_compute|].
  repeat constructor; by apply (bool_decide_unpack _); vm_compute.
Qed.

(** C3 as amended: for an aux file with the columns store, brand, week,
    price1..price11, deal, feat and a store and a brand in every row, the
    table written for a round has exactly the columns store, brand, week,
    profit, move, logmove, price1..price11, deal, feat, price, avg_price,
    price_ratio, week_start, week_of_month, year, month, day, move_lag2,
    move_lag3, move_lag4, move_mean10, in this order. *)
Theorem feature_round_columns round_exp bs (train_df aux_df : Table) n out :
  names aux_df = aux_cols -> keyed aux_df ->
  feature_round round_exp bs train_df aux_df n = Ok out ->
  names out = output_cols.
Proof.
  intros Haux Hk H. unfold feature_round in H.
  apply bind_Ok in H as (t1 & Ht1 & H).
  apply bind_Ok in H as (a0 & Ha0 & H).
  apply bind_Ok in H as (last_week & _ & H).
  apply bind_Ok in H as (g & Hg & H).
  apply bind_Ok in H as (p & Hp & H).
  apply bind_Ok in H as (c & Hc & H).
  pose proof (merge_right_keyed _ _ _ _ _ Ht1 Ha0 Hk) as Hk0.
  pose proof (merge_names_spec _ _ _ _ _ Ha0) as Hn0.
  apply calculate_move_inv in Ht1 as (v1 & v2 & v3 & v4 & v5 & v6 & ->).
  rewrite Haux in Hn0.
  assert (names a0 = sales_cols ++ price_cols ++ ["deal"; "feat"]) as Hna0
    by (rewrite Hn0; by vm_compute).
  destruct (fill_gaps_keyed _ _ _ _ Hg Hk0) as [Hkg Hng].
  rewrite Hna0 in Hng.
  assert (names g = sales_cols ++ price_cols ++ ["deal"; "feat"]) as Hng'
    by (rewrite Hng; by vm_compute).
  destruct (price_features_shape _ _ Hp) as (Hrows & price & avg & ratio & ->).
  destruct (calendar_features_shape _ _ _ Hc) as (ws & wom & y & m & d & ->).
  rewrite (lag_features_names _ _ H).
  - pose proof Hng' as N.
    apply (names_setitem_new _ "price" price) in N; [|apply (bool_decide_unpack _); by vm_compute].
    apply (names_setitem_new _ "avg_price" avg) in N; [|apply (bool_decide_unpack _); by vm_compute].
    apply (names_setitem_new _ "price_ratio" ratio) in N; [|apply (bool_decide_unpack _); by vm_compute].
    apply (names_setitem_new _ "week_start" ws) in N; [|apply (bool_decide_unpack _); by vm_compute].
    apply (names_setitem_new _ "week_of_month" wom) in N; [|apply (bool_decide_unpack _); by vm_compute].
    apply (names_setitem_new _ "year" y) in N; [|apply (bool_decide_unpack _); by vm_compute].
    apply (names_setitem_new _ "month" m) in N; [|apply (bool_decide_unpack _); by vm_compute].
    apply (names_setitem_new _ "day" d) in N; [|apply (bool_decide_unpack _); by vm_compute].
    rewrite N. by vm_compute.
  - repeat (apply keyed_setitem; [discriminate|discriminate|]). exact Hkg.
  - exact Hrows.
Qed.

Lemma feature_round_columns_witness :
  names ex_aux = aux_cols /\ keyed ex_aux /\
  feature_round ex_round_exp ex_bs ex_train ex_aux 1 = Ok ex_output /\
  names ex_output = output_cols.
Proof.
  assert (names ex_aux = aux_cols) as Hn by (by vm_compute).
  assert (keyed ex_aux) as Hk.
  { eexists _, _. split; [by vm_compute|]. split; [by vm_compute|].
    split; [by vm_compute|]. split; [by vm_compute|].
    split; repeat constructor; by eexists. }
  assert (feature_round ex_round_exp ex_bs ex_train ex_aux 1 = Ok ex_output) as H
    by (by vm_compute).
  split; [exact Hn|]. split; [exact Hk|]. split; [exact H|].
  exact (feature_round_columns ex_round_exp ex_bs ex_train ex_aux 1 ex_output
           Hn Hk H).
Defined.

(** C2, the fill is not per group: in the sorted example table rows 0-2
    are store 1 and rows 3-5 store 2; the only sale of store 2 is 7, yet its
    week 1 is filled with 20, the sale of store 1, and that value reaches
    the lag feature of store 2 in the table written for the round. *)
Lemma fill_sales_crosses_groups :
  getitem ex_sorted "store"
    = Ok [int_cell 1; int_cell 1; int_cell 1; int_cell 2; int_cell 2; int_cell 2] /\
  getitem ex_sorted "move"
    = Ok [None; int_cell 20; None; None; int_cell 7; None] /\
  (exists filled, fill_sales ex_sorted = Ok filled /\
     getitem filled "move"
       = Ok [int_cell 20; int_cell 20; int_cell 20; int_cell 20; int_cell 7;
             int_cell 7]) /\
  getitem ex_output "store"
    = Ok [int_cell 1; int_cell 1; int_cell 1; int_cell 2; int_cell 2; int_cell 2] /\
  getitem ex_output "move_lag2"
    = Ok [None; None; float_cell 20; None; None; float_cell 20].
Proof.
  split; [by vm_compute|]. split; [by vm_compute|].
  split; [eexists; split; by vm_compute|].
  split; by vm_compute.
Qed.

End round_claims.

Section utility_extras.

Implicit Types (h : heap) (d : DataFrame Q) (df r : ref).

Lemma shift_values_lookup_neg {A} k (l : list (option A)) i :
  k < 0 -> (i < length l)%nat ->
  shift_values k l !! i
  = if decide (i + Z.to_nat (- k) < length l)%nat
    then l !! (i + Z.to_nat (- k))%nat else Some None.
Proof.
  intros Hk Hi. unfold shift_values.
  destruct (0 <=? k) eqn:E; [lia|]. set (n := Z.to_nat (- k)).
  case_decide.
  - rewrite lookup_app_l by (rewrite length_drop; lia).
    rewrite lookup_drop. f_equal. lia.
  - rewrite lookup_app_r by (rewrite length_drop; lia).
    apply lookup_replicate_2. rewrite length_drop. lia.
Qed.

Lemma yields_lag_frame h df d k :
  h !! df = Some d -> wf d -> - 2 ^ 63 <= k < 2 ^ 63 ->
  yields (lagged_features df [k]) h (lag_frame k d).
Proof.
  intros Hdf Hw Hk.
  pose proof (lagged_features_yields h df d [k] Hdf Hw ltac:(done)
                (shift_all_fit [k] d ltac:(by constructor))) as Y.
  cbn [mbind list_bind] in Y. rewrite app_nil_r in Y.
  assert (mkDF (nrows d) (columns (lag_frame k d)) = lag_frame k d) as E by done.
  by rewrite E in Y.
Qed.

Lemma lag_frame_column k d j c v :
  columns d !! j = Some (c, v) ->
  columns (lag_frame k d) !! j = Some (c +:+ "_lag" +:+ str k, shift_values k v).
Proof.
  intros Hj. unfold lag_frame, df_rename, df_shift. simpl.
  by rewrite !list_lookup_fmap, Hj.
Qed.

(** X1: a negative lag that is a machine integer is a lead: the values
    move up by [-k] rows, row [i] holds the input's row [i + (-k)], and the
    last [-k] rows are null; the column is renamed with the sign, as in
    [move_lag-1]. *)
Theorem lagged_features_negative_lag h df d k :
  h !! df = Some d -> wf d -> - 2 ^ 63 <= k < 0 ->
  exists fea, yields (lagged_features df [k]) h fea /\
    nrows fea = nrows d /\
    forall j c v, columns d !! j = Some (c, v) ->
      exists v', columns fea !! j = Some (c +:+ "_lag-" +:+ str (- k), v') /\
        length v' = length v /\
        forall i, (i < length v)%nat ->
          v' !! i = if decide (i + Z.to_nat (- k) < length v)%nat
                    then v !! (i + Z.to_nat (- k))%nat else Some None.
Proof.
  intros Hdf Hw Hk. exists (lag_frame k d).
  split; [apply yields_lag_frame; [done..|lia]|]. split; [done|].
  intros j c v Hj. exists (shift_values k v). split.
  - rewrite (lag_frame_column _ _ _ _ _ Hj). do 3 f_equal.
    destruct k as [|p|p]; try lia. reflexivity.
  - split; [apply shift_values_length|].
    intros i Hi. apply shift_values_lookup_neg; [lia|done].
Qed.

Lemma lagged_features_negative_lag_witness :
  ex_heap !! the_df = Some ex_sales /\ wf ex_sales /\ - 2 ^ 63 <= -1 < 0 /\
  exists fea, yields (lagged_features the_df [-1]) ex_heap fea /\
    columns fea
    = [("move_lag-1", [None; Some 30%Q; Some 50%Q; None]);
       ("price_lag-1", [Some 2%Q; Some 3%Q; None; None])].
Proof.
  split; [exact ex_heap_lookup|]. split; [exact ex_sales_wf|]. split; [lia|].
  destruct (lagged_features_negative_lag ex_heap the_df ex_sales (-1)
              ex_heap_lookup ex_sales_wf ltac:(lia)) as (fea & Y & _).
  exists fea. split; [exact Y|].
  assert (yields (lagged_features the_df [-1]) ex_heap (lag_frame (-1) ex_sales)) as Y'
    by (apply yields_lag_frame; [exact ex_heap_lookup|exact ex_sales_wf|lia]).
  by rewrite (yields_det _ _ _ _ Y Y').
Defined.

Lemma wf_concat_lags d lags :
  wf d -> wf (mkDF (nrows d) (lags ≫= fun k => columns (lag_frame k d))).
Proof.
  intros Hw. unfold wf. cbn [nrows columns].
  apply Forall_forall. intros x Hx.
  apply list_elem_of_bind in Hx as (k & Hx & _).
  pose proof (lag_frame_wf k d Hw) as Hk. unfold wf in Hk.
  rewrite Forall_forall in Hk. by apply Hk.
Qed.

Lemma names_concat_lags d lags :
  (lags ≫= fun k => columns (lag_frame k d)).*1
  = lags ≫= fun k => (fun x => x +:+ "_lag" +:+ str k) <$> names d.
Proof.
  induction lags as [|k lags IH]; [done|].
  cbn [mbind list_bind]. rewrite fmap_app, IH. f_equal.
  apply names_lag_frame.
Qed.

(** X2: with at least one lag, all lags machine integers, the result has
    one column for every pair of a lag and an input column, lag by lag in
    list order (a lag listed twice gives its columns twice), each named
    [<column>_lag<lag>] and each as long as the input table. *)
Theorem lagged_features_columns h df d lags :
  h !! df = Some d -> wf d -> lags <> [] ->
  Forall (fun k => - 2 ^ 63 <= k < 2 ^ 63) lags ->
  exists fea, yields (lagged_features df lags) h fea /\
    wf fea /\ nrows fea = nrows d /\
    names fea = (lags ≫= fun k => (fun x => x +:+ "_lag" +:+ str k) <$> names d) /\
    length (columns fea) = (length lags * length (columns d))%nat.
Proof.
  intros Hdf Hw Hne Hfit. eexists.
  split; [apply lagged_features_yields; [done..|by apply shift_all_fit]|].
  split; [by apply wf_concat_lags|]. split; [done|].
  split; [apply names_concat_lags|]. cbn [columns].
  apply length_bind_const. intros k.
  unfold lag_frame, df_rename, df_shift. cbn [columns].
  by rewrite !length_fmap.
Qed.

Lemma lagged_features_columns_witness :
  ex_heap !! the_df = Some ex_sales /\ wf ex_sales /\
  exists fea, yields (lagged_features the_df [2; 3; 2]) ex_heap fea /\
    names fea = ["move_lag2"; "price_lag2"; "move_lag3"; "price_lag3";
                 "move_lag2"; "price_lag2"].
Proof.
  split; [exact ex_heap_lookup|]. split; [exact ex_sales_wf|].
  destruct (lagged_features_columns ex_heap the_df ex_sales [2; 3; 2]
              ex_heap_lookup ex_sales_wf ltac:(discriminate)
              ltac:(repeat constructor; lia))
    as (fea & Y & _ & _ & N & _).
  exists fea. split; [exact Y|exact N].
Defined.

Lemma shift_values_all_null {A} k (l : list (option A)) :
  (length l <= Z.abs_nat k)%nat ->
  shift_values k l = replicate (length l) None.
Proof.
  intros H. unfold shift_values. destruct (0 <=? k) eqn:E.
  - rewrite take_app_le by (rewrite length_replicate; lia).
    rewrite take_replicate. f_equal. lia.
  - rewrite drop_ge by lia. simpl. f_equal. lia.
Qed.

(** X3: a lag at least as long as the table (in either direction) leaves
    no value: as long as the lag is a machine integer every cell of the
    result is null; a lag that is none raises an [OverflowError] on a table
    with at least one cell. *)
Theorem lagged_features_long_lag h df d k :
  h !! df = Some d -> wf d ->
  ((nrows d <= Z.abs_nat k)%nat -> - 2 ^ 63 <= k < 2 ^ 63 ->
   exists fea, yields (lagged_features df [k]) h fea /\
     nrows fea = nrows d /\ length (columns fea) = length (columns d) /\
     forall c v, (c, v) ∈ columns fea -> v = replicate (nrows d) None) /\
  (~ (- 2 ^ 63 <= k < 2 ^ 63) -> nrows d <> 0%nat -> columns d <> [] ->
   lagged_features df [k] h = Err OverflowError).
Proof.
  intros Hdf Hw. split.
  2:{ intros Hk Hn Hc. apply (lagged_features_overflow _ _ d _ Hdf).
      left. by apply shift_overflows_spec. }
  intros Hk Hfit. exists (lag_frame k d).
  split; [by apply yields_lag_frame|]. split; [done|].
  split; [unfold lag_frame, df_rename, df_shift; cbn [columns];
          by rewrite !length_fmap|].
  intros c v Hin. unfold lag_frame, df_rename, df_shift in Hin. cbn [columns] in Hin.
  rewrite <- list_fmap_compose in Hin.
  apply list_elem_of_fmap in Hin as ([c0 v0] & [= -> ->] & Hin).
  unfold wf in Hw. rewrite Forall_forall in Hw. specialize (Hw _ Hin).
  simpl in *. rewrite shift_values_all_null by lia. by rewrite Hw.
Qed.

Lemma lagged_features_long_lag_witness :
  ex_heap !! the_df = Some ex_sales /\ wf ex_sales /\
  (nrows ex_sales <= Z.abs_nat 4)%nat /\ - 2 ^ 63 <= 4 < 2 ^ 63 /\
  exists fea, yields (lagged_features the_df [4]) ex_heap fea /\
    nrows fea = 4%nat /\ length (columns fea) = 2%nat /\
    forall c v, (c, v) ∈ columns fea -> v = [None; None; None; None].
Proof.
  split; [exact ex_heap_lookup|]. split; [exact ex_sales_wf|].
  split; [simpl; lia|]. split; [lia|].
  exact (proj1 (lagged_features_long_lag ex_heap the_df ex_sales 4
                  ex_heap_lookup ex_sales_wf) ltac:(simpl; lia) ltac:(lia)).
Defined.

(** *** Moving averages *)


Lemma window_shift_early (w i s : nat) (l : list (option Q)) :
  (i < length l)%nat -> (i < s)%nat ->
  omap id (window_at w i (shift_values (Z.of_nat s) l)) = [].
Proof.
  intros Hi Hs. unfold window_at, shift_values.
  destruct (0 <=? Z.of_nat s) eqn:E; [|lia]. rewrite Nat2Z.id.
  rewrite take_take, Nat.min_l by lia.
  rewrite take_app_le by (rewrite length_replicate; lia).
  rewrite take_replicate, drop_replicate.
  rewrite <- (app_nil_r (replicate _ _)). by rewrite omap_id_nulls.
Qed.

Lemma window_shift_late (w i s : nat) (l : list (option Q)) :
  (i < length l)%nat -> (s <= i)%nat ->
  omap id (window_at w i (shift_values (Z.of_nat s) l))
  = omap id (window_at w (i - s) l).
Proof.
  intros Hi Hs. unfold window_at, shift_values.
  destruct (0 <=? Z.of_nat s) eqn:E; [|lia]. rewrite Nat2Z.id.
  rewrite take_take, Nat.min_l by lia.
  rewrite take_app_ge by (rewrite length_replicate; lia).
  rewrite length_replicate. replace (S i - s)%nat with (S (i - s)) by lia.
  destruct (decide (S i - w <= s)%nat).
  - rewrite drop_app_le by (rewrite length_replicate; lia).
    rewrite drop_replicate, omap_id_nulls.
    by replace (S (i - s) - w)%nat with 0%nat by lia.
  - rewrite drop_app_ge by (rewrite length_replicate; lia).
    rewrite length_replicate. do 2 f_equal. lia.
Qed.

(** X4: for a start step [0 <= s < 2^63] and a window [1 <= w < 2^63] the
    feature of row [i] looks at past rows only: it is the sum of the values
    present among the (at most [w]) input rows that end at row [i - s],
    divided by their number, and null if there is no such value; so the
    first [s] rows are null. *)
Theorem moving_averages_past_only h df d s w :
  h !! df = Some d -> 0 <= s < 2 ^ 63 -> 0 < w < 2 ^ 63 ->
  exists fea, yields (moving_averages df s (Some w)) h fea /\
    nrows fea = nrows d /\
    forall j c v, columns d !! j = Some (c, v) ->
      exists v', columns fea !! j = Some (c +:+ "_mean" +:+ str w, v') /\
        length v' = length v /\
        forall i, (i < length v)%nat ->
          (i < Z.to_nat s -> v' !! i = Some None)%nat /\
          v' !! i
          = Some match omap id (drop (S i - Z.to_nat s - Z.to_nat w)
                                  (take (S i - Z.to_nat s) v)) with
                 | [] => None
                 | obs => Some (foldr Qplus 0%Q obs
                                / inject_Z (Z.of_nat (length obs)))%Q
                 end.
Proof.
  intros Hdf Hs Hw. eexists.
  split; [apply moving_averages_frame; [done|apply shift_fits; lia|lia]|].
  split; [done|]. intros j c v Hj. eexists. split.
  { cbn [columns]. rewrite list_lookup_fmap, Hj. reflexivity. }
  cbn [snd]. split; [by rewrite rolling_mean_values_length, shift_values_length|].
  intros i Hi.
  rewrite rolling_mean_values_lookup by (by rewrite shift_values_length).
  assert (omap id (window_at (Z.to_nat w) i (shift_values s v))
          = omap id (drop (S i - Z.to_nat s - Z.to_nat w)
                       (take (S i - Z.to_nat s) v))) as Eobs.
  { rewrite <- (Z2Nat.id s) at 1 by lia.
    destruct (decide (i < Z.to_nat s)%nat) as [Hlt|Hge].
    - rewrite window_shift_early by done.
      replace (S i - Z.to_nat s)%nat with 0%nat by lia.
      by rewrite take_0, drop_nil.
    - rewrite window_shift_late by (done || lia). unfold window_at.
      by replace (S (i - Z.to_nat s)) with (S i - Z.to_nat s)%nat by lia. }
  rewrite mean_obs_explicit, Eobs. split; [|done].
  intros Hlt. replace (S i - Z.to_nat s)%nat with 0%nat by lia.
  by rewrite take_0, drop_nil.
Qed.

Lemma moving_averages_past_only_witness :
  ex_heap !! the_df = Some ex_sales /\ 0 <= 2 < 2 ^ 63 /\ 0 < 10 < 2 ^ 63 /\
  exists fea, yields (moving_averages the_df 2 (Some 10)) ex_heap fea /\
    nrows fea = 4%nat /\
    exists v', columns fea !! 0%nat = Some ("move_mean10", v') /\
      v' !! 0%nat = Some None /\ v' !! 1%nat = Some None /\
      v' !! 2%nat = Some (Some (10 # 1)%Q) /\ v' !! 3%nat = Some (Some (10 # 1)%Q).
Proof.
  split; [exact ex_heap_lookup|]. split; [lia|]. split; [lia|].
  destruct (moving_averages_past_only ex_heap the_df ex_sales 2 10
              ex_heap_lookup ltac:(lia) ltac:(lia)) as (fea & Y & N & V).
  exists fea. split; [exact Y|]. split; [exact N|].
  destruct (V 0%nat "move" _ eq_refl) as (v' & Hv' & _ & Hrow).
  exists v'. split; [exact Hv'|].
  split; [exact (proj2 (Hrow 0%nat ltac:(simpl; lia)))|].
  split; [exact (proj2 (Hrow 1%nat ltac:(simpl; lia)))|].
  split; [exact (proj2 (Hrow 2%nat ltac:(simpl; lia)))
         |exact (proj2 (Hrow 3%nat ltac:(simpl; lia)))].
Defined.

(** X6: a window below 1 is rejected: when the start step is a machine
    integer the rolling window with [min_periods=1] raises a [ValueError] and
    no feature table is returned; when it is none, the shift before it raises
    an [OverflowError] on a table with at least one cell. *)
Theorem moving_averages_rejects_empty_window h df d s w :
  h !! df = Some d -> w <= 0 ->
  (- 2 ^ 63 <= s < 2 ^ 63 -> moving_averages df s (Some w) h = Err ValueError) /\
  (~ (- 2 ^ 63 <= s < 2 ^ 63) -> nrows d <> 0%nat -> columns d <> [] ->
   moving_averages df s (Some w) h = Err OverflowError).
Proof.
  intros Hdf Hw. split.
  - intros Hs.
    pose proof (moving_averages_run h df d s (Some w) Hdf (shift_fits _ _ Hs)) as R.
    change (default (Z.of_nat (nrows d)) (Some w)) with w in R.
    assert (df_rolling_mean 1 w (df_shift s d) = Err ValueError) as E.
    { unfold df_rolling_mean. destruct (w <? 0) eqn:E1; [done|].
      change (1 <? 0) with false. cbv iota.
      destruct (w <? 1) eqn:E2; [done|]. apply Z.ltb_ge in E2. lia. }
    by rewrite E in R.
  - intros Hs Hn Hc. apply (moving_averages_overflow _ _ d _ _ Hdf).
    by apply shift_overflows_spec.
Qed.

Lemma moving_averages_rejects_empty_window_witness :
  ex_heap !! the_df = Some ex_sales /\ 0 <= 0 /\ - 2 ^ 63 <= 2 < 2 ^ 63 /\
  moving_averages the_df 2 (Some 0) ex_heap = Err ValueError.
Proof.
  split; [exact ex_heap_lookup|]. split; [lia|]. split; [lia|].
  exact (proj1 (moving_averages_rejects_empty_window ex_heap the_df ex_sales 2 0
                  ex_heap_lookup ltac:(lia)) ltac:(lia)).
Defined.

End utility_extras.

Section calendar_extras.

Lemma weekday_of_day (y m d : Z) :
  weekday (mkDate y m d) = (weekday (mkDate y m 1) + d - 1) mod 7.
Proof.
  unfold weekday, toordinal, ymd2ord. simpl.
  set (a := days_before_year y + days_before_month y m).
  clearbody a. Z.div_mod_to_equations. lia.
Qed.

Lemma valid_previous_day (dt : date) :
  valid_date dt -> 1 < day dt ->
  valid_date (mkDate (year dt) (month dt) (day dt - 1)).
Proof.
  unfold valid_date, valid_fields. simpl. intros H Hd.
  repeat (apply andb_prop in H; destruct H as [H ?]).
  repeat (apply andb_true_intro; split); try done; lia.
Qed.

(** X7: the weeks of [week_of_month] run from Monday to Sunday: the first
    day of a month is in week 1, and from one day to the next of the same
    month the week goes up by one exactly when the later day is a Monday. *)
Theorem week_of_month_steps_on_monday (dt : date) :
  valid_date dt ->
  (day dt = 1 -> week_of_month dt = Ok 1) /\
  (1 < day dt ->
   exists w,
     week_of_month (mkDate (year dt) (month dt) (day dt - 1)) = Ok w /\
     week_of_month dt = Ok (if weekday dt =? 0 then w + 1 else w)).
Proof.
  intros Hv. pose proof (weekday_range (mkDate (year dt) (month dt) 1)) as HF.
  rewrite (week_of_month_eq dt Hv). split.
  - intros ->. f_equal. Z.div_mod_to_equations. lia.
  - intros Hd. eexists. split.
    + apply week_of_month_eq. by apply valid_previous_day.
    + cbn [year month day]. f_equal.
      destruct dt as [y m d]. cbn [year month day] in *.
      rewrite (weekday_of_day y m d).
      destruct (Z.eqb_spec ((weekday (mkDate y m 1) + d - 1) mod 7) 0) as [E|E];
        revert E; Z.div_mod_to_equations; lia.
Qed.

Lemma week_of_month_steps_on_monday_witness :
  valid_date (mkDate 1989 9 18) /\ 1 < day (mkDate 1989 9 18) /\
  weekday (mkDate 1989 9 18) = 0 /\
  week_of_month (mkDate 1989 9 17) = Ok 3 /\
  week_of_month (mkDate 1989 9 18) = Ok 4.
Proof.
  assert (valid_date (mkDate 1989 9 18)) as V by reflexivity.
  split; [exact V|]. split; [simpl; lia|]. split; [reflexivity|].
  destruct (proj2 (week_of_month_steps_on_monday (mkDate 1989 9 18) V)
              ltac:(simpl; lia)) as (w & E1 & E2).
  assert (w = 3) as -> by (vm_compute in E1; congruence).
  split; [exact E1|]. exact E2.
Defined.

End calendar_extras.

Section fill_extras.

Context {A : Type}.
Implicit Types (l : list (option A)) (x : A).

Lemma ffill_from_length last l : length (ffill_from last l) = length l.
Proof.
  revert last. induction l as [|[y|] l IH]; intros last; simpl; by rewrite ?IH.
Qed.

Lemma bfill_length l : length (bfill l) = length l.
Proof. induction l as [|[y|] l IH]; simpl; by rewrite ?IH. Qed.

Lemma ffill_from_keeps last l i x :
  l !! i = Some (Some x) -> ffill_from last l !! i = Some (Some x).
Proof.
  revert last i. induction l as [|[y|] l IH]; intros last [|i] H; simpl in *;
    try done; by apply IH.
Qed.

Lemma bfill_keeps l i x : l !! i = Some (Some x) -> bfill l !! i = Some (Some x).
Proof.
  revert i. induction l as [|[y|] l IH]; intros [|i] H; simpl in *;
    try done; by apply IH.
Qed.

Lemma ffill_from_elem last l x :
  Some x ∈ ffill_from last l -> Some x = last \/ Some x ∈ l.
Proof.
  revert last. induction l as [|[y|] l IH]; intros last H; simpl in *.
  - by apply not_elem_of_nil in H.
  - apply elem_of_cons in H as [H|H]; [right; rewrite H; left|].
    apply IH in H as [H|H]; right; [rewrite H; left|by right].
  - apply elem_of_cons in H as [H|H]; [by left|].
    apply IH in H as [H|H]; [by left|right; by right].
Qed.

Lemma bfill_elem l x : Some x ∈ bfill l -> Some x ∈ l.
Proof.
  induction l as [|[y|] l IH]; intros H; simpl in *.
  - by apply not_elem_of_nil in H.
  - apply elem_of_cons in H as [H|H]; [rewrite H; left|right; by apply IH].
  - right. apply IH. apply elem_of_cons in H as [H|H]; [|done].
    destruct (bfill l) as [|z r]; [done|]. simpl in H. rewrite H. left.
Qed.

Lemma ffill_from_Some y l : Forall is_Some (ffill_from (Some y) l).
Proof.
  revert y. induction l as [|[z|] l IH]; intros y; simpl; [done|..];
    constructor; eauto.
Qed.

Lemma bfill_leading n l :
  Forall is_Some l -> l <> [] ->
  bfill (replicate n None ++ l) = replicate n (default None (head l)) ++ l.
Proof.
  intros F Hne. induction n as [|n IH]; simpl.
  - by apply bfill_id.
  - rewrite IH. f_equal. destruct n; [|done]. simpl. by destruct l.
Qed.

Lemma ffill_leading n l :
  ffill (replicate n None ++ l) = replicate n None ++ ffill l.
Proof. unfold ffill. induction n as [|n IH]; simpl; by rewrite ?IH. Qed.

Lemma ffill_split l :
  Exists is_Some l ->
  exists n y t, l = replicate n None ++ Some y :: t.
Proof.
  induction 1 as [[y|] l [z Hz]|[y|] l _ IH]; try done.
  - by exists 0%nat, y, l.
  - by exists 0%nat, y, l.
  - destruct IH as (n & z & t & ->). by exists (S n), z, t.
Qed.

Lemma fill_no_null l : Exists is_Some l -> Forall is_Some (bfill (ffill l)).
Proof.
  intros H. apply ffill_split in H as (n & y & t & ->).
  rewrite ffill_leading. unfold ffill. simpl.
  assert (Forall is_Some (Some y :: ffill_from (Some y) t)) as F
    by (constructor; [eauto|apply ffill_from_Some]).
  rewrite bfill_leading by done. simpl.
  apply Forall_app. split; [|done]. apply Forall_replicate. eauto.
Qed.

Lemma ffill_from_nulls last k l :
  ffill_from last (replicate k None ++ l) = replicate k last ++ ffill_from last l.
Proof. induction k as [|k IH]; simpl; by rewrite ?IH. Qed.

Lemma ffill_from_forward last a x k b i :
  (length a <= i <= length a + k)%nat ->
  ffill_from last (a ++ Some x :: replicate k None ++ b) !! i = Some (Some x).
Proof.
  revert i last. induction a as [|y a IH]; intros i last Hi.
  - change (ffill_from last ([] ++ Some x :: replicate k None ++ b))
      with (Some x :: ffill_from (Some x) (replicate k None ++ b)).
    destruct i as [|i]; [done|].
    change (ffill_from (Some x) (replicate k None ++ b) !! i = Some (Some x)).
    rewrite ffill_from_nulls, lookup_app_l by (rewrite length_replicate; simpl in Hi; lia).
    apply lookup_replicate_2. simpl in Hi. lia.
  - destruct i as [|i]; [simpl in Hi; lia|].
    destruct y as [y|]; simpl; apply IH; simpl in Hi; lia.
Qed.

(** After a value, the nulls that follow it take that value. *)
Lemma fill_forward a x k b i :
  (length a <= i <= length a + k)%nat ->
  bfill (ffill (a ++ Some x :: replicate k None ++ b)) !! i = Some (Some x).
Proof. intros Hi. by apply bfill_keeps, ffill_from_forward. Qed.

(** Before the first value, the nulls take that value. *)
Lemma fill_backward x k b i :
  (i <= k)%nat ->
  bfill (ffill (replicate k None ++ Some x :: b)) !! i = Some (Some x).
Proof.
  intros Hi. rewrite ffill_leading. unfold ffill. simpl.
  rewrite bfill_leading;
    [|constructor; [eauto|apply ffill_from_Some]|done].
  simpl. destruct (decide (i < k)%nat).
  - rewrite lookup_app_l by (rewrite length_replicate; lia).
    by apply lookup_replicate_2.
  - rewrite lookup_app_r by (rewrite length_replicate; lia).
    rewrite length_replicate. by replace (i - k)%nat with 0%nat by lia.
Qed.

Lemma fill_all_null k : bfill (ffill (replicate k (@None A))) = replicate k None.
Proof.
  rewrite <- (app_nil_r (replicate k None)), ffill_leading. unfold ffill. simpl.
  rewrite app_nil_r. induction k as [|k IH]; [done|]. simpl. rewrite IH.
  by destruct k.
Qed.

End fill_extras.

Section fill_sales_extras.

Lemma fill_sales_columns (t fs : Table) c :
  fill_sales t = Ok fs -> c ∈ ["store"; "brand"; "move"] ->
  exists col, getitem t c = Ok col /\ getitem fs c = Ok (bfill (ffill col)).
Proof.
  unfold fill_sales. intros H Hc.
  apply bind_Ok in H as (sel & Hsel & [= <-]).
  apply select_inv in Hsel as (vs & Hvs & ->).
  apply Forall2_cons_inv_l in Hvs as (s & vs1 & Hs & Hvs & ->).
  apply Forall2_cons_inv_l in Hvs as (b & vs2 & Hb & Hvs & ->).
  apply Forall2_cons_inv_l in Hvs as (m & vs3 & Hm & Hvs & ->).
  apply Forall2_nil_inv_l in Hvs as ->.
  repeat (apply elem_of_cons in Hc as [->|Hc]; [eexists; split; [eassumption|reflexivity]|]).
  by apply not_elem_of_nil in Hc.
Qed.

(** X8: the fill of lines 129-131 works on each of the columns store,
    brand and move as a whole: the column keeps its length and its values,
    every filled value is a value of that column, and a column with at least
    one value has no null left. *)
Theorem fill_sales_leaves_no_null (t fs : Table) c :
  fill_sales t = Ok fs -> c ∈ ["store"; "brand"; "move"] ->
  names fs = ["store"; "brand"; "move"] /\ nrows fs = nrows t /\
  exists col col',
    getitem t c = Ok col /\ getitem fs c = Ok col' /\
    length col' = length col /\
    (forall i x, col !! i = Some (Some x) -> col' !! i = Some (Some x)) /\
    (forall x, Some x ∈ col' -> Some x ∈ col) /\
    (Exists is_Some col -> Forall is_Some col').
Proof.
  intros H Hc. split; [|split].
  - unfold fill_sales in H. apply bind_Ok in H as (sel & Hsel & [= <-]).
    apply names_select in Hsel. rewrite <- Hsel.
    apply (names_fmap_columns (fun x => bfill (ffill x))).
  - unfold fill_sales in H. apply bind_Ok in H as (sel & Hsel & [= <-]).
    by apply select_inv in Hsel as (vs & _ & ->).
  - destruct (fill_sales_columns t fs c H Hc) as (col & H1 & H2).
    exists col, (bfill (ffill col)). do 2 (split; [done|]).
    split; [unfold ffill; by rewrite bfill_length, ffill_from_length|].
    split; [intros i x Hx; by apply bfill_keeps, ffill_from_keeps|].
    split; [|apply fill_no_null].
    intros x Hx. apply bfill_elem, ffill_from_elem in Hx as [Hx|Hx]; done.
Qed.

Lemma fill_sales_leaves_no_null_witness :
  (exists fs, fill_sales ex_sorted = Ok fs /\
     names fs = ["store"; "brand"; "move"]) /\
  "move" ∈ ["store"; "brand"; "move"].
Proof.
  assert ("move" ∈ ["store"; "brand"; "move"]) as Hc
    by (apply (bool_decide_unpack _); by vm_compute).
  split; [|exact Hc]. eexists. split; [by vm_compute|].
  refine (proj1 (fill_sales_leaves_no_null ex_sorted _ "move" _ Hc)).
  by vm_compute.
Defined.

(** X9: which value a null takes: the nulls that follow a value up to the
    next value take that value (forward fill first), and the nulls before
    the first value of the column take that first value (backward fill
    second); a column without any value stays null. *)
Theorem fill_sales_nearest_value (t fs : Table) c col :
  fill_sales t = Ok fs -> c ∈ ["store"; "brand"; "move"] ->
  getitem t c = Ok col ->
  exists col', getitem fs c = Ok col' /\
    (forall a x k b i, col = a ++ Some x :: replicate k None ++ b ->
       (length a <= i <= length a + k)%nat -> col' !! i = Some (Some x)) /\
    (forall x k b i, col = replicate k None ++ Some x :: b ->
       (i <= k)%nat -> col' !! i = Some (Some x)) /\
    (forall k, col = replicate k None -> col' = replicate k None).
Proof.
  intros H Hc Hcol. destruct (fill_sales_columns t fs c H Hc) as (col0 & H1 & H2).
  rewrite Hcol in H1. injection H1 as <-.
  exists (bfill (ffill col)). split; [done|]. split; [|split].
  - intros a x k b i -> Hi. by apply fill_forward.
  - intros x k b i -> Hi. by apply fill_backward.
  - intros k ->. apply fill_all_null.
Qed.

Lemma fill_sales_nearest_value_witness :
  "move" ∈ ["store"; "brand"; "move"] /\
  getitem ex_sorted "move" = Ok [None; int_cell 20; None; None; int_cell 7; None] /\
  exists fs col', fill_sales ex_sorted = Ok fs /\ getitem fs "move" = Ok col' /\
    col' !! 3%nat = Some (int_cell 20).
Proof.
  assert ("move" ∈ ["store"; "brand"; "move"]) as Hc
    by (apply (bool_decide_unpack _); by vm_compute).
  assert (getitem ex_sorted "move"
          = Ok [None; int_cell 20; None; None; int_cell 7; None]) as Hm
    by (by vm_compute).
  split; [exact Hc|]. split; [exact Hm|].
  eexists. 
  assert (fill_sales ex_sorted = Ok (table_of (fill_sales ex_sorted))) as Hf
    by (by vm_compute).
  destruct (fill_sales_nearest_value ex_sorted _ "move" _ Hf Hc Hm)
    as (col' & Hg & Hfw & _).
  exists col'. split; [exact Hf|]. split; [exact Hg|].
  exact (Hfw [None] (VInt 20) 2%nat [int_cell 7; None] 3%nat eq_refl
           ltac:(simpl; lia)).
Defined.

End fill_sales_extras.

Section sort_extras.

Lemma cell_compare_antisym (a b : cell) :
  cell_compare b a = CompOpp (cell_compare a b).
Proof.
  destruct a as [x|], b as [y|]; simpl; try done.
  symmetry. apply Qcompare_antisym.
Qed.

Lemma key_compare_antisym (a b : list cell) :
  key_compare b a = CompOpp (key_compare a b).
Proof.
  revert b. induction a as [|x a IH]; intros [|y b]; simpl; try done.
  rewrite (cell_compare_antisym x y).
  destruct (cell_compare x y); simpl; [apply IH|done..].
Qed.

Lemma key_leb_total (a b : list cell) : key_leb a b = false -> key_leb b a = true.
Proof.
  unfold key_leb. rewrite (key_compare_antisym a b).
  by destruct (key_compare a b).
Qed.

Context {X : Type} (key : X -> list cell).

Lemma ordered_by_cons x l :
  ordered_by key (x :: l) <->
  (forall y, head l = Some y -> key_leb (key x) (key y) = true) /\ ordered_by key l.
Proof.
  unfold ordered_by. split.
  - intros H. split.
    + intros y Hy. apply (H 0%nat x y); [done|]. by destruct l; simplify_eq/=.
    + intros i a b Ha Hb. by apply (H (S i) a b).
  - intros [H1 H2] [|i] a b Ha Hb.
    + injection Ha as <-. apply H1. by destruct l; simplify_eq/=.
    + by apply (H2 i a b).
Qed.

Lemma insert_sorted_head x l :
  head (insert_sorted key x l) = Some x \/
  (head (insert_sorted key x l) = head l /\ exists y, head l = Some y /\
     key_leb (key x) (key y) = false).
Proof.
  destruct l as [|y l]; [by left|]. simpl.
  destruct (key_leb (key x) (key y)) eqn:E; [by left|right; eauto].
Qed.

Lemma insert_sorted_ordered x l :
  ordered_by key l -> ordered_by key (insert_sorted key x l).
Proof.
  induction l as [|y l IH]; intros H.
  - by intros [|i] a b Ha Hb.
  - simpl. destruct (key_leb (key x) (key y)) eqn:E.
    + apply ordered_by_cons. split; [|done]. by intros ? [= <-].
    + apply ordered_by_cons in H as [H1 H2]. apply ordered_by_cons.
      split; [|by apply IH].
      intros z Hz. destruct (insert_sorted_head x l) as [Hx|[Hx _]].
      * rewrite Hx in Hz. injection Hz as <-. by apply key_leb_total.
      * rewrite Hx in Hz. by apply H1.
Qed.

Lemma sort_by_ordered l : ordered_by key (sort_by key l).
Proof.
  induction l as [|x l IH]; [by intros [|i] a b Ha Hb|].
  by apply insert_sorted_ordered.
Qed.

End sort_extras.

Section sort_values_extras.

Lemma getitem_Err {A} (t : DataFrame A) c e : getitem t c = Err e -> e = KeyError.
Proof. unfold getitem. destruct (assoc c (columns t)); by intros [= <-]. Qed.

Lemma mapM_getitem_Err {A} (t : DataFrame A) cs e :
  mapM (getitem t) cs = Err e -> e = KeyError.
Proof.
  induction cs as [|c cs IH]; [done|]. cbn [mapM].
  destruct (getitem t c) as [v|e0] eqn:E.
  - rewrite bind_Ok_l. destruct (mapM (getitem t) cs) as [vs|e1]; [done|].
    intros [= <-]. by apply IH.
  - intros [= <-]. by apply getitem_Err in E.
Qed.

(** X10: [sort_values] keeps the rows and the columns of the table: the
    result holds every row of the input exactly once, ordered so that the
    key of each row is at most the key of the next row (missing values
    last); a sort column that the table lacks is a [KeyError]. *)
Theorem sort_values_orders_rows (t : Table) by_ :
  (forall kcols, mapM (getitem t) by_ = Ok kcols ->
     exists perm,
       sort_values t by_ = Ok (df_take perm t) /\
       perm ≡ₚ seq 0 (nrows t) /\
       ordered_by (row_key kcols) perm /\
       nrows (df_take perm t) = nrows t /\ names (df_take perm t) = names t) /\
  (forall c, c ∈ by_ -> c ∉ names t -> sort_values t by_ = Err KeyError).
Proof.
  split.
  - intros kcols Hk. unfold sort_values. rewrite Hk, bind_Ok_l.
    eexists. split; [reflexivity|].
    split; [apply sort_by_Permutation|]. split; [apply sort_by_ordered|].
    split; [|apply names_df_take].
    cbn [nrows df_take]. by rewrite sort_by_Permutation, length_seq.
  - intros c Hc Hn. unfold sort_values.
    destruct (mapM (getitem t) by_) as [kcols|e] eqn:E.
    + exfalso. apply mapM_Ok in E.
      apply list_elem_of_lookup in Hc as [i Hi].
      destruct (Forall2_lookup_l _ _ _ _ _ E Hi) as (v & _ & Hv).
      apply getitem_assoc in Hv. apply Hn. unfold names.
      clear -Hv. induction (columns t) as [|[c' v'] l IH]; [done|].
      simpl in Hv. destruct (decide (c' = c)) as [->|]; [left|right; by apply IH].
    + by rewrite (mapM_getitem_Err _ _ _ E).
Qed.

Lemma sort_values_orders_rows_witness :
  mapM (getitem ex_grid_table) ["store"; "brand"; "week"]
    = Ok [[int_cell 2; int_cell 2; int_cell 2; int_cell 1; int_cell 1; int_cell 1];
          [int_cell 1; int_cell 1; int_cell 1; int_cell 1; int_cell 1; int_cell 1];
          [int_cell 1; int_cell 2; int_cell 3; int_cell 1; int_cell 2; int_cell 3]] /\
  "day" ∈ ["week"; "day"] /\ ("day" ∉ names ex_grid_table) /\
  (exists perm, sort_values ex_grid_table ["store"; "brand"; "week"]
                = Ok (df_take perm ex_grid_table)) /\
  sort_values ex_grid_table ["week"; "day"] = Err KeyError.
Proof.
  assert (mapM (getitem ex_grid_table) ["store"; "brand"; "week"]
    = Ok [[int_cell 2; int_cell 2; int_cell 2; int_cell 1; int_cell 1; int_cell 1];
          [int_cell 1; int_cell 1; int_cell 1; int_cell 1; int_cell 1; int_cell 1];
          [int_cell 1; int_cell 2; int_cell 3; int_cell 1; int_cell 2; int_cell 3]])
    as Hk by (by vm_compute).
  assert ("day" ∈ ["week"; "day"]) as H1
    by (apply (bool_decide_unpack _); by vm_compute).
  assert ("day" ∉ names ex_grid_table) as H2
    by (apply (bool_decide_unpack _); by vm_compute).
  split; [exact Hk|]. split; [exact H1|]. split; [exact H2|]. split.
  - destruct (proj1 (sort_values_orders_rows ex_grid_table _) _ Hk)
      as (perm & E & _).
    by exists perm.
  - exact (proj2 (sort_values_orders_rows ex_grid_table _) "day" H1 H2).
Defined.

End sort_values_extras.

Section calculate_move_extras.

Variable round_exp : Q -> Z.

Lemma getitem_not_in {A} (t : DataFrame A) c : c ∉ names t -> getitem t c = Err KeyError.
Proof.
  unfold getitem, names. intros H.
  destruct (assoc c (columns t)) as [v|] eqn:E; [|done]. exfalso. apply H.
  clear -E. induction (columns t) as [|[c' v'] l IH]; [done|].
  simpl in E. destruct (decide (c' = c)) as [->|]; [left|right; by apply IH].
Qed.

Lemma mapM_Err_at {X Y} (f : X -> result Y) (l : list X) e :
  Exists (fun x => f x = Err e) l ->
  Forall (fun x => forall e', f x = Err e' -> e' = e) l ->
  mapM f l = Err e.
Proof.
  intros Hex Hall. induction Hex as [x l Hx|x l _ IH]; cbn [mapM].
  - by rewrite Hx.
  - apply Forall_cons in Hall as [H0 Hall]. specialize (IH Hall).
    destruct (f x) as [y|e'] eqn:E.
    + rewrite bind_Ok_l, IH. done.
    + by rewrite (H0 e' eq_refl).
Qed.

Lemma mapM_first_Err {X Y} (f : X -> result Y) (l : list X) (i : nat) x e :
  l !! i = Some x -> f x = Err e ->
  (forall j y, (j < i)%nat -> l !! j = Some y -> exists z, f y = Ok z) ->
  mapM f l = Err e.
Proof.
  revert i. induction l as [|y l IH]; intros i Hi Hx Hbefore; [done|].
  cbn [mapM]. destruct i as [|i].
  - injection Hi as ->. by rewrite Hx.
  - destruct (Hbefore 0%nat y ltac:(lia) eq_refl) as [z ->].
    rewrite bind_Ok_l, (IH i); [done..|].
    intros j y' Hj Hy'. apply (Hbefore (S j)); [lia|done].
Qed.

Lemma calculate_move_full (train_df t : Table) :
  calculate_move round_exp train_df = Ok t ->
  exists s b w p lm mv,
    getitem train_df "store" = Ok s /\ getitem train_df "brand" = Ok b /\
    getitem train_df "week" = Ok w /\ getitem train_df "profit" = Ok p /\
    getitem train_df "logmove" = Ok lm /\
    Forall2 (fun x y => exists v q, x = Some v /\ to_float v = Ok q /\
                          (q <= exp_max)%Q /\
                          y = Some (VInt (round_exp q))) lm mv /\
    t = mkDF (nrows train_df)
          [("store", s); ("brand", b); ("week", w); ("profit", p);
           ("move", mv); ("logmove", lm)].
Proof.
  unfold calculate_move. intros H.
  apply bind_Ok in H as (lm & Hlm & H). apply bind_Ok in H as (mv & Hmv & H).
  cbv zeta in H. apply select_inv in H as (vs & Hvs & ->).
  apply Forall2_cons_inv_l in Hvs as (s & vs1 & Hs & Hvs & ->).
  apply Forall2_cons_inv_l in Hvs as (b & vs2 & Hb & Hvs & ->).
  apply Forall2_cons_inv_l in Hvs as (w & vs3 & Hw & Hvs & ->).
  apply Forall2_cons_inv_l in Hvs as (p & vs4 & Hp & Hvs & ->).
  apply Forall2_cons_inv_l in Hvs as (mv' & vs5 & Hmv' & Hvs & ->).
  apply Forall2_cons_inv_l in Hvs as (lm' & vs6 & Hlm' & Hvs & ->).
  apply Forall2_nil_inv_l in Hvs as ->.
  rewrite getitem_setitem_ne in Hs, Hb, Hw, Hp, Hlm' by discriminate.
  rewrite getitem_setitem_eq in Hmv'. injection Hmv' as <-.
  rewrite Hlm in Hlm'. injection Hlm' as <-.
  exists s, b, w, p, lm, mv. do 5 (split; [done|]). split; [|done].
  unfold series_apply in Hmv. apply mapM_Ok in Hmv.
  eapply Forall2_impl; [exact Hmv|]. intros [v|] y Hy; [|done].
  apply bind_Ok in Hy as (q & Hq & Hy).
  destruct (Qle_bool q exp_max) eqn:Hle; [|done].
  injection Hy as <-. apply Qle_bool_iff in Hle. by exists v, q.
Qed.

Lemma calculate_move_spec (train_df t : Table) :
  calculate_move round_exp train_df = Ok t ->
  exists s b w p lm mv,
    getitem train_df "store" = Ok s /\ getitem train_df "brand" = Ok b /\
    getitem train_df "week" = Ok w /\ getitem train_df "profit" = Ok p /\
    getitem train_df "logmove" = Ok lm /\
    Forall2 (fun x y => exists v q, x = Some v /\ to_float v = Ok q /\
                          y = Some (VInt (round_exp q))) lm mv /\
    t = mkDF (nrows train_df)
          [("store", s); ("brand", b); ("week", w); ("profit", p);
           ("move", mv); ("logmove", lm)].
Proof.
  intros H. apply calculate_move_full in H
    as (s & b & w & p & lm & mv & Hs & Hb & Hw & Hp & Hlm & Hmv & ->).
  exists s, b, w, p, lm, mv. do 5 (split; [done|]). split; [|done].
  eapply Forall2_impl; [exact Hmv|].
  intros x y (v & q & -> & Hq & _ & ->). by exists v, q.
Qed.

(** X11: lines 78-79 keep the columns store, brand, week, profit, move and
    logmove of the sales file, in this order, and drop every other column;
    every [logmove] is then a number of at most [exp_max] and [move] is
    [round(exp(logmove))] row by row.  A sales file without a [logmove]
    column is a [KeyError].  Otherwise the first row whose [logmove] is not
    such a number decides: a null [logmove] is a [ValueError], a [logmove]
    above [exp_max] an [OverflowError]. *)
Theorem calculate_move_table (train_df : Table) :
  (forall t, calculate_move round_exp train_df = Ok t ->
     names t = sales_cols /\ nrows t = nrows train_df /\
     exists lm mv,
       getitem train_df "logmove" = Ok lm /\ getitem t "move" = Ok mv /\
       getitem t "logmove" = Ok lm /\ length mv = length lm /\
       forall i, (i < length lm)%nat ->
         exists v q, at_row lm i = Some v /\ to_float v = Ok q /\
                     (q <= 6243314768165359 # 8796093022208)%Q /\
                     at_row mv i = Some (VInt (round_exp q))) /\
  ("logmove" ∉ names train_df ->
     calculate_move round_exp train_df = Err KeyError) /\
  (forall lm (i : nat), getitem train_df "logmove" = Ok lm ->
     (forall j, (j < i)%nat ->
        exists v q, lm !! j = Some (Some v) /\ to_float v = Ok q /\
                    (q <= 6243314768165359 # 8796093022208)%Q) ->
     (lm !! i = Some None -> calculate_move round_exp train_df = Err ValueError) /\
     (forall v q, lm !! i = Some (Some v) -> to_float v = Ok q ->
        (6243314768165359 # 8796093022208 < q)%Q ->
        calculate_move round_exp train_df = Err OverflowError)).
Proof.
  split; [|split].
  - intros t H.
    apply calculate_move_full in H
      as (s & b & w & p & lm & mv & Hs & Hb & Hw & Hp & Hlm & Hmv & ->).
    split; [done|]. split; [done|]. exists lm, mv.
    do 3 (split; [done|]).
    split; [symmetry; by eapply Forall2_length|].
    intros i Hi. apply lookup_lt_is_Some in Hi as [x Hx].
    destruct (Forall2_lookup_l _ _ _ _ _ Hmv Hx)
      as (y & Hy & v & q & -> & Hq & Hle & ->).
    exists v, q. by rewrite (at_row_lookup _ _ _ Hx), (at_row_lookup _ _ _ Hy).
  - intros H. unfold calculate_move. by rewrite (getitem_not_in _ _ H).
  - intros lm i Hlm Hbefore.
    assert (forall j y, (j < i)%nat -> lm !! j = Some y ->
              exists z, (fun x : cell =>
                           match x with
                           | None => Err ValueError
                           | Some v =>
                               q ← to_float v;
                               if Qle_bool q exp_max
                               then Ok (Some (VInt (round_exp q)))
                               else Err OverflowError
                           end) y = Ok z) as Hok.
    { intros j y Hj Hy. destruct (Hbefore j Hj) as (v & q & Hv & Hq & Hle).
      rewrite Hy in Hv. injection Hv as ->. rewrite Hq, bind_Ok_l.
      apply Qle_bool_iff in Hle. fold exp_max in Hle. rewrite Hle. eauto. }
    split.
    + intros Hi. unfold calculate_move. rewrite Hlm, bind_Ok_l.
      unfold series_apply. by rewrite (mapM_first_Err _ lm i None ValueError).
    + intros v q Hi Hq Hgt. unfold calculate_move. rewrite Hlm, bind_Ok_l.
      unfold series_apply.
      rewrite (mapM_first_Err _ lm i (Some v) OverflowError); [done|done| |done].
      rewrite Hq, bind_Ok_l.
      destruct (Qle_bool q exp_max) eqn:Hle; [|done].
      apply Qle_bool_iff in Hle. unfold exp_max in Hle.
      exfalso. by apply (Qlt_not_le _ _ Hgt).
Qed.

End calculate_move_extras.

Section calculate_move_witness.

Lemma calculate_move_table_witness :
  (exists t, calculate_move ex_round_exp ex_train = Ok t /\ names t = sales_cols) /\
  ("logmove" ∉ names ex_aux) /\
  calculate_move ex_round_exp ex_aux = Err KeyError /\
  calculate_move ex_round_exp (setitem ex_train "logmove" [float_cell 1; None])
    = Err ValueError /\
  calculate_move ex_round_exp (setitem ex_train "logmove" [float_cell 1000; None])
    = Err OverflowError.
Proof.
  assert ("logmove" ∉ names ex_aux) as Hn
    by (apply (bool_decide_unpack _); by vm_compute).
  split; [|split; [exact Hn|split; [|split]]].
  - eexists. split; [by vm_compute|].
    refine (proj1 (proj1 (calculate_move_table ex_round_exp ex_train) _ _)).
    by vm_compute.
  - exact (proj1 (proj2 (calculate_move_table ex_round_exp ex_aux)) Hn).
  - refine (proj1 (proj2 (proj2 (calculate_move_table ex_round_exp
              (setitem ex_train "logmove" [float_cell 1; None])))
              [float_cell 1; None] 1%nat eq_refl _) eq_refl).
    intros j Hj. assert (j = 0%nat) as -> by lia.
    exists (VFloat 1), 1%Q. split; [done|]. split; [done|]. by vm_compute.
  - refine (proj2 (proj2 (proj2 (calculate_move_table ex_round_exp
              (setitem ex_train "logmove" [float_cell 1000; None])))
              [float_cell 1000; None] 0%nat eq_refl _) (VFloat 1000) 1000%Q
              eq_refl eq_refl _).
    + intros j Hj. lia.
    + by vm_compute.
Defined.

End calculate_move_witness.

Section right_join_extras.

Lemma assoc_elem_of {V} c (v : V) (l : list (string * V)) :
  assoc c l = Some v -> (c, v) ∈ l.
Proof.
  induction l as [|[c' v'] l IH]; [done|]. simpl.
  destruct (decide (c' = c)) as [->|]; [intros [= ->]; left|right; by apply IH].
Qed.

Lemma getitem_wf_length {A} (t : DataFrame A) c v :
  wf t -> getitem t c = Ok v -> length v = nrows t.
Proof.
  intros Hw Hv. apply getitem_assoc, assoc_elem_of in Hv.
  unfold wf in Hw. rewrite Forall_forall in Hw. by apply (Hw _ Hv).
Qed.

Lemma merge_index_right_unique `{EqDecision K} (kl kr : list K) :
  NoDup kl ->
  merge_index how_right kl kr
  = (fun p => (head (matches p.2 kl), Some p.1)) <$> zip (seq 0 (length kr)) kr.
Proof.
  intros Hnd. unfold merge_index. apply bind_singleton.
  intros [i k] _. simpl.
  destruct (matches_NoDup k kl Hnd) as [->|(j & -> & _)]; done.
Qed.

Lemma merge_index_right_lookup `{EqDecision K} (kl kr : list K) p k :
  NoDup kl -> kr !! p = Some k ->
  merge_index how_right kl kr !! p = Some (head (matches k kl), Some p).
Proof.
  intros Hnd Hk. rewrite merge_index_right_unique by done.
  rewrite list_lookup_fmap.
  assert (zip (seq 0 (length kr)) kr !! p = Some (p, k)) as ->; [|done].
  apply lookup_zip_Some. split; [|done].
  apply lookup_seq_lt. by eapply lookup_lt_Some.
Qed.

Lemma merge_index_right_length `{EqDecision K} (kl kr : list K) :
  NoDup kl -> length (merge_index how_right kl kr) = length kr.
Proof.
  intros Hnd. rewrite merge_index_right_unique by done.
  rewrite length_fmap, length_zip, length_seq. lia.
Qed.

Lemma row_keys_lookup_lt {A} (kcols : list (list (option A))) n j :
  (j < n)%nat -> row_keys kcols n !! j = Some (row_key kcols j).
Proof. intros H. unfold row_keys. by rewrite list_lookup_fmap, lookup_seq_lt. Qed.

(** With distinct keys on the left, a key column of a right join is the
    key column of the right table. *)
Lemma key_values_right_unique `{EqDecision A} (kcl kcr : list (list (option A)))
  nl nr q vl vr :
  NoDup (row_keys kcl nl) ->
  kcl !! q = Some vl -> kcr !! q = Some vr -> length vr = nr ->
  key_values (merge_index how_right (row_keys kcl nl) (row_keys kcr nr)) vl vr = vr.
Proof.
  intros Hnd Hl Hr Hlen. apply list_eq. intros p.
  unfold key_values. rewrite list_lookup_fmap.
  destruct (decide (p < nr)%nat) as [Hp|Hp].
  - rewrite (merge_index_right_lookup _ _ p (row_key kcr p))
      by (done || by apply row_keys_lookup_lt).
    simpl. destruct (vr !! p) as [x|] eqn:Ex;
      [|apply lookup_ge_None in Ex; lia].
    f_equal. rewrite <- (at_row_lookup _ _ _ Ex).
    destruct (head _) as [i|] eqn:Eh; [|done].
    assert (i ∈ matches (row_key kcr p) (row_keys kcl nl)) as Hi.
    { destruct (matches _ _); simplify_eq/=. left. }
    apply matches_spec, row_keys_lookup in Hi as [_ Hi].
    apply (f_equal (fun l => l !! q)) in Hi. unfold row_key in Hi.
    rewrite !list_lookup_fmap, Hl, Hr in Hi. simpl in Hi. by injection Hi.
  - rewrite (proj2 (lookup_ge_None _ _)), (proj2 (lookup_ge_None vr p)); [done|lia|].
    rewrite merge_index_right_length, row_keys_length by done. lia.
Qed.

(** The table of line 82 when the keys of the sales file are distinct. *)
Lemma merge_right_shape round_exp (train_df aux_df t all_df : Table) s b w S B W :
  calculate_move round_exp train_df = Ok t ->
  merge t aux_df how_right key_cols = Ok all_df ->
  wf aux_df ->
  getitem train_df "store" = Ok s -> getitem train_df "brand" = Ok b ->
  getitem train_df "week" = Ok w ->
  NoDup (row_keys [s; b; w] (nrows train_df)) ->
  getitem aux_df "store" = Ok S -> getitem aux_df "brand" = Ok B ->
  getitem aux_df "week" = Ok W ->
  nrows all_df = nrows aux_df /\
  getitem all_df "store" = Ok S /\ getitem all_df "brand" = Ok B /\
  getitem all_df "week" = Ok W.
Proof.
  intros Ht Hm Hwf Hs Hb Hw Hnd HS HB HW.
  apply calculate_move_spec in Ht
    as (s0 & b0 & w0 & p & lm & mv & Hs0 & Hb0 & Hw0 & Hp & Hlm & Hmv & ->).
  rewrite Hs in Hs0. rewrite Hb in Hb0. rewrite Hw in Hw0.
  injection Hs0 as <-. injection Hb0 as <-. injection Hw0 as <-.
  apply merge_inv in Hm as (kl & kr & Hkl & Hkr & ->). cbv zeta.
  unfold key_cols in Hkl, Hkr.
  apply Forall2_cons_inv_l in Hkl as (? & ? & [= <-] & Hkl & ->).
  apply Forall2_cons_inv_l in Hkl as (? & ? & [= <-] & Hkl & ->).
  apply Forall2_cons_inv_l in Hkl as (? & ? & [= <-] & Hkl & ->).
  apply Forall2_nil_inv_l in Hkl as ->.
  apply Forall2_cons_inv_l in Hkr as (S' & ? & HS' & Hkr & ->).
  apply Forall2_cons_inv_l in Hkr as (B' & ? & HB' & Hkr & ->).
  apply Forall2_cons_inv_l in Hkr as (W' & ? & HW' & Hkr & ->).
  apply Forall2_nil_inv_l in Hkr as ->.
  rewrite HS in HS'. rewrite HB in HB'. rewrite HW in HW'.
  injection HS' as <-. injection HB' as <-. injection HW' as <-.
  cbn [nrows columns].
  pose proof (getitem_wf_length _ _ _ Hwf HS) as LS.
  pose proof (getitem_wf_length _ _ _ Hwf HB) as LB.
  pose proof (getitem_wf_length _ _ _ Hwf HW) as LW.
  split.
  { rewrite merge_index_right_length by done. apply row_keys_length. }
  unfold getitem. cbn [columns fmap list_fmap fst snd app].
  rewrite !bool_decide_eq_true_2 by (unfold key_cols; set_solver).
  rewrite (getitem_assoc _ _ _ HS), (getitem_assoc _ _ _ HB),
    (getitem_assoc _ _ _ HW). cbn [default].
  rewrite (key_values_right_unique [s; b; w] [S; B; W] _ _ 0%nat) by done.
  rewrite (key_values_right_unique [s; b; w] [S; B; W] _ _ 1%nat) by done.
  rewrite (key_values_right_unique [s; b; w] [S; B; W] _ _ 2%nat) by done.
  done.
Qed.

Lemma merge_index_right_fst `{EqDecision K} (kl kr : list K) :
  NoDup kl ->
  (merge_index how_right kl kr).*1 = (fun k => head (matches k kl)) <$> kr.
Proof.
  intros Hnd. rewrite merge_index_right_unique by done.
  generalize 0%nat. induction kr as [|k kr IH]; intros n; [done|].
  simpl. f_equal. apply IH.
Qed.

Lemma merge_right_move round_exp (train_df aux_df t all_df : Table) s b w S B W :
  calculate_move round_exp train_df = Ok t ->
  merge t aux_df how_right key_cols = Ok all_df ->
  "move" ∉ names aux_df ->
  getitem train_df "store" = Ok s -> getitem train_df "brand" = Ok b ->
  getitem train_df "week" = Ok w ->
  NoDup (row_keys [s; b; w] (nrows train_df)) ->
  getitem aux_df "store" = Ok S -> getitem aux_df "brand" = Ok B ->
  getitem aux_df "week" = Ok W ->
  exists mv0, getitem t "move" = Ok mv0 /\
    getitem all_df "move"
    = Ok (take_opt ((fun k => head (matches k (row_keys [s; b; w] (nrows train_df))))
                      <$> row_keys [S; B; W] (nrows aux_df)) mv0).
Proof.
  intros Ht Hm Hmove Hs Hb Hw Hnd HS HB HW.
  apply calculate_move_spec in Ht
    as (s0 & b0 & w0 & p & lm & mv & Hs0 & Hb0 & Hw0 & Hp & Hlm & Hmv & ->).
  rewrite Hs in Hs0. rewrite Hb in Hb0. rewrite Hw in Hw0.
  injection Hs0 as <-. injection Hb0 as <-. injection Hw0 as <-.
  exists mv. split; [done|].
  apply merge_inv in Hm as (kl & kr & Hkl & Hkr & ->). cbv zeta.
  unfold key_cols in Hkl, Hkr.
  apply Forall2_cons_inv_l in Hkl as (? & ? & [= <-] & Hkl & ->).
  apply Forall2_cons_inv_l in Hkl as (? & ? & [= <-] & Hkl & ->).
  apply Forall2_cons_inv_l in Hkl as (? & ? & [= <-] & Hkl & ->).
  apply Forall2_nil_inv_l in Hkl as ->.
  apply Forall2_cons_inv_l in Hkr as (S' & ? & HS' & Hkr & ->).
  apply Forall2_cons_inv_l in Hkr as (B' & ? & HB' & Hkr & ->).
  apply Forall2_cons_inv_l in Hkr as (W' & ? & HW' & Hkr & ->).
  apply Forall2_nil_inv_l in Hkr as ->.
  rewrite HS in HS'. rewrite HB in HB'. rewrite HW in HW'.
  injection HS' as <-. injection HB' as <-. injection HW' as <-.
  cbn [nrows columns]. rewrite merge_index_right_fst by done.
  set (L := (fun k => head (matches k _)) <$> _).
  set (ix := merge_index how_right _ _).
  unfold getitem. cbn [columns fmap list_fmap fst snd app].
  rewrite !bool_decide_eq_true_2 by (unfold key_cols; set_solver).
  rewrite !(bool_decide_eq_false_2 (_ ∈ key_cols))
    by (apply (bool_decide_unpack _); by vm_compute).
  rewrite (bool_decide_eq_false_2 (_ /\ _ /\ "move" ∈ names aux_df)) by tauto.
  destruct (bool_decide _); cbn [assoc fst snd];
    repeat (rewrite decide_False by discriminate); by rewrite decide_True.
Qed.

(** X12: line 82 is a right join on the aux file: when the keys of the
    sales file are distinct, the merged table has the rows of the aux file,
    one each and in the order of that file, with its store, brand and week;
    a row whose key is the key of a sales row carries the move of that sales
    row, a row whose key no sales row has carries a null move, and a sales
    row whose key is not in the aux file does not appear. *)
Theorem sales_joined_on_aux round_exp (train_df aux_df t all_df : Table)
  s b w S B W :
  calculate_move round_exp train_df = Ok t ->
  merge t aux_df how_right key_cols = Ok all_df ->
  wf aux_df -> "move" ∉ names aux_df ->
  getitem train_df "store" = Ok s -> getitem train_df "brand" = Ok b ->
  getitem train_df "week" = Ok w ->
  NoDup (row_keys [s; b; w] (nrows train_df)) ->
  getitem aux_df "store" = Ok S -> getitem aux_df "brand" = Ok B ->
  getitem aux_df "week" = Ok W ->
  nrows all_df = nrows aux_df /\
  getitem all_df "store" = Ok S /\ getitem all_df "brand" = Ok B /\
  getitem all_df "week" = Ok W /\
  exists mv0 mv,
    getitem t "move" = Ok mv0 /\ getitem all_df "move" = Ok mv /\
    forall j, (j < nrows aux_df)%nat ->
      (forall i, (i < nrows train_df)%nat ->
         row_key [s; b; w] i = row_key [S; B; W] j -> at_row mv j = at_row mv0 i) /\
      ((forall i, (i < nrows train_df)%nat ->
          row_key [s; b; w] i <> row_key [S; B; W] j) -> at_row mv j = None).
Proof.
  intros Ht Hm Hwf Hmove Hs Hb Hw Hnd HS HB HW.
  destruct (merge_right_shape _ _ _ _ _ _ _ _ _ _ _ Ht Hm Hwf Hs Hb Hw Hnd HS HB HW)
    as (Hrows & H1 & H2 & H3).
  do 4 (split; [done|]).
  destruct (merge_right_move _ _ _ _ _ _ _ _ _ _ _ Ht Hm Hmove Hs Hb Hw Hnd HS HB HW)
    as (mv0 & Hmv0 & Hmv).
  eexists mv0, _. split; [done|]. split; [exact Hmv|].
  intros j Hj.
  set (kL := row_keys [s; b; w] (nrows train_df)) in *.
  assert (forall o, head (matches (row_key [S; B; W] j) kL) = o ->
            at_row (take_opt ((fun k => head (matches k kL))
                                <$> row_keys [S; B; W] (nrows aux_df)) mv0) j
            = match o with Some i => at_row mv0 i | None => None end) as T.
  { intros o Ho. unfold take_opt, at_row at 1.
    rewrite !list_lookup_fmap, row_keys_lookup_lt by done. by rewrite <- Ho. }
  split.
  - intros i Hi Hk.
    assert (kL !! i = Some (row_key [S; B; W] j)) as Hin.
    { unfold kL. rewrite row_keys_lookup_lt by done. by rewrite Hk. }
    destruct (matches_NoDup (row_key [S; B; W] j) kL Hnd) as [E|(i' & E & Hi')].
    + apply matches_nil in E. exfalso. apply E. by eapply list_elem_of_lookup_2.
    + assert (i' = i) as -> by (by apply (NoDup_lookup kL i' i (row_key [S; B; W] j))).
      apply (T (Some i)). by rewrite E.
  - intros Hno. apply (T None).
    assert (matches (row_key [S; B; W] j) kL = []) as ->; [|done].
    apply matches_nil. intros Hin. apply list_elem_of_lookup in Hin as [i Hi].
    apply row_keys_lookup in Hi as [Hi Hk]. by apply (Hno i Hi).
Qed.

Lemma sales_joined_on_aux_witness :
  (exists t all_df mv,
     calculate_move ex_round_exp ex_train = Ok t /\
     merge t ex_aux how_right key_cols = Ok all_df /\
     nrows all_df = nrows ex_aux /\
     getitem all_df "move" = Ok mv /\ at_row mv 0 = None) /\
  wf ex_aux /\ ("move" ∉ names ex_aux) /\
  NoDup (row_keys [[int_cell 1; int_cell 2]; [int_cell 1; int_cell 1];
                   [int_cell 2; int_cell 2]] (nrows ex_train)).
Proof.
  assert (wf ex_aux) as Hwf by (apply (bool_decide_unpack _); by vm_compute).
  assert ("move" ∉ names ex_aux) as Hmove
    by (apply (bool_decide_unpack _); by vm_compute).
  assert (NoDup (row_keys [[int_cell 1; int_cell 2]; [int_cell 1; int_cell 1];
                           [int_cell 2; int_cell 2]] (nrows ex_train))) as Hnd
    by (apply (bool_decide_unpack _); by vm_compute).
  split; [|by repeat split].
  assert (calculate_move ex_round_exp ex_train
          = Ok (table_of (calculate_move ex_round_exp ex_train))) as Ht
    by (by vm_compute).
  assert (merge (table_of (calculate_move ex_round_exp ex_train)) ex_aux
            how_right key_cols
          = Ok (table_of (merge (table_of (calculate_move ex_round_exp ex_train))
                            ex_aux how_right key_cols))) as Hm
    by (by vm_compute).
  destruct (sales_joined_on_aux _ _ _ _ _ _ _ _ _ _ _ Ht Hm Hwf Hmove
              ltac:(by vm_compute) ltac:(by vm_compute) ltac:(by vm_compute)
              Hnd ltac:(by vm_compute) ltac:(by vm_compute) ltac:(by vm_compute))
    as (Hrows & _ & _ & _ & mv0 & mv & _ & Hmv & Hj).
  eexists _, _, mv. split; [exact Ht|]. split; [exact Hm|].
  split; [exact Hrows|]. split; [exact Hmv|].
  apply (proj2 (Hj 0%nat ltac:(vm_compute; lia))).
  intros i Hi. destruct i as [|[|i]]; [by vm_compute..|vm_compute in Hi; lia].
Defined.

End right_join_extras.

Section round_extras.

Lemma groupby_apply_nrows {B} (s b m : list cell) n
  (f : Table -> result (DataFrame B)) r :
  groupby_apply (mkDF n [("store", s); ("brand", b); ("move", m)])
    ["store"; "brand"] f = Ok r ->
  n <> 0%nat -> length s = n -> length b = n ->
  Forall is_Some s -> Forall is_Some b ->
  nrows r = n.
Proof.
  intros H Hn Ls Lb Fs Fb. unfold groupby_apply in H.
  assert (mapM (getitem (mkDF n [("store", s); ("brand", b); ("move", m)]))
            ["store"; "brand"] = Ok [s; b]) as E by reflexivity.
  rewrite E, bind_Ok_l in H. clear E. cbv zeta in H. cbn [nrows] in H.
  set (keys := row_keys [s; b] n) in *.
  set (gkeys := sort_by id (unique (filter (Forall is_Some) keys))) in *.
  apply bind_Ok in H as (parts & Hparts & H).
  apply mapM_Ok in Hparts.
  assert (gkeys <> []) as Hg.
  { assert (row_key [s; b] 0 ∈ gkeys) as Hin; [|by destruct gkeys; inversion Hin].
    unfold gkeys. rewrite sort_by_Permutation.
    apply unique_elem_of, list_elem_of_filter. split.
    - unfold row_key. cbn [fmap list_fmap].
      repeat constructor; apply is_Some_at_row; try done; lia.
    - unfold keys, row_keys. apply list_elem_of_fmap. exists 0%nat.
      split; [done|]. apply elem_of_seq. lia. }
  destruct Hparts as [|g [ix0 r0] gs parts Hg0 _]; [done|].
  by injection H as <-.
Qed.

Lemma lag_features_nrows (t out : Table) :
  lag_features t = Ok out -> keyed t -> nrows t <> 0%nat -> nrows out = nrows t.
Proof.
  unfold lag_features. intros H Hk Hn.
  apply bind_Ok in H as (sorted & Hsort & H).
  apply bind_Ok in H as (fs & Hfs & H).
  apply bind_Ok in H as (lf & Hlf & H).
  apply bind_Ok in H as (ma & Hma & H).
  apply sort_values_inv in Hsort as (perm & Hperm & ->).
  assert (nrows (df_take perm t) = nrows t) as Hrows.
  { cbn [nrows df_take]. by rewrite Hperm, length_seq. }
  apply (keyed_df_take _ _ Hperm) in Hk.
  destruct (fill_sales_inv _ _ Hfs Hk) as (s & b & m & -> & Ls & Lb & Fs & Fb).
  rewrite Hrows in *.
  apply groupby_apply_nrows in Hlf; [|done..].
  apply groupby_apply_nrows in Hma; [|done..].
  apply (concat_nrows (nrows t)) in H; [done|done|].
  repeat constructor; done.
Qed.

Lemma fill_gaps_nrows (all_df g : Table) first_week last_week stores brands weeks :
  fill_gaps all_df first_week last_week = Ok g ->
  getitem all_df "store" = Ok stores -> getitem all_df "brand" = Ok brands ->
  getitem all_df "week" = Ok weeks ->
  NoDup (row_keys [stores; brands; weeks] (nrows all_df)) ->
  nrows g = (length (unique stores) * length (unique brands)
             * Z.to_nat (last_week + 1 - first_week))%nat.
Proof.
  intros H Hs Hb Hw Hnd. unfold fill_gaps in H.
  rewrite Hs, Hb, !bind_Ok_l in H. cbv zeta in H.
  fold (grid_cells stores brands first_week last_week) in H.
  rewrite (merge_grid all_df stores brands weeks) in H
    by (by rewrite ?length_fmap).
  injection H as <-. apply grid_cells_length.
Qed.

(** X13: when the keys of the sales file and of the aux file are distinct
    and every aux row has a store and a brand, the table written for a round
    has one row for every cell of stores x brands x weeks, the stores and
    brands being those of the aux file and the weeks running from
    [TRAIN_START_WEEK] to the round's entry of [TEST_END_WEEK_LIST]: the
    features added after the grid expansion add and drop no row. *)
Theorem feature_round_row_count round_exp bs (train_df aux_df : Table) n out
  s b w S B W last_week :
  feature_round round_exp bs train_df aux_df n = Ok out ->
  list_index (TEST_END_WEEK_LIST bs) (n - 1) = Ok last_week ->
  getitem train_df "store" = Ok s -> getitem train_df "brand" = Ok b ->
  getitem train_df "week" = Ok w ->
  NoDup (row_keys [s; b; w] (nrows train_df)) ->
  wf aux_df ->
  getitem aux_df "store" = Ok S -> getitem aux_df "brand" = Ok B ->
  getitem aux_df "week" = Ok W ->
  NoDup (row_keys [S; B; W] (nrows aux_df)) ->
  Forall is_Some S -> Forall is_Some B ->
  nrows out = (length (unique S) * length (unique B)
               * Z.to_nat (last_week + 1 - TRAIN_START_WEEK bs))%nat.
Proof.
  intros H Hlast Hs Hb Hw Hnd Hwf HS HB HW HND FS FB.
  assert (keyed aux_df) as Hk.
  { exists S, B. do 2 (split; [done|]).
    split; [by eapply getitem_wf_length|].
    split; [by eapply getitem_wf_length|done]. }
  unfold feature_round in H.
  apply bind_Ok in H as (t1 & Ht1 & H).
  apply bind_Ok in H as (a0 & Ha0 & H).
  rewrite Hlast, bind_Ok_l in H.
  apply bind_Ok in H as (g & Hg & H).
  apply bind_Ok in H as (p & Hp & H).
  apply bind_Ok in H as (c & Hc & H).
  pose proof (merge_right_keyed _ _ _ _ _ Ht1 Ha0 Hk) as Hk0.
  destruct (merge_right_shape _ _ _ _ _ _ _ _ _ _ _ Ht1 Ha0 Hwf Hs Hb Hw Hnd HS HB HW)
    as (Hrows & H1 & H2 & H3).
  destruct (fill_gaps_keyed _ _ _ _ Hg Hk0) as [Hkg _].
  rewrite <- (fill_gaps_nrows _ _ _ _ _ _ _ Hg H1 H2 H3) by (by rewrite Hrows).
  destruct (price_features_shape _ _ Hp) as (Hne & price & avg & ratio & ->).
  destruct (calendar_features_shape _ _ _ Hc) as (ws & wom & y & m & d & ->).
  rewrite (lag_features_nrows _ _ H); [done| |done].
  repeat (apply keyed_setitem; [discriminate|discriminate|]). exact Hkg.
Qed.

Lemma feature_round_row_count_witness :
  feature_round ex_round_exp ex_bs ex_train ex_aux 1 = Ok ex_output /\
  list_index (TEST_END_WEEK_LIST ex_bs) (1 - 1) = Ok 3 /\
  wf ex_aux /\ nrows ex_output = 6%nat.
Proof.
  assert (feature_round ex_round_exp ex_bs ex_train ex_aux 1 = Ok ex_output) as H
    by (by vm_compute).
  assert (wf ex_aux) as Hwf by (apply (bool_decide_unpack _); by vm_compute).
  assert (list_index (TEST_END_WEEK_LIST ex_bs) (1 - 1) = Ok 3) as Hl by reflexivity.
  assert (getitem ex_train "store" = Ok (int_cell <$> [1; 2]%Z)) as Hs by (by vm_compute).
  assert (getitem ex_train "brand" = Ok (int_cell <$> [1; 1]%Z)) as Hb by (by vm_compute).
  assert (getitem ex_train "week" = Ok (int_cell <$> [2; 2]%Z)) as Hw by (by vm_compute).
  assert (getitem ex_aux "store" = Ok (int_cell <$> [2; 2; 1; 1; 1]%Z)) as HS
    by (by vm_compute).
  assert (getitem ex_aux "brand" = Ok (int_cell <$> [1; 1; 1; 1; 1]%Z)) as HB
    by (by vm_compute).
  assert (getitem ex_aux "week" = Ok (int_cell <$> [1; 2; 1; 2; 3]%Z)) as HW
    by (by vm_compute).
  assert (NoDup (row_keys [int_cell <$> [1; 2]%Z; int_cell <$> [1; 1]%Z;
                           int_cell <$> [2; 2]%Z] (nrows ex_train))) as Hnd
    by (apply (bool_decide_unpack _); vm_compute; exact Logic.I).
  assert (NoDup (row_keys [int_cell <$> [2; 2; 1; 1; 1]%Z;
                           int_cell <$> [1; 1; 1; 1; 1]%Z;
                           int_cell <$> [1; 2; 1; 2; 3]%Z] (nrows ex_aux))) as HND
    by (apply (bool_decide_unpack _); vm_compute; exact Logic.I).
  assert (Forall is_Some (int_cell <$> [2; 2; 1; 1; 1]%Z)) as FS
    by (apply (bool_decide_unpack _); vm_compute; exact Logic.I).
  assert (Forall is_Some (int_cell <$> [1; 1; 1; 1; 1]%Z)) as FB
    by (apply (bool_decide_unpack _); vm_compute; exact Logic.I).
  split; [exact H|]. split; [exact Hl|]. split; [exact Hwf|].
  pose proof (feature_round_row_count ex_round_exp ex_bs ex_train ex_aux 1 ex_output
                _ _ _ _ _ _ 3 H Hl Hs Hb Hw Hnd Hwf HS HB HW HND FS FB) as R.
  rewrite R. vm_compute. reflexivity.
Defined.

End round_extras.

Section main_extras.

Lemma str_inj (a b : Z) : str a = str b -> a = b.
Proof.
  unfold str. intros H. apply DecimalZ.to_int_inj.
  assert (forall n, NilZero.int_of_string (NilZero.string_of_int (Z.to_int n))
                    = Some (Z.to_int n)) as R.
  { intros n. apply NilZero.isi.
    - destruct n as [|p|p]; cbn [Z.to_int]; [discriminate| |discriminate].
      intros [= E]. by apply DecimalPos.Unsigned.to_uint_nonnil in E.
    - destruct n as [|p|p]; cbn [Z.to_int]; [discriminate|discriminate|].
      intros [= E]. by apply DecimalPos.Unsigned.to_uint_nonnil in E. }
  apply (f_equal NilZero.int_of_string) in H. rewrite !R in H. by injection H.
Qed.

Lemma length_append (a b : string) :
  String.length (a +:+ b) = (String.length a + String.length b)%nat.
Proof. induction a as [|c a IH]; [done|]. simpl. f_equal. exact IH. Qed.

Lemma append_inj_r (s a b : string) : a +:+ s = b +:+ s -> a = b.
Proof.
  revert b. induction a as [|c a IH]; intros [|c' b] H.
  - done.
  - apply (f_equal String.length) in H. rewrite !length_append in H.
    cbn [String.length] in H. lia.
  - apply (f_equal String.length) in H. rewrite !length_append in H.
    cbn [String.length] in H. lia.
  - simpl in H. injection H as -> H. by rewrite (IH _ H).
Qed.

Lemma round_file_inj (pre suf : string) (a b : Z) :
  pre +:+ str a +:+ suf = pre +:+ str b +:+ suf -> a = b.
Proof.
  intros H. apply String.app_inj in H. apply append_inj_r in H. by apply str_inj.
Qed.

Lemma lookup_seqZ_1 (n : Z) (i : nat) x :
  seqZ 1 n !! i = Some x -> x = 1 + Z.of_nat i /\ Z.of_nat i < n.
Proof. intros H. apply lookup_seqZ in H. lia. Qed.

Variable round_exp : Q -> Z.
Variable bs : settings.
Variable read_csv : string -> result Table.

(** X14: a run that succeeds writes one file per round, in the order of the
    rounds and under pairwise different names; the file of round [n] holds
    the features computed from the two files read for round [n]. *)
Theorem main_writes_one_file_per_round files :
  main round_exp bs read_csv = Ok files ->
  files.*1 = (fun n => "feature_engineering/feature_engineering_round_"
                          +:+ str n +:+ ".csv") <$> seqZ 1 (NUM_ROUNDS bs) /\
  NoDup files.*1 /\
  forall (i : nat) name out, files !! i = Some (name, out) ->
    exists train_df aux_df,
      read_csv ("train/train_round_" +:+ str (1 + Z.of_nat i) +:+ ".csv") = Ok train_df /\
      read_csv ("train/aux_round_" +:+ str (1 + Z.of_nat i) +:+ ".csv") = Ok aux_df /\
      feature_round round_exp bs train_df aux_df (1 + Z.of_nat i) = Ok out.
Proof.
  unfold main. intros H. apply mapM_Ok in H.
  assert (files.*1 = (fun n => "feature_engineering/feature_engineering_round_"
                          +:+ str n +:+ ".csv") <$> seqZ 1 (NUM_ROUNDS bs)) as Hnames.
  { induction H as [|n [name out] l k Hn _ IH]; [done|].
    cbn [fmap list_fmap fst]. rewrite <- IH. f_equal.
    apply bind_Ok in Hn as (t & _ & Hn). apply bind_Ok in Hn as (a & _ & Hn).
    apply bind_Ok in Hn as (o & _ & Hn). by injection Hn as <- _. }
  split; [exact Hnames|]. split.
  - rewrite Hnames. apply NoDup_fmap_2_strong; [|apply NoDup_seqZ].
    intros a b _ _ E. exact (round_file_inj _ _ _ _ E).
  - intros i name out Hi.
    destruct (Forall2_lookup_r _ _ _ _ _ H Hi) as (n & Hn & Hf).
    apply lookup_seqZ_1 in Hn as [-> _].
    apply bind_Ok in Hf as (t & Ht & Hf). apply bind_Ok in Hf as (a & Ha & Hf).
    apply bind_Ok in Hf as (o & Ho & Hf). injection Hf as _ <-.
    by exists t, a.
Qed.

(** X15: a run can only succeed when [TEST_END_WEEK_LIST] has an entry for
    every round: with more rounds than entries the run ends in an
    exception. *)
Theorem main_needs_end_week_per_round files :
  main round_exp bs read_csv = Ok files ->
  NUM_ROUNDS bs <= Z.of_nat (length (TEST_END_WEEK_LIST bs)).
Proof.
  unfold main. intros H. apply mapM_Ok in H.
  destruct (Z.le_gt_cases (NUM_ROUNDS bs) (Z.of_nat (length (TEST_END_WEEK_LIST bs))))
    as [|Hlt]; [done|exfalso].
  assert (seqZ 1 (NUM_ROUNDS bs) !! length (TEST_END_WEEK_LIST bs)
          = Some (1 + Z.of_nat (length (TEST_END_WEEK_LIST bs)))) as Hn.
  { apply lookup_seqZ. lia. }
  destruct (Forall2_lookup_l _ _ _ _ _ H Hn) as ([name out] & _ & Hf).
  apply bind_Ok in Hf as (t & _ & Hf). apply bind_Ok in Hf as (a & _ & Hf).
  apply bind_Ok in Hf as (o & Ho & _). unfold feature_round in Ho.
  apply bind_Ok in Ho as (t1 & _ & Ho). apply bind_Ok in Ho as (a1 & _ & Ho).
  apply bind_Ok in Ho as (lw & Hlw & _). unfold list_index in Hlw.
  destruct (_ <? 0); [discriminate|].
  replace (Z.to_nat (1 + Z.of_nat (length (TEST_END_WEEK_LIST bs)) - 1))
    with (length (TEST_END_WEEK_LIST bs)) in Hlw by lia.
  by rewrite (lookup_ge_None_2 (TEST_END_WEEK_LIST bs) _ (Nat.le_refl _)) in Hlw.
Qed.

End main_extras.

Lemma main_writes_one_file_per_round_witness :
  main ex_round_exp ex_bs ex_read_csv
  = Ok [("feature_engineering/feature_engineering_round_1.csv", ex_output)] /\
  NoDup ([("feature_engineering/feature_engineering_round_1.csv", ex_output)].*1).
Proof.
  assert (main ex_round_exp ex_bs ex_read_csv
          = Ok [("feature_engineering/feature_engineering_round_1.csv", ex_output)])
    as H by (by vm_compute).
  split; [exact H|].
  exact (proj1 (proj2 (main_writes_one_file_per_round ex_round_exp ex_bs ex_read_csv
                         _ H))).
Defined.

Lemma main_needs_end_week_per_round_witness :
  main ex_round_exp ex_bs ex_read_csv
  = Ok [("feature_engineering/feature_engineering_round_1.csv", ex_output)] /\
  NUM_ROUNDS ex_bs <= Z.of_nat (length (TEST_END_WEEK_LIST ex_bs)).
Proof.
  assert (main ex_round_exp ex_bs ex_read_csv
          = Ok [("feature_engineering/feature_engineering_round_1.csv", ex_output)])
    as H by (by vm_compute).
  split; [exact H|].
  exact (main_needs_end_week_per_round ex_round_exp ex_bs ex_read_csv _ H).
Defined.

Section price_extras.

(** X16: the price of a row is looked up in the column [price<brand>]: when
    every row has a brand and some row's brand has no such column, the price
    features fail with a [KeyError]. *)
Theorem price_features_unknown_brand (all_df : Table) brands (i : nat) b :
  getitem all_df "brand" = Ok brands ->
  (forall j, (j < nrows all_df)%nat -> exists n, py_int (at_row brands j) = Ok n) ->
  (i < nrows all_df)%nat ->
  py_int (at_row brands i) = Ok b ->
  ("price" +:+ str b) ∉ names all_df ->
  price_features all_df = Err KeyError.
Proof.
  intros Hb Hall Hi Hbi Hno. unfold price_features, apply_rows.
  destruct (decide (nrows all_df = 0%nat)) as [E|_]; [lia|].
  rewrite (mapM_Err_at _ _ KeyError); [done| |].
  - apply Exists_exists. exists i. split; [apply elem_of_seq; lia|].
    cbv beta. unfold loc. rewrite Hb, !bind_Ok_l, Hbi, bind_Ok_l.
    by rewrite (getitem_not_in _ _ Hno).
  - apply Forall_forall. intros j Hj e. apply elem_of_seq in Hj.
    destruct (Hall j) as [n Hn]; [lia|].
    cbv beta. unfold loc. rewrite Hb, !bind_Ok_l, Hn, bind_Ok_l.
    destruct (getitem all_df ("price" +:+ str n)) as [v|e'] eqn:E.
    + by rewrite bind_Ok_l.
    + intros [= <-]. unfold getitem in E.
      destruct (assoc _ _); [discriminate E|by injection E].
Qed.

Lemma price_features_unknown_brand_witness :
  price_features (setitem ex_grid_table "brand" [int_cell 12; int_cell 1; int_cell 1;
                                                 int_cell 1; int_cell 1; int_cell 1])
  = Err KeyError.
Proof.
  apply (price_features_unknown_brand _
           [int_cell 12; int_cell 1; int_cell 1; int_cell 1; int_cell 1; int_cell 1]
           0 12).
  - by vm_compute.
  - intros j Hj. change (nrows _) with 6%nat in Hj.
    do 6 (destruct j as [|j]; [by eexists|]). lia.
  - vm_compute. lia.
  - reflexivity.
  - apply (bool_decide_unpack _). by vm_compute.
Defined.

End price_extras.
